(** * CRootBox: the organism registry, driver and delta engine

    A shallow embedding of [src/Organism.cpp] (with the parts of
    [src/Organ.h] and [src/OrganParameter.cpp] it relies on) and the
    properties of it that the design document states.

    Conventions of the embedding.
    - C++ [int] values are integers of [Z]; signed overflow is undefined
      behaviour in C++ and lies outside the model.  Conversions of an [int]
      to [size_t] are written out ([to_size_t]), because the loops of the
      delta queries rely on them.
    - [double] is the binary64 type [float] of the kernel.
    - [std::vector<T>] is [list T]; [std::map<int,T>] is [gmap Z T];
      [std::array<T,5>] is [vec T 5].
    - A member function that may throw returns an [outcome]. *)

From Stdlib Require Import ZArith Lia.
From Stdlib Require Import Floats.PrimFloat.
From stdpp Require Import base option list list_numbers vector gmap strings sorting.

#[local] Set Warnings "-register-all".
#[local] Open Scope Z_scope.

(** ** Outcomes of a call *)

(** The exceptions the code can raise.  [std_exception] is what
    [throw(e)] raises from a handler that caught [const std::exception& e]:
    the exception object is copied at its static type. *)
Inductive exception : Set :=
| out_of_range
| length_error
| std_exception.

(** [Return v]: the call returns [v].  [Throw e]: it leaves by exception [e].
    [Abort]: an [assert] failed.  [Undefined]: the call has no defined
    behaviour (an array subscript out of bounds, a dangling pointer). *)
Inductive outcome (A : Type) : Type :=
| Return (a : A)
| Throw (e : exception)
| Abort
| Undefined.

Arguments Return {A} a.
Arguments Throw {A} e.
Arguments Abort {A}.
Arguments Undefined {A}.

#[global] Instance outcome_ret : MRet outcome := fun A a => Return a.

#[global] Instance outcome_bind : MBind outcome := fun A B f m =>
  match m with
  | Return a => f a
  | Throw e => Throw e
  | Abort => Abort
  | Undefined => Undefined
  end.

(** A range-based [for] loop whose body may throw: the state [s] is threaded
    through the elements in order, and the first exception ends the loop. *)
Fixpoint for_each {A S : Type} (body : S -> A -> outcome S) (l : list A) (s : S)
  : outcome S :=
  match l with
  | [] => Return s
  | a :: l' => s' ← body s a; for_each body l' s'
  end.

(** Two calls end the same way, with results related by [R] if they
    return. *)
Definition outcome_rel {A B : Type} (R : A -> B -> Prop) (x : outcome A) (y : outcome B)
  : Prop :=
  match x, y with
  | Return a, Return b => R a b
  | Throw e, Throw e' => e = e'
  | Abort, Abort => True
  | Undefined, Undefined => True
  | _, _ => False
  end.

(** ** Vectors and [size_t] *)

Definition size_t_modulus : Z := 2 ^ 64.

(** Conversion to [size_t] of an [int], or of a difference of two sizes
    computed in [size_t]: a value below zero wraps around.  (Exact for
    [- 2^64 <= z < 2^64], which covers every [int] and every size.) *)
Definition to_size_t (z : Z) : Z :=
  if z <? 0 then z + size_t_modulus else z.

(** [for (size_t i = first; i < stop; i++)]: the values [i] takes, for the
    integers [first] and [stop] as they are computed before conversion. *)
Definition size_t_range (first stop : Z) : list Z :=
  seqZ (to_size_t first) (to_size_t stop - to_size_t first).

(** [v.at(i)] for an [int] index [i]: bounds-checked access.  The index is
    converted to [size_t]; a negative [int] converts to a value above every
    vector size, so the check fails exactly when [i] is outside
    [0 <= i < v.size()]. *)
Definition vector_at {A : Type} (v : list A) (i : Z) : outcome A :=
  if (0 <=? i) && (i <? Z.of_nat (length v)) then
    match v !! Z.to_nat i with
    | Some a => Return a
    | None => Throw out_of_range
    end
  else Throw out_of_range.

(** [v.at(i) = a]. *)
Definition vector_set {A : Type} (v : list A) (i : Z) (a : A) : outcome (list A) :=
  if (0 <=? i) && (i <? Z.of_nat (length v)) then
    Return (<[Z.to_nat i := a]> v)
  else Throw out_of_range.

(** [v[i]] and [v[i] = a] on a vector: no bounds check. *)
Definition vector_get {A : Type} (v : list A) (i : Z) : outcome A :=
  match (if 0 <=? i then v !! Z.to_nat i else None) with
  | Some a => Return a
  | None => Undefined
  end.

Definition vector_put {A : Type} (v : list A) (i : Z) (a : A) : outcome (list A) :=
  if (0 <=? i) && (i <? Z.of_nat (length v)) then Return (<[Z.to_nat i := a]> v)
  else Undefined.

(** [std::vector<T> v(n)] for an [int] [n]: [n] value-initialised elements;
    a negative [n] converts to a size above [max_size()]. *)
Definition vector_new {A : Type} (n : Z) (a : A) : outcome (list A) :=
  if n <? 0 then Throw length_error else Return (replicate (Z.to_nat n) a).

(** [v.reserve(n)] for an [int] [n]: a negative [n] converts to a size
    above [max_size()], and [reserve] throws [length_error]; otherwise the
    call changes the capacity only. *)
Definition vector_reserve (n : Z) : outcome unit :=
  if n <? 0 then Throw length_error else Return tt.

(** A sequence of checked writes [v.at(k) = a], in order. *)
Definition apply_writes {A : Type} (ws : list (Z * A)) (v : list A) : outcome (list A) :=
  for_each (fun v w => vector_set v (fst w) (snd w)) ws v.

(** [k] is an index of [v]. *)
Definition in_bounds {A : Type} (v : list A) (k : Z) : Prop :=
  0 <= k < Z.of_nat (length v).

(** ** Geometry ([mymath.h], which is not among the sources)

  Modelled from the spec: a node is a 3D position and a segment a pair of
  global node ids; a value-initialised vector element is all zero. *)

Module Vector3d.
Record t : Set := mk { x : float; y : float; z : float }.
Definition zero : t := mk 0%float 0%float 0%float.
End Vector3d.

Module Vector2i.
Record t : Set := mk { x : Z; y : Z }.
Definition zero : t := mk 0 0.
End Vector2i.

(** Addresses of heap objects ([Organism*], [OrganTypeParameter*]). *)
Definition address : Set := positive.

(** ** Parameters ([OrganParameter.cpp]) *)

Module OrganParameter.
(** The parameter set of one organ. *)
Record t : Set := mk { subType : Z }.
End OrganParameter.

Module OrganTypeParameter.
(** The prototype of one organ subtype; [plant] is the organism it is
    bound to. *)
Record t : Set := mk {
  plant : address;
  name : string;
  organType : Z;
  subType : Z
}.

(** [OrganTypeParameter::realize]. *)
Definition realize (p : t) : OrganParameter.t :=
  OrganParameter.mk (subType p).

(** Modelled from the spec: [OrganTypeParameter::copy(plant)], whose body
    is not among the sources, "deep-clones the prototype bound to a
    different Organism instance". *)
Definition copy (target : address) (p : t) : t :=
  mk target (name p) (organType p) (subType p).

(** Two prototypes differ at most in the organism they are bound to. *)
Definition same_up_to_plant (p p' : t) : Prop :=
  copy 1%positive p = copy 1%positive p'.
End OrganTypeParameter.

(** ** Organs ([Organ.h]) *)

Module Organ.

(** The members of [Organ.h].  The owned children are part of the value;
    the non-owning [parent] pointer is the position in the tree.

    Modelled from the spec: [oldNumberOfNodes] and [moved] stand for the
    accessors [getOldNumberOfNodes()] and [hasMoved()] that [Organism.cpp]
    calls and [Organ.h] does not declare: "a per-step snapshot of node
    count at start of the most recently processed step and a flag/sign
    indicating whether the last step repositioned the final existing
    node".  Both are [int]s to the caller, which takes
    [std::abs(getOldNumberOfNodes())] and tests [hasMoved()>0].
    [organType] stands for the virtual [organType()]. *)
Inductive t : Set := mk {
  plant : address;
  children : list t;
  id : Z;
  organType : Z;
  param_ : OrganParameter.t;
  alive : bool;
  active : bool;
  age : float;
  length : float;
  nodes : list Vector3d.t;
  nodeIds : list Z;
  nodeCTs : list float;
  oldNumberOfNodes : Z;
  moved : Z
}.

Definition getId (o : t) : Z := id o.
Definition getLength (o : t) : float := length o.
Definition getOldNumberOfNodes (o : t) : Z := oldNumberOfNodes o.
Definition hasMoved (o : t) : Z := moved o.

(** [getNumberOfNodes], a [size_t]. *)
Definition getNumberOfNodes (o : t) : Z := Z.of_nat (List.length (nodes o)).
Definition getNode (o : t) (i : Z) : outcome Vector3d.t := vector_at (nodes o) i.
Definition getNodeId (o : t) (i : Z) : outcome Z := vector_at (nodeIds o) i.
Definition getNodeCT (o : t) (i : Z) : outcome float := vector_at (nodeCTs o) i.

(** Modelled from the spec: [Organ::getOrgans(otype, v)], whose body is
    not among the sources: "deterministic depth-first,
    parent-before-children, children visited in their stored (creation)
    order; an organ is included only if it has more than one node, and
    only if it matches the kind filter (or filter is any)"; the filter
    [-1] denotes all organ types. *)
Fixpoint getOrgans (otype : Z) (o : t) (v : list t) {struct o} : list t :=
  let v' :=
    if (1 <? Z.of_nat (List.length (nodes o)))
       && ((otype =? -1) || (otype =? organType o))
    then v ++ [o] else v in
  fold_left (fun acc c => getOrgans otype c acc) (children o) v'.

(** Modelled from the spec: [Organ::getSegments], whose body is not among
    the sources: "pairs of consecutive node-id indices within this organ
    only". *)
Fixpoint consecutive_pairs (ids : list Z) : list Vector2i.t :=
  match ids with
  | a :: (b :: _) as rest => Vector2i.mk a b :: consecutive_pairs rest
  | _ => []
  end.

Definition getSegments (o : t) : list Vector2i.t := consecutive_pairs (nodeIds o).

(** Modelled from the spec: [Organ::copy(plant)], whose body is not among
    the sources: "deep-copy duplicates base organs [...] rebinding
    ownership to the new Organism". *)
Fixpoint copy (target : address) (o : t) {struct o} : t :=
  mk target (map (copy target) (children o)) (id o) (organType o) (param_ o)
     (alive o) (active o) (age o) (length o) (nodes o) (nodeIds o) (nodeCTs o)
     (oldNumberOfNodes o) (moved o).

(** The three node sequences of an organ are "index-aligned". *)
Definition aligned (o : t) : Prop :=
  List.length (nodeIds o) = List.length (nodes o)
  /\ List.length (nodeCTs o) = List.length (nodes o).

(** The nodes of an organ, each with its global id. *)
Definition node_entries (o : t) : list (Z * Vector3d.t) := zip (nodeIds o) (nodes o).

(** The segments of an organ whose first node has a local index in
    [first, stop): the pairs of consecutive node ids there. *)
Definition segments_in (o : t) (first stop : Z) : list Vector2i.t :=
  omap (fun i => a ← nodeIds o !! Z.to_nat i;
                 b ← nodeIds o !! Z.to_nat (i + 1);
                 Some (Vector2i.mk a b))
       (seqZ first (stop - first)).


(** The last step of the organ repositioned its tip and appended nothing. *)
Definition only_moved (o : t) : Prop :=
  0 < hasMoved o /\ getOldNumberOfNodes o = getNumberOfNodes o.

(** Two organ trees differ at most in the organism they are bound to. *)
Definition same_up_to_plant (o o' : t) : Prop :=
  copy 1%positive o = copy 1%positive o'.

(** The [plant] pointer of the organ and of every organ below it is the
    organism at the address [a]. *)
Fixpoint owned_by (a : address) (o : t) {struct o} : bool :=
  Pos.eqb (plant o) a && forallb (owned_by a) (children o).

(** The global ids of the nodes that the organs of the tree below [o], as
    its traversal lists them, hold beyond their old node counts. *)
Definition new_node_ids (o : t) : list Z :=
  getOrgans (-1) o [] ≫= fun c => drop (Z.to_nat (getOldNumberOfNodes c)) (nodeIds c).

End Organ.

(** ** The standard random number engine ([<random>]) *)

(** The engine and distribution objects an organism owns; their states are
    opaque to the organism, which only seeds and copies them. *)
Class StdRandom : Type := {
  mt19937 : Type;
  mt19937_seed : Z -> mt19937;
  uniform_real_distribution : Type;
  normal_distribution : Type
}.

(** ** What an organism offers to its organs ([Organism.h], which is not
       among the sources) *)

Module Plant.
Section WithRandom.
Context `{StdRandom}.

(** Modelled from the spec: the state of the organism that a simulating
    organ changes: it is "allocating new global node ids from the
    Organism", new organs get ids from "a monotonic organ-id counter", and
    "the shared pseudorandom generator is [...] consumed by every realize()
    call anywhere in the tree". *)
Record t : Type := mk {
  organId : Z;
  nodeId : Z;
  gen : mt19937;
  UD : uniform_real_distribution;
  ND : normal_distribution
}.

End WithRandom.
End Plant.

(** The growth of the organ kinds, which [Organ.h] declares virtual and
    whose bodies are not among the sources ("external collaborators" of the
    design).  [Organ_simulate dt verbose simtime prototype o p]: the organ
    [o] and its children advance by [dt]; they read the simulated time and
    the registered prototypes ([prototype ot subtype]) of the plant and
    change its counters and generator [p].  [Organ_getParameter o name]:
    the scalar parameter [name] of [o]. *)
Class OrganPolicy `{StdRandom} : Type := {
  Organ_simulate :
    float -> bool -> float -> (Z -> Z -> outcome OrganTypeParameter.t) ->
    Organ.t -> Plant.t -> outcome (Organ.t * Plant.t);
  Organ_getParameter : Organ.t -> string -> float
}.

(** Modelled from the spec: the growth of an organ depends on the organism
    object that owns it only through what that organism holds.  An organ
    tree bound to the organism at [a], given prototypes bound to it, and a
    tree bound to the organism at [a'], given prototypes bound to that one,
    grow alike from the same counters and generator state where the trees
    and the prototypes are the same up to their owner, and they stay bound
    to their organisms: [copy(owner)] "must produce a functionally identical
    prototype bound to owner", and [realize()] "must be deterministic given
    the shared generator's current state".  Nothing is required of an organ
    that is given the prototypes of another organism than its own. *)
Definition owner_independent `{OrganPolicy} : Prop :=
  forall dt verbose simtime a a' look look' o o' p,
    (forall ot subtype,
        outcome_rel (fun q q' => OrganTypeParameter.plant q = a
                                 /\ OrganTypeParameter.plant q' = a'
                                 /\ OrganTypeParameter.same_up_to_plant q q')
          (look ot subtype) (look' ot subtype)) ->
    Organ.owned_by a o = true ->
    Organ.owned_by a' o' = true ->
    Organ.same_up_to_plant o o' ->
    outcome_rel (fun r r' => Organ.owned_by a (fst r) = true
                             /\ Organ.owned_by a' (fst r') = true
                             /\ Organ.same_up_to_plant (fst r) (fst r')
                             /\ snd r = snd r')
      (Organ_simulate dt verbose simtime look o p)
      (Organ_simulate dt verbose simtime look' o' p).

(** ** The organism ([Organism.cpp]) *)

Module Organism.

(** [Organism::organTypeNames]. *)
Definition organTypeNames : list string :=
  ["organ"; "seed"; "root"; "stem"; "leaf"]%string.

(** [numberOfOrganTypes], a constant of [Organism.h] (not among the
    sources): the size of the kind table. *)
Definition numberOfOrganTypes : nat := 5.

(** The loop of [Organism::organTypeNumber]: [tail] is what is left of the
    table from index [ot] on; [organTypeNames.at(ot)] throws at its end. *)
Fixpoint organTypeNumber_from (tail : list string) (ot : Z) (name : string)
  : outcome Z :=
  match tail with
  | [] => Throw out_of_range
  | n :: tail' =>
      if String.eqb name n then Return ot
      else organTypeNumber_from tail' (ot + 1) name
  end.

(** The handler of both translations prints and executes [throw(e)] on a
    [const std::exception& e]. *)
Definition rethrow_sliced {A : Type} (m : outcome A) : outcome A :=
  match m with
  | Throw _ => Throw std_exception
  | _ => m
  end.

(** [Organism::organTypeNumber]. *)
Definition organTypeNumber (name : string) : outcome Z :=
  rethrow_sliced (organTypeNumber_from organTypeNames 0 name).

(** [Organism::organTypeName]. *)
Definition organTypeName (ot : Z) : outcome string :=
  rethrow_sliced (vector_at organTypeNames ot).

(** The subscript of [organParam[ot]]: an index into an array of
    [numberOfOrganTypes] maps, or none. *)
Definition kind_index (ot : Z) : option (fin numberOfOrganTypes) :=
  match ot with
  | 0 => Some 0%fin
  | 1 => Some 1%fin
  | 2 => Some 2%fin
  | 3 => Some 3%fin
  | 4 => Some 4%fin
  | _ => None
  end.

(** The order of the entries of a [std::map<int, OrganTypeParameter*>]. *)
Definition subtype_le (a b : Z * address) : Prop := fst a <= fst b.

#[global] Instance subtype_le_dec : RelDecision subtype_le :=
  fun a b => decide (fst a <= fst b).

(** The prototypes that are allocated, by address. *)
Abbreviation heap := (gmap address OrganTypeParameter.t).

Section WithRandom.
Context `{StdRandom}.

(** The members of an organism.  [this] is its address; the registry
    [organParam] holds, for each organ kind, the pointers to the owned
    prototypes by subtype. *)
Record t : Type := mk {
  this : address;
  organParam : vec (gmap Z address) numberOfOrganTypes;
  baseOrgans : list Organ.t;
  simtime : float;
  organId : Z;
  nodeId : Z;
  oldNumberOfNodes : Z;
  oldNumberOfOrgans : Z;
  gen : mt19937;
  UD : uniform_real_distribution;
  ND : normal_distribution
}.

(** Modelled from the spec: [getNumberOfNodes()], [getNumberOfOrgans()] and
    [getNumberOfNewNodes()] of [Organism.h] (not among the sources): the
    "monotonic node-id counter" and "organ-id counter"; the new results are
    "sized exactly to nextNodeId - oldNodeCount". *)
Definition getNumberOfNodes (s : t) : Z := nodeId s.
Definition getNumberOfOrgans (s : t) : Z := organId s.
Definition getNumberOfNewNodes (s : t) : Z := getNumberOfNodes s - oldNumberOfNodes s.

(** [Organism::getOrganTypeParameter(ot, subtype)]: [map::at] throws
    [out_of_range] on a missing key and the handler rethrows it as it is. *)
Definition getOrganTypeParameter (ot subtype : Z) (s : t) : outcome address :=
  match kind_index ot with
  | None => Undefined
  | Some i =>
      match (organParam s !!! i) !! subtype with
      | Some p => Return p
      | None => Throw out_of_range
      end
  end.

(** [delete p]: a null pointer is ignored; the object leaves the heap. *)
Definition delete (p : option address) (h : heap) : outcome heap :=
  match p with
  | None => Return h
  | Some a => if decide (is_Some (h !! a)) then Return (base.delete a h) else Undefined
  end.

(** [Organism::setOrganTypeParameter(p)].  [organParam[otype][subtype]]
    inserts a null pointer where the key is missing, [delete] of it does
    nothing, and the assignment then stores [p]. *)
Definition setOrganTypeParameter (p : address) (h : heap) (s : t)
  : outcome (heap * t) :=
  match h !! p with
  | None => Undefined
  | Some proto =>
      if decide (OrganTypeParameter.plant proto = this s) then
        let otype := OrganTypeParameter.organType proto in
        let subtype := OrganTypeParameter.subType proto in
        match kind_index otype with
        | None => Undefined
        | Some i =>
            h' ← delete ((organParam s !!! i) !! subtype) h;
            Return (h',
                    mk (this s)
                       (vinsert i (<[subtype := p]> (organParam s !!! i)) (organParam s))
                       (baseOrgans s) (simtime s) (organId s) (nodeId s)
                       (oldNumberOfNodes s) (oldNumberOfOrgans s)
                       (gen s) (UD s) (ND s))
        end
      else Abort
  end.

(** [Organism::setSeed]. *)
Definition setSeed (seed : Z) (s : t) : t :=
  mk (this s) (organParam s) (baseOrgans s) (simtime s) (organId s) (nodeId s)
     (oldNumberOfNodes s) (oldNumberOfOrgans s) (mt19937_seed seed) (UD s) (ND s).

(** The loop of [Organism::getOrgans(ot)]: the organs that the base organs
    append to the vector, in the order of the traversal. *)
Definition traversal (ot : Z) (s : t) : list Organ.t :=
  fold_left (fun organs o => Organ.getOrgans ot o organs) (baseOrgans s) [].

(** [Organism::getOrgans(ot)]: [organs.reserve(getNumberOfOrgans())], "just
    for speed up", throws where the organ counter is negative; then the
    loop. *)
Definition getOrgans (ot : Z) (s : t) : outcome (list Organ.t) :=
  _ ← vector_reserve (getNumberOfOrgans s);
  Return (traversal ot s).

(** [Organism::initialize]: empty in the base class. *)
Definition initialize (s : t) : t := s.

(** The organ kinds in the order of [for (ot = 0; ot < numberOfOrganTypes;
    ot++)], and the entries of one kind in the order in which a loop over
    the [std::map] visits them: by ascending subtype. *)
Definition kinds : list (fin numberOfOrganTypes) :=
  [0%fin; 1%fin; 2%fin; 3%fin; 4%fin].

Definition entries_of (m : gmap Z address) : list (Z * address) :=
  merge_sort subtype_le (map_to_list m).

(** [otp.second = otp.second->copy(this)] for one entry of kind [i]: the
    clone is a new object of the heap, and the entry points to it from then
    on. *)
Definition copy_prototype (target : address) (i : fin numberOfOrganTypes)
    (st : heap * vec (gmap Z address) numberOfOrganTypes) (e : Z * address)
  : outcome (heap * vec (gmap Z address) numberOfOrganTypes) :=
  match fst st !! snd e with
  | None => Undefined
  | Some proto =>
      let a := fresh (dom (fst st)) in
      Return (<[a := OrganTypeParameter.copy target proto]> (fst st),
              vinsert i (<[fst e := a]> (snd st !!! i)) (snd st))
  end.

(** The copy constructor [Organism::Organism(const Organism& o)], for the new
    organism at the address [target].  The members are copied, then the base
    organs and the prototypes are cloned and bound to the new organism.

    Modelled from the spec: the snapshot counters, which the constructor
    does not name, start at 0 as in an organism that "is constructed
    empty" ([Organism.h] is not among the sources). *)
Definition copy (target : address) (h : heap) (o : t) : outcome (heap * t) :=
  let baseOrgans' := Organ.copy target <$> baseOrgans o in
  st ← for_each (fun st i =>
                   for_each (copy_prototype target i) (entries_of (snd st !!! i)) st)
                kinds (h, organParam o);
  Return (fst st,
          mk target (snd st) baseOrgans' (simtime o) (organId o) (nodeId o) 0 0
             (gen o) (UD o) (ND o)).

(** The prototype registered at a (kind, subtype) key, if any. *)
Definition registered (s : t) (ot subtype : Z) : option address :=
  i ← kind_index ot; (organParam s !!! i) !! subtype.

(** What [getOrganTypeParameter(ot, subtype)] points to: the lookup that
    the organism offers to its organs. *)
Definition prototype (h : heap) (s : t) (ot subtype : Z)
  : outcome OrganTypeParameter.t :=
  p ← getOrganTypeParameter ot subtype s;
  match h !! p with
  | Some proto => Return proto
  | None => Undefined
  end.

(** The counters and the generator, as the organs see them. *)
Definition plant (s : t) : Plant.t :=
  Plant.mk (organId s) (nodeId s) (gen s) (UD s) (ND s).

(** Two organisms differ at most in their addresses, in the addresses of
    their prototypes and in their snapshot counters: they are at the same
    simulated time, with the same counters and generator, their base organs
    and their registered prototypes the same up to the organism they are
    bound to. *)
Definition same_up_to_owner (h : heap) (s c : t) : Prop :=
  simtime s = simtime c
  /\ plant s = plant c
  /\ Organ.copy 1%positive <$> baseOrgans s = Organ.copy 1%positive <$> baseOrgans c
  /\ forall ot subtype,
       outcome_rel OrganTypeParameter.same_up_to_plant
         (prototype h s ot subtype) (prototype h c ot subtype).

Section WithPolicy.
Context `{!OrganPolicy}.

(** The loop of [Organism::simulate]: [r->simulate(dt, verbose)] for each
    base organ in turn; [done] collects the organs already advanced. *)
Definition simulate_organ (dt : float) (verbose : bool) (h : heap) (s : t)
    (st : list Organ.t * Plant.t) (r : Organ.t)
  : outcome (list Organ.t * Plant.t) :=
  rp ← Organ_simulate dt verbose (simtime s) (prototype h s) r (snd st);
  Return (fst st ++ [fst rp], snd rp).

(** [Organism::simulate(dt, verbose)] (console output is not modelled). *)
Definition simulate (dt : float) (verbose : bool) (h : heap) (s : t) : outcome t :=
  let oldNumberOfNodes' := getNumberOfNodes s in
  let oldNumberOfOrgans' := getNumberOfOrgans s in
  st ← for_each (simulate_organ dt verbose h s) (baseOrgans s) ([], plant s);
  Return (mk (this s) (organParam s) (fst st) (simtime s + dt)%float
             (Plant.organId (snd st)) (Plant.nodeId (snd st))
             oldNumberOfNodes' oldNumberOfOrgans'
             (Plant.gen (snd st)) (Plant.UD (snd st)) (Plant.ND (snd st))).

(** A sequence of [simulate(dt)] calls. *)
Definition simulate_all (dts : list float) (verbose : bool) (h : heap) (s : t)
  : outcome t :=
  for_each (fun s dt => simulate dt verbose h s) dts s.

(** The base organs [rs] are simulated one after the other in their stored
    order, [rs'] being what they become: each starts from the counters and
    the generator that its predecessor left. *)
Inductive simulated_in_order (dt : float) (verbose : bool) (h : heap) (s : t)
  : Plant.t -> list Organ.t -> list Organ.t -> Plant.t -> Prop :=
| in_order_nil (p : Plant.t) :
    simulated_in_order dt verbose h s p [] [] p
| in_order_cons (p p' p'' : Plant.t) (r r' : Organ.t) (rs rs' : list Organ.t) :
    Organ_simulate dt verbose (simtime s) (prototype h s) r p = Return (r', p') ->
    simulated_in_order dt verbose h s p' rs rs' p'' ->
    simulated_in_order dt verbose h s p (r :: rs) (r' :: rs') p''.

(** [Organism::getParameter(name, ot, organs)]; [p[i]] and [organs[i]] are
    unchecked accesses. *)
Definition getParameter (name : string) (ot : Z) (organs : list Organ.t) (s : t)
  : outcome (list float) :=
  organs ← match organs with [] => getOrgans ot s | _ => Return organs end;
  let p := replicate (length organs) 0%float in
  for_each (fun p i => o ← vector_get organs i;
                       vector_put p i (Organ_getParameter o name))
           (size_t_range 0 (Z.of_nat (length organs))) p.

(** [Organism::getSummed(name, ot)]: [std::accumulate] from [0.0].  The call
    [getParameter(name, ot)] leaves [organs] at its default, the empty
    vector ("optionally, a predefined sequential organ list can be used"). *)
Definition getSummed (name : string) (ot : Z) (s : t) : outcome float :=
  v ← getParameter name ot [] s;
  Return (fold_left PrimFloat.add v 0%float).

End WithPolicy.

(** [Organism::getNodes]. *)
Definition getNodes (s : t) : outcome (list Vector3d.t) :=
  organs ← getOrgans (-1) s;
  nv ← vector_new (getNumberOfNodes s) Vector3d.zero;
  nv ← for_each (fun nv o => n ← Organ.getNode o 0;
                             k ← Organ.getNodeId o 0;
                             vector_set nv k n)
                (baseOrgans s) nv;
  for_each (fun nv o =>
              for_each (fun nv i => n ← Organ.getNode o i;
                                    k ← Organ.getNodeId o i;
                                    vector_set nv k n)
                       (size_t_range 0 (Organ.getNumberOfNodes o)) nv)
           organs nv.

(** [Organism::getSegments(ot)].  (Its [reserve] takes a sum of segment
    counts, which is not negative, and has no effect on the result.) *)
Definition getSegments (ot : Z) (s : t) : outcome (list Vector2i.t) :=
  organs ← getOrgans ot s;
  Return (fold_left (fun segs o => segs ++ Organ.getSegments o) organs []).

(** [Organism::getUpdatedNodeIndices]. *)
Definition getUpdatedNodeIndices (s : t) : outcome (list Z) :=
  organs ← getOrgans (-1) s;
  for_each (fun ni o =>
              if 0 <? Organ.hasMoved o then
                k ← Organ.getNodeId o (Organ.getOldNumberOfNodes o - 1);
                Return (ni ++ [k])
              else Return ni)
           organs [].

(** [Organism::getUpdatedNodes]. *)
Definition getUpdatedNodes (s : t) : outcome (list Vector3d.t) :=
  organs ← getOrgans (-1) s;
  for_each (fun nv o =>
              if 0 <? Organ.hasMoved o then
                n ← Organ.getNode o (Organ.getOldNumberOfNodes o - 1);
                Return (nv ++ [n])
              else Return nv)
           organs [].

(** The inner loop of [Organism::getNewNodes] for the organ [o]. *)
Definition getNewNodes_of (s : t) (nv : list Vector3d.t) (o : Organ.t)
  : outcome (list Vector3d.t) :=
  let onon := Organ.getOldNumberOfNodes o in
  for_each (fun nv i => n ← Organ.getNode o i;
                        k ← Organ.getNodeId o i;
                        vector_set nv (k - oldNumberOfNodes s) n)
           (size_t_range onon (Organ.getNumberOfNodes o)) nv.

(** [Organism::getNewNodes]. *)
Definition getNewNodes (s : t) : outcome (list Vector3d.t) :=
  organs ← getOrgans (-1) s;
  nv ← vector_new (getNumberOfNewNodes s) Vector3d.zero;
  for_each (getNewNodes_of s) organs nv.

(** The inner loop of [Organism::getNewSegments] for the organ [o]; [c] is
    the running index into [si]. *)
Definition getNewSegments_of (st : list Vector2i.t * Z) (o : Organ.t)
  : outcome (list Vector2i.t * Z) :=
  let onon := Z.abs (Organ.getOldNumberOfNodes o) in
  for_each (fun st i => a ← Organ.getNodeId o i;
                        b ← Organ.getNodeId o (i + 1);
                        si ← vector_set (fst st) (snd st) (Vector2i.mk a b);
                        Return (si, snd st + 1))
           (size_t_range (onon - 1) (Organ.getNumberOfNodes o - 1)) st.

(** [Organism::getNewSegments(ot)]. *)
Definition getNewSegments (ot : Z) (s : t) : outcome (list Vector2i.t) :=
  organs ← getOrgans ot s;
  si ← vector_new (getNumberOfNewNodes s) Vector2i.zero;
  st ← for_each getNewSegments_of organs (si, 0);
  Return (fst st).

(** The inner loop of [Organism::getNewSegmentOrigins] for the organ [r];
    an entry is a pointer to an organ, null ([None]) where none is
    written. *)
Definition getNewSegmentOrigins_of (st : list (option Organ.t) * Z) (r : Organ.t)
  : outcome (list (option Organ.t) * Z) :=
  let onon := Z.abs (Organ.getOldNumberOfNodes r) in
  for_each (fun st (i : Z) => si ← vector_set (fst st) (snd st) (Some r);
                              Return (si, snd st + 1))
           (size_t_range (onon - 1) (Organ.getNumberOfNodes r - 1)) st.

(** [Organism::getNewSegmentOrigins(ot)]. *)
Definition getNewSegmentOrigins (ot : Z) (s : t) : outcome (list (option Organ.t)) :=
  organs ← getOrgans ot s;
  si ← vector_new (getNumberOfNewNodes s) None;
  st ← for_each getNewSegmentOrigins_of organs (si, 0);
  Return (fst st).



(** *** The writes of the index-addressed loops

    What the loops of [getNodes] and [getNewNodes] write, as a list of
    (index, value) pairs in the order of the writes. *)

Definition node_writes (s : t) : list (Z * Vector3d.t) :=
  omap (fun o => head (Organ.node_entries o)) (baseOrgans s)
  ++ (traversal (-1) s ≫= Organ.node_entries).

Definition new_node_writes (s : t) : list (Z * Vector3d.t) :=
  traversal (-1) s ≫= fun o =>
    (fun e => (fst e - oldNumberOfNodes s, snd e))
      <$> drop (Z.to_nat (Organ.getOldNumberOfNodes o)) (Organ.node_entries o).

(** The global ids of the nodes that the organs of the traversal hold
    beyond their node count at the start of the step. *)
Definition new_node_ids (s : t) : list Z :=
  traversal (-1) s ≫= fun o =>
    drop (Z.to_nat (Organ.getOldNumberOfNodes o)) (Organ.nodeIds o).


(** *** The new segments, organ by organ

    The index range of an organ in the loops of [getNewSegments] and
    [getNewSegmentOrigins], as the code has it:
    [for (size_t i = onon - 1; i < o->getNumberOfNodes() - 1; i++)] with
    [onon = std::abs(o->getOldNumberOfNodes())].  Both bounds are converted
    to [size_t]: for a stored count of 0 the first index is above every
    node. *)
Definition new_range (o : Organ.t) : Z * Z :=
  (to_size_t (Z.abs (Organ.getOldNumberOfNodes o) - 1),
   to_size_t (Organ.getNumberOfNodes o - 1)).



Definition segments_over (range : Organ.t -> Z * Z) (organs : list Organ.t)
  : list Vector2i.t :=
  organs ≫= fun o => Organ.segments_in o (fst (range o)) (snd (range o)).

Definition segment_origins_over (range : Organ.t -> Z * Z) (organs : list Organ.t)
  : list (option Organ.t) :=
  organs ≫= fun o =>
    (fun _ => Some o) <$> seqZ (fst (range o)) (snd (range o) - fst (range o)).

(** The entries of a result, each with its position. *)
Definition indexed {A : Type} (l : list A) : list (Z * A) :=
  zip (seqZ 0 (Z.of_nat (length l))) l.

(** *** The moved nodes *)

(** The number of organs among the first [j] of the traversal whose last
    step moved a node. *)
Definition moved_before (s : t) (j : nat) : nat :=
  length (filter (fun o => 0 < Organ.hasMoved o) (take j (traversal (-1) s))).

(** *** The other queries of [Organism.cpp] *)

(** [Organism::getOrganTypeParameter(ot)]: the prototypes of a kind, copied
    into a vector in the order of the map. *)
Definition getOrganTypeParameters (ot : Z) (s : t) : outcome (list address) :=
  match kind_index ot with
  | None => Undefined
  | Some i => Return (snd <$> entries_of (organParam s !!! i))
  end.

(** The destructor [Organism::~Organism], as far as the heap of prototypes
    goes: every pointer of the registry is deleted, kind by kind.  (The base
    organs, which it deletes first, are part of the value of the organism in
    this model.) *)
Definition destroy (h : heap) (s : t) : outcome heap :=
  for_each (fun h i =>
              for_each (fun h e => delete (Some (snd e)) h)
                       (entries_of (organParam s !!! i)) h)
           kinds h.

(** [Organism::getPolylines(ot)]. *)
Definition getPolylines (ot : Z) (s : t) : outcome (list (list Vector3d.t)) :=
  organs ← getOrgans ot s;
  let nodes := replicate (length organs) [] in
  for_each (fun nodes j =>
              o ← vector_get organs j;
              n ← for_each (fun n i => p ← Organ.getNode o i; vector_set n i p)
                           (size_t_range 0 (Organ.getNumberOfNodes o))
                           (replicate (Z.to_nat (Organ.getNumberOfNodes o))
                              Vector3d.zero);
              vector_put nodes j n)
           (size_t_range 0 (Z.of_nat (length organs))) nodes.

(** [Organism::getPolylinesCTs(ot)]. *)
Definition getPolylinesCTs (ot : Z) (s : t) : outcome (list (list float)) :=
  organs ← getOrgans ot s;
  let nodes := replicate (length organs) [] in
  for_each (fun nodes j =>
              o ← vector_get organs j;
              nct ← for_each (fun nct i => ct ← Organ.getNodeCT o i; vector_set nct i ct)
                             (size_t_range 0 (Organ.getNumberOfNodes o))
                             (replicate (Z.to_nat (Organ.getNumberOfNodes o)) 0%float);
              vector_put nodes j nct)
           (size_t_range 0 (Z.of_nat (length organs))) nodes.

(** [Organism::getNodeCTs]. *)
Definition getNodeCTs (s : t) : outcome (list float) :=
  organs ← getOrgans (-1) s;
  cts ← vector_new (getNumberOfNodes s) 0%float;
  cts ← for_each (fun cts o => ct ← Organ.getNodeCT o 0;
                               k ← Organ.getNodeId o 0;
                               vector_set cts k ct)
                 (baseOrgans s) cts;
  for_each (fun cts o =>
              for_each (fun cts i => ct ← Organ.getNodeCT o i;
                                     k ← Organ.getNodeId o i;
                                     vector_set cts k ct)
                       (size_t_range 0 (Organ.getNumberOfNodes o)) cts)
           organs cts.

(** [Organism::getSegmentCTs(ot)]: [cts[i] = nodeCT[segs[i].y]], both
    unchecked. *)
Definition getSegmentCTs (ot : Z) (s : t) : outcome (list float) :=
  nodeCT ← getNodeCTs s;
  segs ← getSegments ot s;
  let cts := replicate (length segs) 0%float in
  for_each (fun cts i => seg ← vector_get segs i;
                         ct ← vector_get nodeCT (Vector2i.y seg);
                         vector_put cts i ct)
           (size_t_range 0 (Z.of_nat (length cts))) cts.

(** [Organism::getSegmentOrigins(ot)]: the organ of each segment, one
    [push_back] for each segment of the organ. *)
Definition getSegmentOrigins (ot : Z) (s : t) : outcome (list Organ.t) :=
  organs ← getOrgans ot s;
  Return (fold_left (fun segs o =>
                       fold_left (fun segs (_ : Z) => segs ++ [o])
                                 (size_t_range 0 (Z.of_nat (length (Organ.getSegments o))))
                                 segs)
                    organs []).

(** *** Well-formed organisms *)

(** Every pointer of the registry points to an allocated prototype of this
    organism whose kind and subtype are the key it is registered at. *)
Definition registry_consistent (h : heap) (s : t) : Prop :=
  forall ot subtype p,
    registered s ot subtype = Some p ->
    exists proto,
      h !! p = Some proto
      /\ OrganTypeParameter.plant proto = this s
      /\ OrganTypeParameter.organType proto = ot
      /\ OrganTypeParameter.subType proto = subtype.

(** The organism owns what it holds: its registry is consistent, and its
    organs are bound to it.  (An organ reaches the counters, the generator
    and the prototypes of its organism through its [plant] pointer;
    [simulate_organ] hands it those of the organism that runs the loop,
    which are the same for an organism that owns its organs.) *)
Definition well_owned (h : heap) (s : t) : Prop :=
  registry_consistent h s
  /\ Forall (fun o => Organ.owned_by (this s) o = true) (baseOrgans s).

(** The creation times of the nodes, each with its global id, and what the
    loops of [getNodeCTs] write. *)
Definition ct_writes (s : t) : list (Z * float) :=
  omap (fun o => head (zip (Organ.nodeIds o) (Organ.nodeCTs o))) (baseOrgans s)
  ++ (traversal (-1) s ≫= fun o => zip (Organ.nodeIds o) (Organ.nodeCTs o)).

End WithRandom.
End Organism.

(** ** A synthetic growth policy

    A stand-in for the growth of the organ kinds, to run the organism on
    trees "of organs producing a known, controlled number of new nodes per
    step": an organ that is alive either repositions its tip, when the step
    is shorter than the resolution of one day and there is a segment to
    stretch, or appends one node with the next global id; then its children
    advance in their stored order. *)

Module Synthetic.

(** An engine whose state is its seed. *)
#[export] Instance random : StdRandom := {|
  mt19937 := Z;
  mt19937_seed := fun seed => seed;
  uniform_real_distribution := unit;
  normal_distribution := unit
|}.

Definition below (dt : float) (p : Vector3d.t) : Vector3d.t :=
  Vector3d.mk (Vector3d.x p) (Vector3d.y p) (Vector3d.z p - dt)%float.

Definition tip (o : Organ.t) : Vector3d.t :=
  default Vector3d.zero (last (Organ.nodes o)).

(** The step of one organ, given its advanced children [cs]. *)
Definition grow (dt simtime : float) (o : Organ.t) (cs : list Organ.t) (p : Plant.t)
  : Organ.t * Plant.t :=
  let n := Organ.getNumberOfNodes o in
  if negb (Organ.alive o) then
    (Organ.mk (Organ.plant o) cs (Organ.id o) (Organ.organType o) (Organ.param_ o)
       (Organ.alive o) (Organ.active o) (Organ.age o) (Organ.length o)
       (Organ.nodes o) (Organ.nodeIds o) (Organ.nodeCTs o)
       (Organ.oldNumberOfNodes o) (Organ.moved o), p)
  else if PrimFloat.ltb dt 1 && (1 <? n) then
    (Organ.mk (Organ.plant o) cs (Organ.id o) (Organ.organType o) (Organ.param_ o)
       (Organ.alive o) (Organ.active o) (Organ.age o + dt)%float
       (Organ.length o + dt)%float
       (<[Nat.pred (length (Organ.nodes o)) := below dt (tip o)]> (Organ.nodes o))
       (Organ.nodeIds o) (Organ.nodeCTs o) n 1, p)
  else
    (Organ.mk (Organ.plant o) cs (Organ.id o) (Organ.organType o) (Organ.param_ o)
       (Organ.alive o) (Organ.active o) (Organ.age o + dt)%float
       (Organ.length o + dt)%float
       (Organ.nodes o ++ [below dt (tip o)])
       (Organ.nodeIds o ++ [Plant.nodeId p])
       (Organ.nodeCTs o ++ [(simtime + dt)%float]) n 0,
     Plant.mk (Plant.organId p) (Plant.nodeId p + 1) (Plant.gen p) (Plant.UD p)
       (Plant.ND p)).

(** The elements of a list advance one after the other, the state threaded
    through. *)
Definition thread {A St : Type} (f : A -> St -> A * St) : list A -> St -> list A * St :=
  fix go (l : list A) (s : St) : list A * St :=
    match l with
    | [] => ([], s)
    | a :: l' =>
        let r := f a s in
        let r' := go l' (snd r) in
        (fst r :: fst r', snd r')
    end.

(** The organ first, then its children in order; the counters are threaded
    through. *)
Fixpoint simulate (dt simtime : float) (o : Organ.t) (p : Plant.t) {struct o}
  : Organ.t * Plant.t :=
  let own := grow dt simtime o [] p in
  let rest := thread (simulate dt simtime) (Organ.children o) (snd own) in
  (fst (grow dt simtime o (fst rest) p), snd rest).

Definition getParameter (o : Organ.t) (name : string) : float :=
  if String.eqb name "length" then Organ.length o
  else if String.eqb name "age" then Organ.age o
  else nan.

#[export] Instance policy : OrganPolicy := {|
  Organ_simulate := fun dt verbose simtime prototype o p =>
    Return (simulate dt simtime o p);
  Organ_getParameter := getParameter
|}.

(** *** Example organisms *)

(** A root (kind 2, subtype 1) that has only its attachment node, with the
    global id [k], at [(x, 0, 0)]. *)
Definition seedling (id k : Z) (x : float) (cs : list Organ.t) : Organ.t :=
  Organ.mk 1%positive cs id 2 (OrganParameter.mk 1) true true 0 0
    [Vector3d.mk x 0 0] [k] [0%float] 0 0.

(** An organism at address 1 with two base roots, the first with a lateral;
    three nodes and three organs so far, and no prototype registered. *)
Definition sapling : Organism.t :=
  Organism.mk 1%positive (vreplicate Organism.numberOfOrganTypes ∅)
    [seedling 0 0 0 [seedling 1 1 1 []]; seedling 2 2 2 []]
    0 3 3 0 0 42 tt tt.

Definition run (dts : list float) (s : Organism.t) : outcome Organism.t :=
  for_each (fun s dt => Organism.simulate dt false ∅ s) dts s.

Definition returned (r : outcome Organism.t) : Organism.t :=
  match r with Return s => s | _ => sapling end.

(** The sapling after one day: every organ has appended a node. *)
Definition grown : Organism.t := Eval vm_compute in returned (run [1%float] sapling).

(** And after half a day more: every organ has repositioned its tip. *)
Definition stretched : Organism.t :=
  Eval vm_compute in returned (run [0.5%float] grown).

(** The lateral of the first base root, the second organ of the traversal. *)
Definition stretched_lateral : Organ.t :=
  Eval vm_compute in default (seedling 1 1 1 []) (Organism.traversal (-1) stretched !! 1%nat).

(** A base root whose only node was repositioned by its last step (the first
    scenario of the design document's test list). *)
Definition lone_tip : Organ.t :=
  Organ.mk 1%positive [] 0 2 (OrganParameter.mk 1) true true 0.5 0.5
    [Vector3d.mk 0 0 (-0.5)] [0] [0%float] 1 1.

Definition lone : Organism.t :=
  Organism.mk 1%positive (vreplicate Organism.numberOfOrganTypes ∅) [lone_tip]
    0.5 1 1 1 1 42 tt tt.

(** A root that had two nodes and appended a third, its old node count
    stored with a negative sign. *)
Definition signed_root : Organ.t :=
  Organ.mk 1%positive [] 0 2 (OrganParameter.mk 1) true true 2 2
    [Vector3d.mk 0 0 0; Vector3d.mk 0 0 (-1); Vector3d.mk 0 0 (-2)] [0; 1; 2]
    [0%float; 1%float; 2%float] (-2) 0.

Definition signed : Organism.t :=
  Organism.mk 1%positive (vreplicate Organism.numberOfOrganTypes ∅) [signed_root]
    2 1 3 2 1 42 tt tt.

(** Two prototypes for the key (root, 1), both bound to the organism at
    address 1, and the sapling with the first of them registered. *)
Definition taproot : OrganTypeParameter.t := OrganTypeParameter.mk 1%positive "taproot" 2 1.
Definition fibrous : OrganTypeParameter.t := OrganTypeParameter.mk 1%positive "fibrous" 2 1.

Definition nursery : gmap address OrganTypeParameter.t :=
  {[ 7%positive := taproot; 8%positive := fibrous ]}.

Definition rooted : Organism.t :=
  Organism.mk 1%positive
    (vinsert 2%fin {[ 1 := 7%positive ]} (vreplicate Organism.numberOfOrganTypes ∅))
    [seedling 0 0 0 [seedling 1 1 1 []]; seedling 2 2 2 []]
    0 3 3 0 0 42 tt tt.

(** A prototype for the same key bound to the organism at address 2, and
    the heap that holds it beside the other two. *)
Definition graft : OrganTypeParameter.t := OrganTypeParameter.mk 2%positive "graft" 2 1.

Definition greenhouse : gmap address OrganTypeParameter.t :=
  <[ 9%positive := graft ]> nursery.

(** A root with two nodes and the creation time of one only. *)
Definition ragged_root : Organ.t :=
  Organ.mk 1%positive [] 0 2 (OrganParameter.mk 1) true true 1 1
    [Vector3d.mk 0 0 0; Vector3d.mk 0 0 (-1)] [0; 1] [0%float] 1 0.

Definition ragged : Organism.t :=
  Organism.mk 1%positive (vreplicate Organism.numberOfOrganTypes ∅) [ragged_root]
    1 1 2 1 1 42 tt tt.

(** A root with two nodes and three node ids. *)
Definition overlong_root : Organ.t :=
  Organ.mk 1%positive [] 0 2 (OrganParameter.mk 1) true true 1 1
    [Vector3d.mk 0 0 0; Vector3d.mk 0 0 (-1)] [0; 1; 5] [0%float; 1%float] 1 0.

Definition overlong : Organism.t :=
  Organism.mk 1%positive (vreplicate Organism.numberOfOrganTypes ∅) [overlong_root]
    1 1 2 1 1 42 tt tt.

(** A root that moved a node and stores 0 as its old number of nodes. *)
Definition restless_root : Organ.t :=
  Organ.mk 1%positive [] 0 2 (OrganParameter.mk 1) true true 1 1
    [Vector3d.mk 0 0 0; Vector3d.mk 0 0 (-1)] [0; 1] [0%float; 1%float] 0 1.

Definition restless : Organism.t :=
  Organism.mk 1%positive (vreplicate Organism.numberOfOrganTypes ∅) [restless_root]
    1 1 2 1 1 42 tt tt.

(** A base organ without a node. *)
Definition bare_root : Organ.t :=
  Organ.mk 1%positive [] 0 2 (OrganParameter.mk 1) true true 0 0 [] [] [] 0 0.

Definition bare : Organism.t :=
  Organism.mk 1%positive (vreplicate Organism.numberOfOrganTypes ∅) [bare_root]
    0 1 0 0 0 42 tt tt.

(** The organism of the signed root with a node counter that is one short,
    and with a negative node counter. *)
Definition miscounted : Organism.t :=
  Organism.mk 1%positive (vreplicate Organism.numberOfOrganTypes ∅) [signed_root]
    2 1 2 2 1 42 tt tt.

Definition overdrawn : Organism.t :=
  Organism.mk 1%positive (vreplicate Organism.numberOfOrganTypes ∅) [signed_root]
    2 1 (-1) 0 1 42 tt tt.

(** The organism of the signed root with a negative organ counter. *)
Definition uncounted : Organism.t :=
  Organism.mk 1%positive (vreplicate Organism.numberOfOrganTypes ∅) [signed_root]
    2 (-1) 3 2 1 42 tt tt.






End Synthetic.

(** * Properties *)

(** ** The organ-kind table *)

Lemma organTypeNumber_from_unknown (tail : list string) (ot : Z) (name : string) :
  name ∉ tail -> Organism.organTypeNumber_from tail ot name = Throw out_of_range.
Proof.
  revert ot. induction tail as [|n tail IH]; intros ot Hnot; [reflexivity|].
  apply not_elem_of_cons in Hnot as [Hne Hnot]. cbn.
  destruct (String.eqb_spec name n) as [->|_]; [done|]. by apply IH.
Qed.

(** The loop stops at the first index whose entry is [name]. *)
Lemma organTypeNumber_from_at (tail : list string) (ot : Z) (name : string) (k : Z) :
  Organism.organTypeNumber_from tail ot name = Return k ->
  ot <= k /\ tail !! Z.to_nat (k - ot) = Some name.
Proof.
  revert ot. induction tail as [|n tail IH]; intros ot; cbn; [done|].
  destruct (String.eqb_spec name n) as [->|_].
  - intros [= <-]. rewrite Z.sub_diag. split; [lia|done].
  - intros Hk. apply IH in Hk as [Hle Hk]. split; [lia|].
    replace (Z.to_nat (k - ot)) with (S (Z.to_nat (k - (ot + 1)))) by lia. done.
Qed.

(** C10. The translation between organ-kind names and numbers is a bijection
    on the table: a number [0 <= ot < 5] is translated to a name that is
    translated back to [ot]; each of the names "organ", "seed", "root",
    "stem", "leaf" is translated to a number that is translated back to the
    name; for every other number and every other name the translation
    throws. *)
Theorem organ_kind_translation_bijection :
  (forall ot : Z, 0 <= ot < 5 ->
     exists name, Organism.organTypeName ot = Return name
                  /\ Organism.organTypeNumber name = Return ot)
  /\ (forall name : string, name ∈ Organism.organTypeNames ->
        exists ot, Organism.organTypeNumber name = Return ot
                   /\ Organism.organTypeName ot = Return name)
  /\ (forall ot : Z, ~ 0 <= ot < 5 ->
        Organism.organTypeName ot = Throw std_exception)
  /\ (forall name : string, name ∉ Organism.organTypeNames ->
        Organism.organTypeNumber name = Throw std_exception).
Proof.
  split; [|split; [|split]].
  - intros ot Hot.
    assert (ot = 0 \/ ot = 1 \/ ot = 2 \/ ot = 3 \/ ot = 4) as Hcases by lia.
    destruct Hcases as [->|[->|[->|[->| ->]]]]; eexists; split; reflexivity.
  - intros name Hin. unfold Organism.organTypeNames in Hin.
    repeat (apply elem_of_cons in Hin as [->|Hin]; [eexists; split; reflexivity|]).
    by apply elem_of_nil in Hin.
  - intros ot Hot.
    unfold Organism.organTypeName, vector_at.
    destruct (0 <=? ot) eqn:H0; destruct (ot <? _) eqn:H1; cbn; try reflexivity.
    apply Z.leb_le in H0. apply Z.ltb_lt in H1. cbn in H1. lia.
  - intros name Hnot. unfold Organism.organTypeNumber.
    by rewrite organTypeNumber_from_unknown.
Qed.

Lemma organ_kind_translation_bijection_witness :
  (exists name, Organism.organTypeName 2 = Return name
                /\ Organism.organTypeNumber name = Return 2)
  /\ (exists ot, Organism.organTypeNumber "stem" = Return ot
                 /\ Organism.organTypeName ot = Return "stem"%string)
  /\ Organism.organTypeName 5 = Throw std_exception
  /\ Organism.organTypeNumber "shoot" = Throw std_exception.
Proof.
  destruct organ_kind_translation_bijection as (Hn & Hs & Hbad & Hunk).
  split; [apply (Hn 2); lia|].
  split; [apply (Hs "stem"%string); unfold Organism.organTypeNames; set_solver|].
  split; [apply (Hbad 5); lia|].
  apply (Hunk "shoot"%string). unfold Organism.organTypeNames.
  intros Hin. repeat (apply elem_of_cons in Hin as [Hin|Hin]; [discriminate Hin|]).
  by apply elem_of_nil in Hin.
Defined.

(** ** The prototype registry *)

Lemma kind_index_Some (ot : Z) :
  0 <= ot < 5 <-> is_Some (Organism.kind_index ot).
Proof.
  split.
  - intros Hot.
    assert (ot = 0 \/ ot = 1 \/ ot = 2 \/ ot = 3 \/ ot = 4) as Hcases by lia.
    destruct Hcases as [->|[->|[->|[->| ->]]]]; cbn; eauto.
  - intros [i Hi]. unfold Organism.kind_index in Hi.
    destruct ot as [|[[[]|[]|]|[[]|[]|]|]|]; try discriminate Hi; lia.
Qed.

Lemma kind_index_inj (ot ot' : Z) (i : fin Organism.numberOfOrganTypes) :
  Organism.kind_index ot = Some i -> Organism.kind_index ot' = Some i -> ot = ot'.
Proof.
  unfold Organism.kind_index.
  destruct ot as [|[[[]|[]|]|[[]|[]|]|]|]; intros [= <-];
    destruct ot' as [|[[[]|[]|]|[[]|[]|]|]|]; intros Hi; try discriminate Hi;
    reflexivity.
Qed.

Section Registry.
Context `{StdRandom}.

(** C7. For a (kind, subtype) key with no registered prototype,
    [getOrganTypeParameter] throws [out_of_range] (the configuration error)
    and returns no prototype at all; for a registered key it returns the
    stored prototype. *)
Theorem getOrganTypeParameter_registered_or_throws
    (s : Organism.t) (ot subtype : Z) :
  0 <= ot < 5 ->
  (Organism.registered s ot subtype = None ->
     Organism.getOrganTypeParameter ot subtype s = Throw out_of_range)
  /\ (forall p, Organism.registered s ot subtype = Some p ->
        Organism.getOrganTypeParameter ot subtype s = Return p).
Proof.
  intros Hot. apply kind_index_Some in Hot as [i Hi].
  unfold Organism.registered, Organism.getOrganTypeParameter. rewrite Hi. cbn.
  split.
  - intros ->. reflexivity.
  - intros p ->. reflexivity.
Qed.

Lemma registered_insert (s s' : Organism.t) (ot st : Z) (p : address)
    (i : fin Organism.numberOfOrganTypes) :
  Organism.kind_index ot = Some i ->
  Organism.organParam s' =
    vinsert i (<[st := p]> (Organism.organParam s !!! i)) (Organism.organParam s) ->
  Organism.registered s' ot st = Some p
  /\ forall ot' st', (ot', st') <> (ot, st) ->
       Organism.registered s' ot' st' = Organism.registered s ot' st'.
Proof.
  intros Hi Hs'. unfold Organism.registered. rewrite Hs', Hi. cbn. split.
  - by rewrite vlookup_insert, lookup_insert_eq.
  - intros ot' st' Hne. destruct (Organism.kind_index ot') as [j|] eqn:Hj; [|done].
    cbn. destruct (decide (i = j)) as [<-|Hij].
    + rewrite vlookup_insert. rewrite lookup_insert_ne; [done|].
      intros <-. apply Hne. f_equal. eapply kind_index_inj; eauto.
    + by rewrite vlookup_insert_ne.
Qed.

(** C6. The registry holds at most one prototype per (kind, subtype) key
    ([registered] is a function of the key), and
    [setOrganTypeParameter(p)], for a prototype [p] of this organism with a
    valid organ kind, stores [p] at the key ([p->organType], [p->subType]),
    releases (deletes from the heap) the prototype stored there before, and
    leaves every other key as it was. *)
Theorem setOrganTypeParameter_replaces
    (h : gmap address OrganTypeParameter.t) (s : Organism.t) (p : address)
    (proto : OrganTypeParameter.t) :
  let ot := OrganTypeParameter.organType proto in
  let st := OrganTypeParameter.subType proto in
  h !! p = Some proto ->
  OrganTypeParameter.plant proto = Organism.this s ->
  0 <= ot < 5 ->
  (forall q, Organism.registered s ot st = Some q -> is_Some (h !! q)) ->
  exists h' s',
    Organism.setOrganTypeParameter p h s = Return (h', s')
    /\ Organism.registered s' ot st = Some p
    /\ (forall q, Organism.registered s ot st = Some q ->
          h' = delete q h /\ h' !! q = None)
    /\ (Organism.registered s ot st = None -> h' = h)
    /\ (forall ot' st', (ot', st') <> (ot, st) ->
          Organism.registered s' ot' st' = Organism.registered s ot' st')
    /\ Organism.baseOrgans s' = Organism.baseOrgans s.
Proof.
  intros ot st Hp Hplant Hot Hold.
  apply kind_index_Some in Hot as [i Hi].
  unfold Organism.setOrganTypeParameter. rewrite Hp.
  rewrite decide_True by done. fold ot st. rewrite Hi.
  assert (Organism.registered s ot st = (Organism.organParam s !!! i) !! st) as Hreg.
  { unfold Organism.registered. by rewrite Hi. }
  rewrite Hreg in Hold |- *.
  set (s' := Organism.mk _ _ _ _ _ _ _ _ _ _ _).
  destruct (registered_insert s s' ot st p i Hi eq_refl) as [Hnew Hother].
  destruct ((Organism.organParam s !!! i) !! st) as [q|] eqn:Hq;
    unfold Organism.delete.
  - rewrite decide_True by (by apply Hold).
    exists (delete q h), s'. split; [reflexivity|].
    split; [exact Hnew|]. split.
    { intros q' [= <-]. split; [done|]. apply lookup_delete_eq. }
    split; [done|]. split; [exact Hother|done].
  - exists h, s'. split; [reflexivity|].
    split; [exact Hnew|]. split; [done|]. split; [done|]. split; [exact Hother|done].
Qed.

End Registry.

(** ** Loops and writes *)

Lemma for_each_app {A S : Type} (body : S -> A -> outcome S) (l1 l2 : list A) (s : S) :
  for_each body (l1 ++ l2) s = (for_each body l1 s ≫= for_each body l2).
Proof.
  revert s. induction l1 as [|a l1 IH]; intros s; cbn; [done|].
  destruct (body s a) as [s'| | |]; cbn; [apply IH|done..].
Qed.

Lemma for_each_ext {A S : Type} (f g : S -> A -> outcome S) (l : list A) (s : S) :
  (forall s a, a ∈ l -> f s a = g s a) -> for_each f l s = for_each g l s.
Proof.
  revert s. induction l as [|a l IH]; intros s Hfg; cbn; [done|].
  rewrite Hfg by set_solver. destruct (g s a); cbn; [|done..].
  apply IH. intros; apply Hfg; set_solver.
Qed.

(** Nested loops are one loop over the concatenated inner ranges. *)
Lemma for_each_bind {A B S : Type} (body : S -> B -> outcome S) (inner : A -> list B)
    (l : list A) (s : S) :
  for_each (fun s a => for_each body (inner a) s) l s = for_each body (l ≫= inner) s.
Proof.
  revert s. induction l as [|a l IH]; intros s; cbn; [done|].
  rewrite for_each_app. destruct (for_each body (inner a) s); cbn; [apply IH|done..].
Qed.

Lemma for_each_fmap {A B S : Type} (body : S -> B -> outcome S) (f : A -> B)
    (l : list A) (s : S) :
  for_each body (f <$> l) s = for_each (fun s a => body s (f a)) l s.
Proof.
  revert s. induction l as [|a l IH]; intros s; cbn; [done|].
  destruct (body s (f a)); cbn; [apply IH|done..].
Qed.

Lemma vector_at_lookup {A : Type} (v : list A) (i : nat) (a : A) :
  v !! i = Some a -> vector_at v (Z.of_nat i) = Return a.
Proof.
  intros Hi. unfold vector_at. pose proof (lookup_lt_Some _ _ _ Hi).
  rewrite Nat2Z.id, Hi.
  destruct (0 <=? Z.of_nat i) eqn:H0; destruct (Z.of_nat i <? Z.of_nat (length v)) eqn:H1;
    cbn; try done; lia.
Qed.

Lemma vector_set_in_bounds {A : Type} (v : list A) (k : Z) (a : A) :
  in_bounds v k -> vector_set v k a = Return (<[Z.to_nat k := a]> v).
Proof.
  intros [H0 H1]. unfold vector_set.
  destruct (0 <=? k) eqn:E0; destruct (k <? Z.of_nat (length v)) eqn:E1; cbn; try done; lia.
Qed.

(** The writes of a loop all land: the result has the length of the vector
    it started from, an index no write names keeps its value, and where the
    writes agree on the value at an index, that value is there at the end. *)
Lemma apply_writes_Return {A : Type} (ws : list (Z * A)) (v : list A) :
  Forall (fun w => in_bounds v (fst w)) ws ->
  exists v', apply_writes ws v = Return v'
    /\ length v' = length v
    /\ (forall k : nat, Z.of_nat k ∉ fst <$> ws -> v' !! k = v !! k)
    /\ ((forall k a b, (k, a) ∈ ws -> (k, b) ∈ ws -> a = b) ->
        forall k a, (k, a) ∈ ws -> v' !! Z.to_nat k = Some a).
Proof.
  revert v. induction ws as [|[k a] ws IH]; intros v Hb.
  - exists v. split; [done|]. split; [done|]. split; [done|].
    intros _ k a Hin. by apply elem_of_nil in Hin.
  - apply Forall_cons in Hb as [Hk Hb]. cbn in Hk.
    assert (0 <= k < Z.of_nat (length v)) as Hk' by exact Hk.
    unfold apply_writes. cbn. rewrite vector_set_in_bounds by done. cbn.
    destruct (IH (<[Z.to_nat k := a]> v)) as (v' & Hv' & Hlen & Hkeep & Hlast).
    { eapply Forall_impl; [exact Hb|]. intros w Hw. unfold in_bounds in *.
      by rewrite length_insert. }
    exists v'. split; [exact Hv'|]. split; [by rewrite Hlen, length_insert|]. split.
    + intros j Hj. cbn in Hj. apply not_elem_of_cons in Hj as [Hne Hj].
      rewrite Hkeep by done. apply list_lookup_insert_ne. cbn in Hne. lia.
    + intros Hfun j b Hin.
      destruct (decide (j ∈ fst <$> ws)) as [Hj|Hj].
      * apply list_elem_of_fmap in Hj as ([j' c] & -> & Hc). cbn in *.
        assert (b = c) as -> by (eapply Hfun; [exact Hin|by right]).
        apply Hlast; [|done]. intros; eapply Hfun; by right.
      * apply elem_of_cons in Hin as [[= -> ->]|Hin].
        -- rewrite <- (Z2Nat.id k) in Hj by lia. rewrite Hkeep by done.
           apply list_lookup_insert_eq. lia.
        -- exfalso. apply Hj. apply list_elem_of_fmap. by exists (j, b).
Qed.

Lemma to_size_t_nonneg (z : Z) : 0 <= z -> to_size_t z = z.
Proof. intros Hz. unfold to_size_t. destruct (z <? 0) eqn:E; [lia|done]. Qed.

Lemma size_t_range_nonneg (first stop : Z) :
  0 <= first -> 0 <= stop -> size_t_range first stop = seqZ first (stop - first).
Proof. intros. unfold size_t_range. by rewrite !to_size_t_nonneg. Qed.

(** A loop over the indices of a list is a loop over its elements. *)
Lemma for_each_indices_from {E St : Type} (l : list E) (f : St -> E -> outcome St)
    (g : St -> Z -> outcome St) (off : Z) (s : St) :
  (forall s (i : nat) e, l !! i = Some e -> g s (off + Z.of_nat i) = f s e) ->
  for_each g (seqZ off (Z.of_nat (length l))) s = for_each f l s.
Proof.
  revert off s. induction l as [|e l IH]; intros off s Hg; [done|].
  rewrite length_cons, Nat2Z.inj_succ, seqZ_cons by lia. cbn.
  rewrite <- (Hg s 0%nat e eq_refl), Z.add_0_r.
  destruct (g s off); cbn; [|done..].
  rewrite Z.pred_succ. apply IH. intros s' i e' Hi.
  rewrite <- (Hg s' (S i) e' Hi). f_equal. lia.
Qed.

Lemma for_each_indices_drop {E St : Type} (l : list E) (f : St -> E -> outcome St)
    (g : St -> Z -> outcome St) (first : Z) (s : St) :
  0 <= first ->
  (forall s (i : nat) e, l !! i = Some e -> g s (Z.of_nat i) = f s e) ->
  for_each g (seqZ first (Z.of_nat (length l) - first)) s
  = for_each f (drop (Z.to_nat first) l) s.
Proof.
  intros Hfirst Hg.
  destruct (decide (first <= Z.of_nat (length l))) as [Hle|Hgt].
  - rewrite <- (for_each_indices_from (drop (Z.to_nat first) l) f g first).
    + rewrite length_drop. do 2 f_equal. lia.
    + intros s' i e Hi. rewrite lookup_drop in Hi. rewrite <- (Hg s' _ e Hi).
      f_equal. lia.
  - rewrite drop_ge by lia. by rewrite seqZ_nil by lia.
Qed.

Lemma organ_entry_lookup (o : Organ.t) (i : nat) (k : Z) (n : Vector3d.t) :
  Organ.node_entries o !! i = Some (k, n) ->
  Organ.getNodeId o (Z.of_nat i) = Return k /\ Organ.getNode o (Z.of_nat i) = Return n.
Proof.
  unfold Organ.node_entries. intros Hi.
  apply lookup_zip_with_Some in Hi as (k' & n' & [= <- <-] & Hk & Hn).
  split; by apply vector_at_lookup.
Qed.

Lemma node_entries_length (o : Organ.t) :
  Organ.aligned o -> length (Organ.node_entries o) = length (Organ.nodes o).
Proof. intros [Hids _]. unfold Organ.node_entries. rewrite length_zip_with. lia. Qed.

(** The inner loop of the node queries: the entries of the organ from the
    local index [first] on are written at the index [g] makes of their id. *)
Lemma organ_node_loop (o : Organ.t) (g : Z -> Z) (first : Z) (nv : list Vector3d.t) :
  Organ.aligned o -> 0 <= first ->
  for_each (fun nv i => n ← Organ.getNode o i;
                        k ← Organ.getNodeId o i;
                        vector_set nv (g k) n)
           (size_t_range first (Organ.getNumberOfNodes o)) nv
  = apply_writes ((fun e => (g (fst e), snd e))
                    <$> drop (Z.to_nat first) (Organ.node_entries o)) nv.
Proof.
  intros Hal Hfirst. unfold Organ.getNumberOfNodes, apply_writes.
  rewrite size_t_range_nonneg by lia. rewrite for_each_fmap.
  rewrite <- node_entries_length by done.
  apply for_each_indices_drop; [done|]. intros s i [k n] Hi.
  apply organ_entry_lookup in Hi as [-> ->]. reflexivity.
Qed.

Lemma vector_reserve_nonneg (n : Z) : 0 <= n -> vector_reserve n = Return tt.
Proof. intros Hn. unfold vector_reserve. by rewrite (proj2 (Z.ltb_ge _ _)) by lia. Qed.

Lemma vector_reserve_negative (n : Z) : n < 0 -> vector_reserve n = Throw length_error.
Proof. intros Hn. unfold vector_reserve. by rewrite (proj2 (Z.ltb_lt _ _)) by lia. Qed.

Section GetOrgans.
Context `{StdRandom}.

(** [getOrgans(ot)] returns the organs of the traversal where the organ
    counter is not negative, and throws otherwise. *)
Lemma getOrgans_traversal (ot : Z) (s : Organism.t) :
  0 <= Organism.getNumberOfOrgans s ->
  Organism.getOrgans ot s = Return (Organism.traversal ot s).
Proof. intros Hn. unfold Organism.getOrgans. by rewrite vector_reserve_nonneg. Qed.

Lemma getOrgans_negative (ot : Z) (s : Organism.t) :
  Organism.getNumberOfOrgans s < 0 ->
  Organism.getOrgans ot s = Throw length_error.
Proof. intros Hn. unfold Organism.getOrgans. by rewrite vector_reserve_negative. Qed.

Lemma getOrgans_Return (ot : Z) (s : Organism.t) (organs : list Organ.t) :
  Organism.getOrgans ot s = Return organs ->
  0 <= Organism.getNumberOfOrgans s /\ organs = Organism.traversal ot s.
Proof.
  unfold Organism.getOrgans, vector_reserve.
  destruct (Organism.getNumberOfOrgans s <? 0) eqn:E; [done|].
  intros [= <-]. split; [lia|done].
Qed.

End GetOrgans.

(** Both sides of an equation start with [getOrgans]: where it throws they
    are equal, and where it returns it returns the traversal. *)
Ltac over_traversal :=
  unfold Organism.getOrgans, vector_reserve;
  destruct (Organism.getNumberOfOrgans _ <? 0) eqn:?;
  cbn [mbind outcome_bind]; [try reflexivity|].

(** ** The node array *)

Lemma vector_at_Return {A : Type} (v : list A) (i : Z) (a : A) :
  vector_at v i = Return a -> 0 <= i /\ v !! Z.to_nat i = Some a.
Proof.
  unfold vector_at.
  destruct (0 <=? i) eqn:H0; destruct (i <? Z.of_nat (length v)) eqn:H1; cbn; try done.
  destruct (v !! Z.to_nat i) eqn:Hi; [|done]. intros [= ->]. split; [lia|done].
Qed.

Lemma organ_entry_elem (o : Organ.t) (i k : Z) (p : Vector3d.t) :
  Organ.getNodeId o i = Return k -> Organ.getNode o i = Return p ->
  0 <= i /\ Organ.node_entries o !! Z.to_nat i = Some (k, p).
Proof.
  intros Hk Hp. apply vector_at_Return in Hk as [Hi Hk].
  apply vector_at_Return in Hp as [_ Hp]. split; [done|].
  unfold Organ.node_entries. apply lookup_zip_with_Some. eauto.
Qed.

Lemma apply_writes_app {A : Type} (ws1 ws2 : list (Z * A)) (v : list A) :
  apply_writes (ws1 ++ ws2) v = (apply_writes ws1 v ≫= apply_writes ws2).
Proof. apply for_each_app. Qed.

Section Nodes.
Context `{StdRandom}.

Lemma base_node_loop (bs : list Organ.t) (nv : list Vector3d.t) :
  Forall (fun b => Organ.nodes b <> [] /\ Organ.aligned b) bs ->
  for_each (fun nv o => n ← Organ.getNode o 0;
                        k ← Organ.getNodeId o 0;
                        vector_set nv k n) bs nv
  = apply_writes (omap (fun o => head (Organ.node_entries o)) bs) nv.
Proof.
  revert nv. induction bs as [|b bs IH]; intros nv Hbs; [done|].
  apply Forall_cons in Hbs as [[Hne Hal] Hbs]. cbn.
  destruct (Organ.node_entries b) as [|[k n] es] eqn:Hes.
  { apply node_entries_length in Hal. rewrite Hes in Hal.
    destruct (Organ.nodes b); [done|discriminate Hal]. }
  destruct (organ_entry_lookup b 0 k n) as [Hk Hn]; [by rewrite Hes|].
  change (Z.of_nat 0) with 0 in Hk, Hn. cbn. rewrite Hk, Hn.
  cbn. unfold apply_writes. cbn.
  destruct (vector_set nv k n); cbn; [|done..]. by apply IH.
Qed.

Lemma getNodes_writes (s : Organism.t) :
  Forall (fun b => Organ.nodes b <> [] /\ Organ.aligned b) (Organism.baseOrgans s) ->
  Forall Organ.aligned (Organism.traversal (-1) s) ->
  Organism.getNodes s
  = (_ ← Organism.getOrgans (-1) s;
     vector_new (Organism.getNumberOfNodes s) Vector3d.zero
       ≫= apply_writes (Organism.node_writes s)).
Proof.
  intros Hbase Hal. unfold Organism.getNodes, Organism.node_writes. over_traversal.
  destruct (vector_new _ _) as [nv| | |]; cbn; [|done..].
  rewrite base_node_loop by done. rewrite apply_writes_app.
  destruct (apply_writes _ nv) as [nv'| | |]; cbn; [|done..].
  unfold apply_writes at 1.
  rewrite <- for_each_bind. apply for_each_ext. intros nv'' o Ho.
  rewrite (organ_node_loop o (fun k => k) 0) by (by eapply Forall_forall in Hal).
  unfold apply_writes. rewrite drop_0. f_equal.
  rewrite <- (list_fmap_id (Organ.node_entries o)) at 2.
  apply list_fmap_ext. by intros i [k n] _.
Qed.

(** C5. [getNodes()] returns a dense array whose size is the node-id
    counter; for every organ of the traversal and every local index [i] the
    slot at the global id [getNodeId(i)] holds [getNode(i)], and the slot of
    the attachment node (index 0) of every base organ holds that node,
    whether or not the base organ is part of the traversal.  The counters
    and the stored node ids are those of a well-formed organism: the
    counters not negative, the ids within the node counter and naming one
    position each. *)
Theorem getNodes_dense_by_global_id (s : Organism.t) :
  0 <= Organism.getNumberOfOrgans s ->
  0 <= Organism.getNumberOfNodes s ->
  Forall (fun b => Organ.nodes b <> [] /\ Organ.aligned b) (Organism.baseOrgans s) ->
  Forall Organ.aligned (Organism.traversal (-1) s) ->
  (forall k p, (k, p) ∈ Organism.node_writes s -> 0 <= k < Organism.getNumberOfNodes s) ->
  (forall k p q, (k, p) ∈ Organism.node_writes s -> (k, q) ∈ Organism.node_writes s -> p = q) ->
  exists nv organs,
    Organism.getOrgans (-1) s = Return organs
    /\ Organism.getNodes s = Return nv
    /\ Z.of_nat (length nv) = Organism.getNumberOfNodes s
    /\ (forall o i k p, o ∈ organs ->
          Organ.getNodeId o i = Return k -> Organ.getNode o i = Return p ->
          nv !! Z.to_nat k = Some p)
    /\ (forall b k p, b ∈ Organism.baseOrgans s ->
          Organ.getNodeId b 0 = Return k -> Organ.getNode b 0 = Return p ->
          nv !! Z.to_nat k = Some p).
Proof.
  intros HO HN Hbase Hal Hrange Hfun. rewrite getNodes_writes by done.
  rewrite getOrgans_traversal by done. cbn [mbind outcome_bind].
  unfold vector_new. destruct (Organism.getNumberOfNodes s <? 0) eqn:E; [lia|]. cbn.
  destruct (apply_writes_Return (Organism.node_writes s)
              (replicate (Z.to_nat (Organism.getNumberOfNodes s)) Vector3d.zero))
    as (nv & Hnv & Hlen & _ & Hlast).
  { apply Forall_forall. intros [k p] Hin. unfold in_bounds. cbn.
    rewrite length_replicate. apply Hrange in Hin. lia. }
  exists nv, (Organism.traversal (-1) s). split; [done|].
  split; [exact Hnv|]. rewrite length_replicate in Hlen.
  split; [lia|]. specialize (Hlast Hfun). split.
  - intros o i k p Ho Hk Hp. apply Hlast.
    destruct (organ_entry_elem o i k p Hk Hp) as [_ Hi].
    unfold Organism.node_writes. apply elem_of_app. right.
    apply list_elem_of_bind. exists o. split; [|done].
    by eapply list_elem_of_lookup_2.
  - intros b k p Hb Hk Hp. apply Hlast.
    destruct (organ_entry_elem b 0 k p Hk Hp) as [_ Hi].
    unfold Organism.node_writes. apply elem_of_app. left.
    apply list_elem_of_omap. exists b. split; [done|].
    by rewrite head_lookup.
Qed.

End Nodes.

(** ** The traversal *)

(** Induction on organ trees. *)
Lemma Organ_tree_ind (P : Organ.t -> Prop) :
  (forall o, Forall P (Organ.children o) -> P o) -> forall o, P o.
Proof.
  intros IH. fix rec 1. intros o. apply IH.
  destruct o as [pl cs]. cbn. induction cs as [|c cs IHcs]; constructor; [apply rec|exact IHcs].
Qed.

(** The traversal appends to the accumulator, and only organs with more
    than one node that pass the kind filter. *)
Lemma Organ_getOrgans_spec (ot : Z) (o : Organ.t) :
  forall v, exists l,
    Organ.getOrgans ot o v = v ++ l
    /\ Forall (fun o' => 1 < Organ.getNumberOfNodes o'
                         /\ (ot = -1 \/ ot = Organ.organType o')) l.
Proof.
  pattern o. apply Organ_tree_ind. clear o. intros o IH v.
  destruct o as [pl cs i ty pa al ac ag len ns ids cts old mv]. cbn in *.
  match goal with |- context [fold_left _ _ ?x] => set (v' := x) end.
  assert (exists l0, v' = v ++ l0
            /\ Forall (fun o' => 1 < Organ.getNumberOfNodes o'
                                /\ (ot = -1 \/ ot = Organ.organType o')) l0)
    as (l0 & -> & Hl0).
  { subst v'. destruct ((1 <? Z.of_nat (length ns)) && _) eqn:E.
    - exists [Organ.mk pl cs i ty pa al ac ag len ns ids cts old mv]. split; [done|].
      constructor; [|done]. unfold Organ.getNumberOfNodes. cbn.
      apply andb_true_iff in E as [E1 E2]. split; [lia|].
      apply orb_true_iff in E2 as [E2|E2]; lia.
    - exists []. by rewrite app_nil_r. }
  revert l0 Hl0. induction IH as [|c cs Hc _ IHcs]; intros l0 Hl0; cbn.
  - by exists l0.
  - destruct (Hc (v ++ l0)) as (l1 & -> & Hl1).
    rewrite <- app_assoc. apply IHcs. by apply Forall_app.
Qed.

Section Traversal.
Context `{StdRandom}.

Lemma getOrgans_spec (ot : Z) (s : Organism.t) :
  Forall (fun o => 1 < Organ.getNumberOfNodes o /\ (ot = -1 \/ ot = Organ.organType o))
         (Organism.traversal ot s).
Proof.
  unfold Organism.traversal.
  assert (Forall (fun o => 1 < Organ.getNumberOfNodes o
                           /\ (ot = -1 \/ ot = Organ.organType o)) []) as Hnil by done.
  revert Hnil. generalize (@nil Organ.t).
  induction (Organism.baseOrgans s) as [|b bs IH]; intros v Hv; cbn; [done|].
  destruct (Organ_getOrgans_spec ot b v) as (l & -> & Hl).
  apply IH. by apply Forall_app.
Qed.

End Traversal.

Lemma filter_all {A : Type} (P : A -> Prop) `{forall x, Decision (P x)} (l : list A) :
  (forall x, P x) -> filter P l = l.
Proof.
  intros HP. induction l as [|a l IH]; [done|].
  rewrite filter_cons, decide_True by done. by rewrite IH.
Qed.

Lemma filter_bind {A B : Type} (P : B -> Prop) `{forall x, Decision (P x)}
    (f : A -> list B) (l : list A) :
  filter P (l ≫= f) = l ≫= fun a => filter P (f a).
Proof.
  induction l as [|a l IH]; [done|]. by rewrite !bind_cons, filter_app, IH.
Qed.

(** The traversal of an organ for a kind [ot]: the organs of the traversal
    for all kinds that pass the filter, appended to the accumulator. *)
Lemma Organ_getOrgans_filter (o : Organ.t) :
  forall ot v,
    Organ.getOrgans ot o v
    = v ++ filter (fun o' => ot = -1 \/ ot = Organ.organType o')
            (Organ.getOrgans (-1) o []).
Proof.
  pattern o. apply Organ_tree_ind. clear o. intros o IH.
  assert (forall ot cs acc,
             Forall (fun c => forall ot v,
                       Organ.getOrgans ot c v
                       = v ++ filter (fun o' => ot = -1 \/ ot = Organ.organType o')
                               (Organ.getOrgans (-1) c [])) cs ->
             fold_left (fun acc c => Organ.getOrgans ot c acc) cs acc
             = acc ++ filter (fun o' => ot = -1 \/ ot = Organ.organType o')
                       (cs ≫= fun c => Organ.getOrgans (-1) c [])) as Hfold.
  { intros ot cs acc Hcs. revert acc.
    induction Hcs as [|c cs Hc _ IHcs]; intros acc; [by rewrite app_nil_r|].
    change (fold_left ?f (?a :: ?l) ?x) with (fold_left f l (f x a)). cbv beta.
    rewrite IHcs, Hc, bind_cons, filter_app, <- app_assoc. done. }
  intros ot v.
  destruct o as [pl cs i ty pa al ac ag len ns ids cts old mv].
  cbn [Organ.getOrgans Organ.children Organ.nodes Organ.organType] in *.
  rewrite !Hfold by done.
  rewrite (filter_all (fun o' => -1 = -1 \/ -1 = Organ.organType o')) by (by left).
  rewrite filter_app. rewrite app_assoc. f_equal.
  destruct (1 <? Z.of_nat (length ns)); cbn [andb].
  - change (-1 =? -1) with true. cbn [orb]. rewrite app_nil_l.
    rewrite filter_cons, filter_nil. cbn [Organ.organType].
    destruct (decide (ot = -1 \/ ot = ty)) as [Hot|Hot].
    + assert ((ot =? -1) || (ot =? ty) = true) as ->; [|done].
      apply orb_true_iff. lia.
    + assert ((ot =? -1) || (ot =? ty) = false) as ->; [|by rewrite app_nil_r].
      apply orb_false_iff. lia.
  - by rewrite filter_nil, app_nil_r.
Qed.

Section TraversalKinds.
Context `{StdRandom}.

Lemma getOrgans_fold (ot : Z) (bs acc : list Organ.t) :
  fold_left (fun organs o => Organ.getOrgans ot o organs) bs acc
  = acc ++ filter (fun o' => ot = -1 \/ ot = Organ.organType o')
             (bs ≫= fun b => Organ.getOrgans (-1) b []).
Proof.
  revert acc. induction bs as [|b bs IH]; intros acc; [by rewrite app_nil_r|].
  change (fold_left ?f (?a :: ?l) ?x) with (fold_left f l (f x a)). cbv beta.
  rewrite IH, Organ_getOrgans_filter, bind_cons, filter_app, <- app_assoc. done.
Qed.

Lemma getOrgans_kind_elem (ot : Z) (s : Organism.t) (o : Organ.t) :
  o ∈ Organism.traversal ot s -> o ∈ Organism.traversal (-1) s.
Proof.
  unfold Organism.traversal. rewrite !getOrgans_fold, !app_nil_l.
  rewrite (filter_all (fun o' => -1 = -1 \/ -1 = Organ.organType o')) by (by left).
  intros Ho. by apply list_elem_of_filter in Ho as [_ ?].
Qed.



End TraversalKinds.

(** ** The loops of the delta queries *)

Lemma for_each_omap {A B St : Type} (h : A -> option B) (g : St -> A -> outcome St)
    (f : St -> B -> outcome St) (l : list A) (s : St) :
  (forall a, a ∈ l -> exists b, h a = Some b /\ forall s, g s a = f s b) ->
  for_each g l s = for_each f (omap h l) s.
Proof.
  revert s. induction l as [|a l IH]; intros s Hh; [done|]. cbn.
  destruct (Hh a) as (b & -> & Hg); [set_solver|]. cbn. rewrite Hg.
  destruct (f s b); cbn; [|done..]. apply IH. intros; apply Hh; set_solver.
Qed.

(** A loop that writes its elements at a running index is a sequence of
    writes at consecutive indices. *)
Lemma for_each_counter {A : Type} (l : list A) (si : list A) (c : Z) :
  for_each (fun st a => si ← vector_set (fst st) (snd st) a; Return (si, snd st + 1))
           l (si, c)
  = (si' ← apply_writes (zip (seqZ c (Z.of_nat (length l))) l) si;
     Return (si', c + Z.of_nat (length l))).
Proof.
  revert si c. induction l as [|a l IH]; intros si c.
  - cbn. by rewrite Z.add_0_r.
  - rewrite length_cons, Nat2Z.inj_succ, seqZ_cons by lia. cbn.
    unfold apply_writes. cbn. destruct (vector_set si c a) as [si'| | |]; cbn; [|done..].
    rewrite IH, Z.pred_succ. unfold apply_writes.
    destruct (for_each _ _ si'); cbn; [|done..]. do 2 f_equal. lia.
Qed.

Lemma Z_of_to_nat_lookup {A : Type} (l : list A) (i : Z) :
  0 <= i < Z.of_nat (length l) -> exists a, l !! Z.to_nat i = Some a.
Proof. intros Hi. apply lookup_lt_is_Some. lia. Qed.

Lemma vector_at_lookup_Z {A : Type} (v : list A) (i : Z) (a : A) :
  0 <= i -> v !! Z.to_nat i = Some a -> vector_at v i = Return a.
Proof.
  intros Hi Ha. rewrite <- (Z2Nat.id i) by done. by apply vector_at_lookup.
Qed.

Lemma to_size_t_lower (z : Z) : - size_t_modulus <= z -> 0 <= to_size_t z.
Proof. unfold to_size_t, size_t_modulus. destruct (z <? 0) eqn:E; lia. Qed.

(** The range of an organ that has a node: it starts at a local index, and
    ends before the last node. *)
Lemma new_range_bounds (o : Organ.t) :
  1 <= Organ.getNumberOfNodes o ->
  0 <= fst (Organism.new_range o)
  /\ snd (Organism.new_range o) = Organ.getNumberOfNodes o - 1.
Proof.
  intros Hn. unfold Organism.new_range. cbn [fst snd]. split.
  - apply to_size_t_lower. unfold size_t_modulus. lia.
  - by apply to_size_t_nonneg; lia.
Qed.



(** The inner loop of [getNewSegments]. *)
Lemma getNewSegments_of_range (o : Organ.t) (st : list Vector2i.t * Z) :
  Organ.aligned o -> 1 <= Organ.getNumberOfNodes o ->
  Organism.getNewSegments_of st o
  = for_each (fun st a => si ← vector_set (fst st) (snd st) a; Return (si, snd st + 1))
             (Organ.segments_in o (fst (Organism.new_range o)) (snd (Organism.new_range o)))
             st.
Proof.
  intros [Hids _] Hn. destruct (new_range_bounds o Hn) as [Hfirst Hstop].
  unfold Organism.getNewSegments_of.
  change (size_t_range (Z.abs (Organ.getOldNumberOfNodes o) - 1)
            (Organ.getNumberOfNodes o - 1))
    with (seqZ (fst (Organism.new_range o))
            (snd (Organism.new_range o) - fst (Organism.new_range o))).
  unfold Organ.segments_in.
  apply for_each_omap. intros i Hi. apply elem_of_seqZ in Hi.
  unfold Organ.getNumberOfNodes in *.
  destruct (Z_of_to_nat_lookup (Organ.nodeIds o) i) as [a Ha]; [lia|].
  destruct (Z_of_to_nat_lookup (Organ.nodeIds o) (i + 1)) as [b Hb]; [lia|].
  exists (Vector2i.mk a b). rewrite Ha, Hb. split; [done|].
  intros st'. unfold Organ.getNodeId.
  rewrite (vector_at_lookup_Z _ i a), (vector_at_lookup_Z _ (i + 1) b) by (done || lia).
  reflexivity.
Qed.

(** The inner loop of [getNewSegmentOrigins]. *)
Lemma getNewSegmentOrigins_of_range (r : Organ.t) (st : list (option Organ.t) * Z) :
  Organism.getNewSegmentOrigins_of st r
  = for_each (fun st a => si ← vector_set (fst st) (snd st) a; Return (si, snd st + 1))
             ((fun _ => Some r) <$> seqZ (fst (Organism.new_range r))
                (snd (Organism.new_range r) - fst (Organism.new_range r)))
             st.
Proof.
  unfold Organism.getNewSegmentOrigins_of.
  change (size_t_range (Z.abs (Organ.getOldNumberOfNodes r) - 1)
            (Organ.getNumberOfNodes r - 1))
    with (seqZ (fst (Organism.new_range r))
            (snd (Organism.new_range r) - fst (Organism.new_range r))).
  by rewrite for_each_fmap.
Qed.




Section NewSegments.
Context `{StdRandom}.


Lemma counter_loop_result {A : Type} (l : list A) (n : Z) (a : A) :
  (si ← vector_new n a;
   st ← for_each (fun st a => si ← vector_set (fst st) (snd st) a;
                              Return (si, snd st + 1)) l (si, 0);
   Return (fst st))
  = (vector_new n a ≫= apply_writes (Organism.indexed l)).
Proof.
  destruct (vector_new n a) as [si| | |]; cbn; [|done..].
  rewrite for_each_counter. unfold Organism.indexed.
  by destruct (apply_writes _ si).
Qed.

Lemma getNewSegments_writes (ot : Z) (s : Organism.t) :
  Forall Organ.aligned (Organism.traversal ot s) ->
  Organism.getNewSegments ot s
  = (_ ← Organism.getOrgans ot s;
     vector_new (Organism.getNumberOfNewNodes s) Vector2i.zero
       ≫= apply_writes
            (Organism.indexed
               (Organism.segments_over Organism.new_range (Organism.traversal ot s)))).
Proof.
  intros Hot. pose proof (getOrgans_spec ot s) as Hn.
  unfold Organism.getNewSegments. over_traversal. rewrite <- counter_loop_result.
  destruct (vector_new _ _) as [si| | |]; cbn; [|done..].
  unfold Organism.segments_over. rewrite <- for_each_bind.
  erewrite for_each_ext; [reflexivity|]. intros st o Ho. cbn beta.
  eapply Forall_forall in Hot; [|exact Ho].
  eapply Forall_forall in Hn as [Hn _]; [|exact Ho].
  apply getNewSegments_of_range; [done|lia].
Qed.

Lemma getNewSegmentOrigins_writes (ot : Z) (s : Organism.t) :
  Organism.getNewSegmentOrigins ot s
  = (_ ← Organism.getOrgans ot s;
     vector_new (Organism.getNumberOfNewNodes s) None
       ≫= apply_writes
            (Organism.indexed
               (Organism.segment_origins_over Organism.new_range
                  (Organism.traversal ot s)))).
Proof.
  unfold Organism.getNewSegmentOrigins. over_traversal. rewrite <- counter_loop_result.
  destruct (vector_new _ _) as [si| | |]; cbn; [|done..].
  unfold Organism.segment_origins_over. rewrite <- for_each_bind.
  erewrite for_each_ext; [reflexivity|]. intros st o Ho. cbn beta.
  apply getNewSegmentOrigins_of_range.
Qed.


End NewSegments.


Lemma indexed_lookup {A : Type} (l : list A) (k : Z) (a : A) :
  (k, a) ∈ Organism.indexed l <-> 0 <= k /\ l !! Z.to_nat k = Some a.
Proof.
  unfold Organism.indexed. rewrite list_elem_of_lookup. split.
  - intros [i Hi]. apply lookup_zip_with_Some in Hi as (k' & a' & [= <- <-] & Hk & Ha).
    apply lookup_seqZ in Hk as [-> _]. rewrite Z.add_0_l, Nat2Z.id. split; [lia|done].
  - intros [Hk Ha]. exists (Z.to_nat k). apply lookup_zip_with_Some.
    exists k, a. split; [done|]. split; [|done]. apply lookup_seqZ.
    apply lookup_lt_Some in Ha. lia.
Qed.



Section NewNodes.
Context `{StdRandom}.

Lemma getNewNodes_writes (s : Organism.t) :
  Forall (fun o => Organ.aligned o /\ 0 <= Organ.getOldNumberOfNodes o)
         (Organism.traversal (-1) s) ->
  Organism.getNewNodes s
  = (_ ← Organism.getOrgans (-1) s;
     vector_new (Organism.getNumberOfNewNodes s) Vector3d.zero
       ≫= apply_writes (Organism.new_node_writes s)).
Proof.
  intros Hwf. unfold Organism.getNewNodes. over_traversal.
  destruct (vector_new _ _) as [nv| | |]; cbn; [|done..].
  unfold Organism.new_node_writes, apply_writes. rewrite <- for_each_bind.
  apply for_each_ext. intros nv' o Ho.
  eapply Forall_forall in Hwf as [Hal Hold]; [|exact Ho].
  unfold Organism.getNewNodes_of.
  by rewrite (organ_node_loop o (fun k => k - Organism.oldNumberOfNodes s)).
Qed.



End NewNodes.



Section NewSegmentRange.
Context `{StdRandom}.


End NewSegmentRange.

(** ** The simulation step *)

Section Simulate.
Context `{OrganPolicy}.

Lemma simulate_loop_in_order (dt : float) (verbose : bool)
    (h : gmap address OrganTypeParameter.t) (s : Organism.t)
    (rs done : list Organ.t) (p : Plant.t) (st : list Organ.t * Plant.t) :
  for_each (Organism.simulate_organ dt verbose h s) rs (done, p) = Return st
  <-> exists rs', Organism.simulated_in_order dt verbose h s p rs rs' (snd st)
                  /\ fst st = done ++ rs'.
Proof.
  revert done p. induction rs as [|r rs IH]; intros done p.
  - cbn. split.
    + intros [= <-]. exists []. split; [constructor|by rewrite app_nil_r].
    + intros (rs' & Hrel & Hst). inversion Hrel; subst. destruct st as [d q].
      cbn in *. subst. by rewrite app_nil_r.
  - change (for_each ?f (r :: rs) ?x) with (f x r ≫= for_each f rs).
    remember (for_each (Organism.simulate_organ dt verbose h s) rs) as loop eqn:Hloop.
    unfold Organism.simulate_organ. cbn [fst snd].
    destruct (Organ_simulate dt verbose (Organism.simtime s) (Organism.prototype h s) r p)
      as [[r' p']| | |] eqn:Hr; cbn [mbind outcome_bind mret outcome_ret fst snd];
      subst loop.
    + rewrite IH. split.
      * intros (rs' & Hrel & Hst). exists (r' :: rs'). split; [by econstructor|].
        by rewrite Hst, <- app_assoc.
      * intros (rs' & Hrel & Hst). inversion Hrel as [|? ? ? ? r1 ? rs1 Hr1 Hrel1]; subst.
        rewrite Hr in Hr1. injection Hr1 as <- <-.
        exists rs1. split; [done|]. by rewrite Hst, <- app_assoc.
    + split; [done|]. intros (rs' & Hrel & _). inversion Hrel; congruence.
    + split; [done|]. intros (rs' & Hrel & _). inversion Hrel; congruence.
    + split; [done|]. intros (rs' & Hrel & _). inversion Hrel; congruence.
Qed.

(** C4. [simulate(dt, verbose)] records the node count and the organ count
    it starts from in the snapshot counters, simulates the base organs one
    after the other in their stored order, and leaves the simulated time at
    its value before the call plus [dt]: it returns exactly when every base
    organ does, and then with this state. *)
Theorem simulate_snapshot_order_time (dt : float) (verbose : bool)
    (h : gmap address OrganTypeParameter.t) (s s' : Organism.t) :
  Organism.simulate dt verbose h s = Return s'
  <-> exists rs' p',
        Organism.simulated_in_order dt verbose h s (Organism.plant s)
          (Organism.baseOrgans s) rs' p'
        /\ s' = {| Organism.this := Organism.this s;
                   Organism.organParam := Organism.organParam s;
                   Organism.baseOrgans := rs';
                   Organism.simtime := (Organism.simtime s + dt)%float;
                   Organism.organId := Plant.organId p';
                   Organism.nodeId := Plant.nodeId p';
                   Organism.oldNumberOfNodes := Organism.getNumberOfNodes s;
                   Organism.oldNumberOfOrgans := Organism.getNumberOfOrgans s;
                   Organism.gen := Plant.gen p';
                   Organism.UD := Plant.UD p';
                   Organism.ND := Plant.ND p' |}.
Proof.
  unfold Organism.simulate.
  destruct (for_each _ _ _) as [st| | |] eqn:Hloop; cbn.
  - apply simulate_loop_in_order in Hloop as (rs' & Hrel & Hst). cbn in Hst. split.
    + intros [= <-]. exists rs', (snd st). split; [done|]. by rewrite Hst.
    + intros (rs1 & p1 & Hrel1 & ->).
      assert (for_each (Organism.simulate_organ dt verbose h s) (Organism.baseOrgans s)
                ([], Organism.plant s) = Return (rs1, p1)) as Hloop1.
      { apply simulate_loop_in_order. by exists rs1. }
      assert (for_each (Organism.simulate_organ dt verbose h s) (Organism.baseOrgans s)
                ([], Organism.plant s) = Return st) as Hloop0.
      { apply simulate_loop_in_order. by exists rs'. }
      rewrite Hloop0 in Hloop1. injection Hloop1 as ->. done.
  - split; [done|]. intros (rs1 & p1 & Hrel1 & _).
    assert (for_each (Organism.simulate_organ dt verbose h s) (Organism.baseOrgans s)
              ([], Organism.plant s) = Return (rs1, p1)) as Hloop1.
    { apply simulate_loop_in_order. by exists rs1. }
    congruence.
  - split; [done|]. intros (rs1 & p1 & Hrel1 & _).
    assert (for_each (Organism.simulate_organ dt verbose h s) (Organism.baseOrgans s)
              ([], Organism.plant s) = Return (rs1, p1)) as Hloop1.
    { apply simulate_loop_in_order. by exists rs1. }
    congruence.
  - split; [done|]. intros (rs1 & p1 & Hrel1 & _).
    assert (for_each (Organism.simulate_organ dt verbose h s) (Organism.baseOrgans s)
              ([], Organism.plant s) = Return (rs1, p1)) as Hloop1.
    { apply simulate_loop_in_order. by exists rs1. }
    congruence.
Qed.


End Simulate.

(** ** The new nodes and segments of a step *)


Section NewArrays.
Context `{OrganPolicy}.






End NewArrays.

(** ** The moved nodes *)

(** The loop of the two queries on moved nodes: one entry for each organ
    whose last step moved a node, in the order of the traversal. *)
Lemma updated_loop {A : Type} (get : Organ.t -> Z -> outcome A)
    (pick : Organ.t -> option A) (organs : list Organ.t) (acc : list A) :
  Forall (fun o => 0 < Organ.hasMoved o ->
                   exists a, pick o = Some a
                             /\ get o (Organ.getOldNumberOfNodes o - 1) = Return a)
         organs ->
  for_each (fun ni o =>
              if 0 <? Organ.hasMoved o then
                k ← get o (Organ.getOldNumberOfNodes o - 1);
                Return (ni ++ [k])
              else Return ni) organs acc
  = Return (acc ++ omap pick (filter (fun o => 0 < Organ.hasMoved o) organs)).
Proof.
  intros Hok. revert acc. induction Hok as [|o os Ho _ IH]; intros acc.
  - cbn. by rewrite app_nil_r.
  - rewrite filter_cons. change (for_each ?f (o :: os) ?x) with (f x o ≫= for_each f os).
    cbn beta. destruct (0 <? Organ.hasMoved o) eqn:E.
    + rewrite decide_True by lia. destruct Ho as (a & Hpick & ->); [lia|].
      cbn. rewrite IH, Hpick, <- app_assoc. done.
    + rewrite decide_False by lia. cbn. apply IH.
Qed.

Lemma omap_total_length {A B : Type} (f : A -> option B) (l : list A) :
  Forall (fun a => is_Some (f a)) l -> length (omap f l) = length l.
Proof.
  induction 1 as [|a l [b Hb] _ IH]; [done|]. cbn. rewrite Hb. cbn. by rewrite IH.
Qed.

Lemma last_lookup_Z {A : Type} (l : list A) :
  last l = l !! Z.to_nat (Z.of_nat (length l) - 1).
Proof. rewrite last_lookup. f_equal. lia. Qed.

Section Moved.
Context `{StdRandom}.

Lemma updated_entry_position {A : Type} (pick : Organ.t -> option A)
    (s : Organism.t) (o : Organ.t) (j : nat) (a : A) :
  Forall (fun o' => 0 < Organ.hasMoved o' -> is_Some (pick o'))
         (Organism.traversal (-1) s) ->
  Organism.traversal (-1) s !! j = Some o ->
  0 < Organ.hasMoved o -> pick o = Some a ->
  let r := omap pick (filter (fun o => 0 < Organ.hasMoved o) (Organism.traversal (-1) s)) in
  length r = Organism.moved_before s (length (Organism.traversal (-1) s))
  /\ r !! Organism.moved_before s j = Some a.
Proof.
  intros Hok Hj Hmoved Hpick r. unfold Organism.moved_before.
  assert (forall l, Forall (fun o' => 0 < Organ.hasMoved o' -> is_Some (pick o')) l ->
            length (omap pick (filter (fun o => 0 < Organ.hasMoved o) l))
            = length (filter (fun o => 0 < Organ.hasMoved o) l)) as Hlen.
  { intros l Hl. apply omap_total_length.
    apply Forall_forall. intros o' Ho'. apply list_elem_of_filter in Ho' as [Hm Ho'].
    eapply Forall_forall in Hl; [|exact Ho']. by apply Hl. }
  split.
  - rewrite firstn_all. by apply Hlen.
  - subst r.
    replace (omap pick (filter (fun o => 0 < Organ.hasMoved o) (Organism.traversal (-1) s)))
      with (omap pick (filter (fun o => 0 < Organ.hasMoved o)
                         (take j (Organism.traversal (-1) s)))
            ++ a :: omap pick (filter (fun o => 0 < Organ.hasMoved o)
                                 (drop (S j) (Organism.traversal (-1) s)))).
    2:{ rewrite <- (take_drop_middle _ _ _ Hj) at 3.
        rewrite filter_app, omap_app, filter_cons, decide_True by done. cbn.
        by rewrite Hpick. }
    rewrite <- Hlen.
    + rewrite lookup_app_r by done. by rewrite Nat.sub_diag.
    + rewrite <- (take_drop j (Organism.traversal (-1) s)) in Hok.
      by apply Forall_app in Hok as [? _].
Qed.

(** C2 (as amended). An organ of the traversal (an organ with more than one
    node) whose last step only repositioned its tip is reported once by
    [getUpdatedNodeIndices()] and by [getUpdatedNodes()]: both results hold
    one entry for each moved organ of the traversal, in its order, and the
    entry of this organ is its last node id, and its last node; the organ
    writes nothing into the result of [getNewNodes()].  The organ counter
    is not negative, as [getOrgans()] needs it, and the moved organs hold
    index-aligned node sequences and an old node count within their
    nodes. *)
Theorem moved_organ_reported_once (s : Organism.t) (o : Organ.t) (j : nat) :
  let organs := Organism.traversal (-1) s in
  0 <= Organism.getNumberOfOrgans s ->
  organs !! j = Some o ->
  Organ.only_moved o ->
  Forall (fun o' => 0 < Organ.hasMoved o' ->
                    1 <= Organ.getOldNumberOfNodes o' <= Organ.getNumberOfNodes o'
                    /\ Organ.aligned o') organs ->
  exists ni nv k p,
    Organism.getUpdatedNodeIndices s = Return ni
    /\ Organism.getUpdatedNodes s = Return nv
    /\ length ni = Organism.moved_before s (length organs)
    /\ length nv = Organism.moved_before s (length organs)
    /\ last (Organ.nodeIds o) = Some k
    /\ last (Organ.nodes o) = Some p
    /\ ni !! Organism.moved_before s j = Some k
    /\ nv !! Organism.moved_before s j = Some p
    /\ forall v, Organism.getNewNodes_of s v o = Return v.
Proof.
  intros organs HO Hj [Hmoved Hsame] Hok.
  assert (Organ.aligned o) as [Hids Hcts].
  { eapply Forall_forall in Hok; [|by eapply list_elem_of_lookup_2]. by apply Hok. }
  set (pick_id (o : Organ.t) := Organ.nodeIds o !! Z.to_nat (Organ.getOldNumberOfNodes o - 1)).
  set (pick_node (o : Organ.t) := Organ.nodes o !! Z.to_nat (Organ.getOldNumberOfNodes o - 1)).
  assert (Forall (fun o' => 0 < Organ.hasMoved o' ->
                   exists a, pick_id o' = Some a
                     /\ Organ.getNodeId o' (Organ.getOldNumberOfNodes o' - 1) = Return a)
            organs) as Hokid.
  { eapply Forall_impl; [exact Hok|]. intros o' Ho' Hm.
    destruct (Ho' Hm) as [Hrange [Hids' _]]. unfold Organ.getNumberOfNodes in Hrange.
    destruct (Z_of_to_nat_lookup (Organ.nodeIds o') (Organ.getOldNumberOfNodes o' - 1))
      as [a Ha]; [lia|].
    exists a. split; [done|]. apply vector_at_lookup_Z; [lia|done]. }
  assert (Forall (fun o' => 0 < Organ.hasMoved o' ->
                   exists a, pick_node o' = Some a
                     /\ Organ.getNode o' (Organ.getOldNumberOfNodes o' - 1) = Return a)
            organs) as Hoknode.
  { eapply Forall_impl; [exact Hok|]. intros o' Ho' Hm.
    destruct (Ho' Hm) as [Hrange _]. unfold Organ.getNumberOfNodes in Hrange.
    destruct (Z_of_to_nat_lookup (Organ.nodes o') (Organ.getOldNumberOfNodes o' - 1))
      as [a Ha]; [lia|].
    exists a. split; [done|]. apply vector_at_lookup_Z; [lia|done]. }
  pose proof (getOrgans_spec (-1) s) as Hn.
  eapply Forall_forall in Hn as [Hn _]; [|by eapply list_elem_of_lookup_2].
  unfold Organ.getNumberOfNodes in Hn, Hsame.
  destruct (Z_of_to_nat_lookup (Organ.nodeIds o) (Organ.getOldNumberOfNodes o - 1))
    as [k Hk]; [lia|].
  destruct (Z_of_to_nat_lookup (Organ.nodes o) (Organ.getOldNumberOfNodes o - 1))
    as [p Hp]; [lia|].
  destruct (updated_entry_position pick_id s o j k) as [Hlenid Hposid]; [|done..|].
  { eapply Forall_impl; [exact Hokid|]. intros o' Ho' Hm.
    destruct (Ho' Hm) as (a & -> & _). eauto. }
  destruct (updated_entry_position pick_node s o j p) as [Hlennode Hposnode]; [|done..|].
  { eapply Forall_impl; [exact Hoknode|]. intros o' Ho' Hm.
    destruct (Ho' Hm) as (a & -> & _). eauto. }
  eexists _, _, k, p.
  split.
  { unfold Organism.getUpdatedNodeIndices. rewrite getOrgans_traversal by done.
    cbn [mbind outcome_bind]. by rewrite (updated_loop _ pick_id). }
  split.
  { unfold Organism.getUpdatedNodes. rewrite getOrgans_traversal by done.
    cbn [mbind outcome_bind]. by rewrite (updated_loop _ pick_node). }
  split; [exact Hlenid|]. split; [exact Hlennode|].
  split; [rewrite last_lookup_Z, Hids, <- Hsame; exact Hk|].
  split; [rewrite last_lookup_Z, <- Hsame; exact Hp|].
  split; [exact Hposid|]. split; [exact Hposnode|].
  intros v. unfold Organism.getNewNodes_of. unfold Organ.getNumberOfNodes.
  rewrite size_t_range_nonneg by lia. rewrite Hsame, Z.sub_diag. reflexivity.
Qed.

End Moved.

(** ** Aggregates *)

Lemma vector_get_lookup {A : Type} (v : list A) (k : nat) (a : A) :
  v !! k = Some a -> vector_get v (Z.of_nat k) = Return a.
Proof.
  intros Ha. unfold vector_get. rewrite (proj2 (Z.leb_le 0 (Z.of_nat k))) by lia.
  by rewrite Nat2Z.id, Ha.
Qed.

Lemma vector_put_in_bounds {A : Type} (v : list A) (k : nat) (a : A) :
  (k < length v)%nat -> vector_put v (Z.of_nat k) a = Return (<[k := a]> v).
Proof.
  intros Hk. unfold vector_put. rewrite (proj2 (Z.leb_le 0 (Z.of_nat k))) by lia.
  rewrite (proj2 (Z.ltb_lt _ _)) by lia. cbn. by rewrite Nat2Z.id.
Qed.

(** The loop of [getParameter]: the slots are filled from the left. *)
Lemma getParameter_loop {A B : Type} (f : A -> B) (l : list A) (z : B) (m k : nat) :
  (k + m)%nat = length l ->
  for_each (fun p i => o ← vector_get l i; vector_put p i (f o))
           (seqZ (Z.of_nat k) (Z.of_nat m))
           ((f <$> take k l) ++ replicate m z)
  = Return (f <$> l).
Proof.
  revert k. induction m as [|m IH]; intros k Hk.
  - cbn. rewrite take_ge by lia. by rewrite app_nil_r.
  - rewrite Nat2Z.inj_succ, seqZ_cons by lia. rewrite Z.pred_succ.
    replace (Z.succ (Z.of_nat k)) with (Z.of_nat (S k)) by lia.
    rewrite <- (IH (S k)) by lia.
    change (for_each ?g (?a :: ?r) ?x) with (g x a ≫= for_each g r). cbn beta.
    destruct (lookup_lt_is_Some_2 l k) as [o Ho]; [lia|].
    rewrite (vector_get_lookup _ _ _ Ho). cbn [mbind outcome_bind].
    rewrite vector_put_in_bounds
      by (rewrite length_app, length_fmap, length_take, length_replicate; lia).
    cbn [mbind outcome_bind]. f_equal.
    rewrite (take_S_r _ _ _ Ho), fmap_app. cbn [replicate].
    rewrite insert_app_r_alt by (rewrite length_fmap, length_take; lia).
    rewrite length_fmap, length_take.
    replace (k - k `min` length l)%nat with 0%nat by lia. cbn.
    by rewrite <- app_assoc.
Qed.

Section Summed.
Context `{OrganPolicy}.

(** [getParameter(name, ot)] with the default organ list: the parameter of
    each organ of [getOrgans(ot)], in the order of the traversal. *)
Lemma getParameter_of_traversal (name : string) (ot : Z) (s : Organism.t) :
  Organism.getParameter name ot [] s
  = (Organism.getOrgans ot s ≫= fun organs : list Organ.t =>
       Return ((fun o => Organ_getParameter o name) <$> organs)).
Proof.
  unfold Organism.getParameter. over_traversal.
  rewrite size_t_range_nonneg by lia. rewrite Z.sub_0_r.
  apply (getParameter_loop (fun o => Organ_getParameter o name)
           (Organism.traversal ot s) 0%float (length (Organism.traversal ot s)) 0).
  done.
Qed.

(** C8. The sum over the vector that [getParameter(name, ot)] returns,
    accumulated from [0.0] in the order of the vector, is the value that
    [getSummed(name, ot)] returns, bit for bit; both are reductions over the
    organs of [getOrgans(ot)] in the order of the traversal, and the two
    calls end the same way: they return where the organ counter is not
    negative, and throw [length_error], as [getOrgans(ot)] does, where it
    is.  This holds for every organism, every kind filter and every
    parameter name, "length" among them. *)
Theorem getSummed_is_sum_of_getParameter (name : string) (ot : Z) (s : Organism.t) :
  outcome_rel (fun v total => total = fold_left PrimFloat.add v 0%float)
    (Organism.getParameter name ot [] s) (Organism.getSummed name ot s)
  /\ Organism.getParameter name ot [] s
     = (Organism.getOrgans ot s ≫= fun organs : list Organ.t =>
          Return ((fun o => Organ_getParameter o name) <$> organs))
  /\ Organism.getSummed name ot s
     = (Organism.getOrgans ot s ≫= fun organs : list Organ.t =>
        Return (fold_left PrimFloat.add
                  ((fun o => Organ_getParameter o name) <$> organs) 0%float))
  /\ (0 <= Organism.getNumberOfOrgans s ->
        exists v,
          Organism.getParameter name ot [] s = Return v
          /\ v = (fun o => Organ_getParameter o name) <$> Organism.traversal ot s
          /\ Organism.getSummed name ot s = Return (fold_left PrimFloat.add v 0%float))
  /\ (Organism.getNumberOfOrgans s < 0 ->
        Organism.getParameter name ot [] s = Throw length_error
        /\ Organism.getSummed name ot s = Throw length_error).
Proof.
  pose proof (getParameter_of_traversal name ot s) as Hv.
  assert (Organism.getSummed name ot s
          = (Organism.getOrgans ot s ≫= fun organs : list Organ.t =>
             Return (fold_left PrimFloat.add
                       ((fun o => Organ_getParameter o name) <$> organs) 0%float)))
    as Hsum.
  { unfold Organism.getSummed. rewrite Hv. by destruct (Organism.getOrgans ot s). }
  split; [|split; [exact Hv|split; [exact Hsum|split]]].
  - rewrite Hv, Hsum. by destruct (Organism.getOrgans ot s).
  - intros HO. rewrite Hv, Hsum, getOrgans_traversal by done. eauto.
  - intros HO. rewrite Hv, Hsum, getOrgans_negative by done. done.
Qed.

End Summed.

(** ** Clones *)

Lemma Organ_copy_unfold (a : address) (o : Organ.t) :
  Organ.copy a o
  = Organ.mk a (Organ.copy a <$> Organ.children o) (Organ.id o) (Organ.organType o)
      (Organ.param_ o) (Organ.alive o) (Organ.active o) (Organ.age o) (Organ.length o)
      (Organ.nodes o) (Organ.nodeIds o) (Organ.nodeCTs o)
      (Organ.oldNumberOfNodes o) (Organ.moved o).
Proof. by destruct o. Qed.

(** The traversal of a clone is the clone of the traversal. *)
Lemma Organ_getOrgans_copy (a : address) (ot : Z) (o : Organ.t) :
  forall v, Organ.getOrgans ot (Organ.copy a o) (Organ.copy a <$> v)
            = Organ.copy a <$> Organ.getOrgans ot o v.
Proof.
  pattern o. apply Organ_tree_ind. clear o. intros o IH v.
  rewrite (Organ_copy_unfold a o) at 1.
  destruct o as [pl cs i ty pa al ac ag len ns ids cts old mv]. cbn in *.
  match goal with |- fold_left _ _ ?x = _ <$> fold_left _ _ ?y =>
    assert (x = Organ.copy a <$> y) as ->
  end.
  { destruct (_ && _); [|done]. by rewrite fmap_app. }
  match goal with |- context [fold_left _ _ (_ <$> ?y)] => generalize y end.
  induction IH as [|c cs Hc _ IHcs]; intros acc; cbn; [done|].
  rewrite Hc. apply IHcs.
Qed.

(** ** Ownership of organs *)

Lemma Organ_owned_by_unfold (a : address) (o : Organ.t) :
  Organ.owned_by a o
  = Pos.eqb (Organ.plant o) a && forallb (Organ.owned_by a) (Organ.children o).
Proof. by destruct o. Qed.

(** A clone made for an organism is bound to it, the organs below it
    too. *)
Lemma Organ_owned_by_copy (a : address) (o : Organ.t) :
  Organ.owned_by a (Organ.copy a o) = true.
Proof.
  pattern o. apply Organ_tree_ind. clear o. intros o IH.
  rewrite Organ_owned_by_unfold, (Organ_copy_unfold a o). cbn.
  rewrite Pos.eqb_refl. cbn. apply forallb_forall. intros c Hc.
  apply in_map_iff in Hc as (c0 & <- & Hc0).
  eapply Forall_forall in IH; [exact IH|]. by apply list_elem_of_In.
Qed.

(** An organ tree that is bound to an organism is its own clone for that
    organism. *)
Lemma Organ_owned_by_fixed (a : address) (o : Organ.t) :
  Organ.owned_by a o = true -> Organ.copy a o = o.
Proof.
  pattern o. apply Organ_tree_ind. clear o. intros o IH.
  rewrite Organ_owned_by_unfold, (Organ_copy_unfold a o).
  intros [Hplant Hcs]%andb_true_iff. apply Pos.eqb_eq in Hplant.
  destruct o as [pl cs i ty pa al ac ag len ns ids cts old mv]. cbn in *. subst pl.
  f_equal. rewrite <- (list_fmap_id cs) at 2. apply list_fmap_ext.
  intros j c Hc. cbn. apply list_elem_of_lookup_2 in Hc.
  eapply Forall_forall in IH; [apply IH|exact Hc].
  eapply forallb_forall in Hcs; [exact Hcs|]. by apply list_elem_of_In.
Qed.

Section Clones.
Context `{OrganPolicy}.

Lemma getOrgans_same (ot : Z) (s c : Organism.t) :
  Organ.copy 1%positive <$> Organism.baseOrgans s
  = Organ.copy 1%positive <$> Organism.baseOrgans c ->
  Organ.copy 1%positive <$> Organism.traversal ot s
  = Organ.copy 1%positive <$> Organism.traversal ot c.
Proof.
  intros Hbase. unfold Organism.traversal.
  assert (forall bs acc,
            Organ.copy 1%positive
              <$> fold_left (fun organs o => Organ.getOrgans ot o organs) bs acc
            = fold_left (fun organs o => Organ.getOrgans ot o organs)
                (Organ.copy 1%positive <$> bs) (Organ.copy 1%positive <$> acc)) as Hfold.
  { induction bs as [|b bs IH]; intros acc; cbn; [done|].
    by rewrite IH, Organ_getOrgans_copy. }
  by rewrite !Hfold, Hbase.
Qed.

(** A loop whose body sees of an organ only what a clone has too runs the
    same on two lists of organs that are the same up to the plant. *)
Lemma for_each_same {St : Type} (body : St -> Organ.t -> outcome St)
    (l l' : list Organ.t) (st : St) :
  (forall st o, body st (Organ.copy 1%positive o) = body st o) ->
  Organ.copy 1%positive <$> l = Organ.copy 1%positive <$> l' ->
  for_each body l st = for_each body l' st.
Proof.
  intros Hbody Hl.
  transitivity (for_each body (Organ.copy 1%positive <$> l) st).
  - rewrite for_each_fmap. by apply for_each_ext.
  - rewrite Hl, for_each_fmap. by apply for_each_ext.
Qed.

Lemma fold_left_same {St : Type} (body : St -> Organ.t -> St)
    (l l' : list Organ.t) (st : St) :
  (forall st o, body st (Organ.copy 1%positive o) = body st o) ->
  Organ.copy 1%positive <$> l = Organ.copy 1%positive <$> l' ->
  fold_left body l st = fold_left body l' st.
Proof.
  intros Hbody Hl.
  assert (forall l st, fold_left body l st
                       = fold_left body (Organ.copy 1%positive <$> l) st) as Hfold.
  { clear l l' st Hl. induction l as [|o l IH]; intros st; cbn; [done|].
    by rewrite Hbody, IH. }
  by rewrite (Hfold l), (Hfold l'), Hl.
Qed.

(** The node and segment arrays of two organisms that are the same up to
    their owner are equal. *)
Lemma same_up_to_owner_arrays (h : gmap address OrganTypeParameter.t)
    (s c : Organism.t) :
  Organism.same_up_to_owner h s c ->
  Organism.getNodes s = Organism.getNodes c
  /\ forall ot, Organism.getSegments ot s = Organism.getSegments ot c.
Proof.
  intros (_ & Hplant & Hbase & _).
  assert (Organism.nodeId s = Organism.nodeId c) as Hnode by (by injection Hplant).
  assert (Organism.organId s = Organism.organId c) as Horgan by (by injection Hplant).
  split.
  - unfold Organism.getNodes, Organism.getOrgans, Organism.getNumberOfNodes,
      Organism.getNumberOfOrgans.
    rewrite Hnode, Horgan.
    destruct (vector_reserve _) as [[]| | |]; cbn [mbind outcome_bind]; [|done..].
    destruct (vector_new _ _) as [nv| | |]; cbn [mbind outcome_bind]; [|done..].
    rewrite (for_each_same _ (Organism.baseOrgans s) (Organism.baseOrgans c)); [|
      intros; by rewrite Organ_copy_unfold|done].
    destruct (for_each _ (Organism.baseOrgans c) nv) as [nv'| | |];
      cbn [mbind outcome_bind]; [|done..].
    apply for_each_same; [intros; by rewrite Organ_copy_unfold|].
    by apply getOrgans_same.
  - intros ot. unfold Organism.getSegments, Organism.getOrgans,
      Organism.getNumberOfOrgans.
    rewrite Horgan.
    destruct (vector_reserve _) as [[]| | |]; cbn [mbind outcome_bind]; [|done..].
    f_equal. apply fold_left_same; [intros; by rewrite Organ_copy_unfold|].
    by apply getOrgans_same.
Qed.

Lemma outcome_rel_bind {A A' B B' : Type} (R : A -> A' -> Prop) (Q : B -> B' -> Prop)
    (x : outcome A) (x' : outcome A') (f : A -> outcome B) (f' : A' -> outcome B') :
  outcome_rel R x x' ->
  (forall a a', R a a' -> outcome_rel Q (f a) (f' a')) ->
  outcome_rel Q (x ≫= f) (x' ≫= f').
Proof. destruct x, x'; cbn; try done. intros Hr Hf. by apply Hf. Qed.

(** What an organism with a consistent registry offers to its organs are
    prototypes bound to it. *)
Lemma prototype_owned (h : gmap address OrganTypeParameter.t) (s : Organism.t)
    (ot subtype : Z) (q : OrganTypeParameter.t) :
  Organism.registry_consistent h s ->
  Organism.prototype h s ot subtype = Return q ->
  OrganTypeParameter.plant q = Organism.this s.
Proof.
  intros Hcons. unfold Organism.prototype, Organism.getOrganTypeParameter.
  destruct (Organism.kind_index ot) as [i|] eqn:Hi; [|done].
  destruct ((Organism.organParam s !!! i) !! subtype) as [p|] eqn:Hp; [|done].
  cbn. destruct (Hcons ot subtype p) as (proto & Hproto & Hplant & _).
  { unfold Organism.registered. by rewrite Hi. }
  rewrite Hproto. by intros [= <-].
Qed.

Lemma prototypes_owned (h : gmap address OrganTypeParameter.t) (s c : Organism.t) :
  Organism.same_up_to_owner h s c ->
  Organism.registry_consistent h s -> Organism.registry_consistent h c ->
  forall ot subtype,
    outcome_rel (fun q q' => OrganTypeParameter.plant q = Organism.this s
                             /\ OrganTypeParameter.plant q' = Organism.this c
                             /\ OrganTypeParameter.same_up_to_plant q q')
      (Organism.prototype h s ot subtype) (Organism.prototype h c ot subtype).
Proof.
  intros (_ & _ & _ & Hproto) Hs Hc ot subtype. specialize (Hproto ot subtype).
  pose proof (prototype_owned h s ot subtype) as Hqs.
  pose proof (prototype_owned h c ot subtype) as Hqc.
  destruct (Organism.prototype h s ot subtype) as [q| | |],
    (Organism.prototype h c ot subtype) as [q'| | |]; cbn in *; try done.
  split; [by apply Hqs|]. split; [by apply Hqc|done].
Qed.

Lemma simulate_loop_same (dt : float) (verbose : bool)
    (h : gmap address OrganTypeParameter.t) (s c : Organism.t) :
  owner_independent ->
  Organism.same_up_to_owner h s c ->
  Organism.registry_consistent h s -> Organism.registry_consistent h c ->
  forall rs rs' done done' p,
    Organ.copy 1%positive <$> rs = Organ.copy 1%positive <$> rs' ->
    Organ.copy 1%positive <$> done = Organ.copy 1%positive <$> done' ->
    Forall (fun o => Organ.owned_by (Organism.this s) o = true) rs ->
    Forall (fun o => Organ.owned_by (Organism.this c) o = true) rs' ->
    Forall (fun o => Organ.owned_by (Organism.this s) o = true) done ->
    Forall (fun o => Organ.owned_by (Organism.this c) o = true) done' ->
    outcome_rel (fun st st' => Organ.copy 1%positive <$> fst st
                               = Organ.copy 1%positive <$> fst st'
                               /\ snd st = snd st'
                               /\ Forall (fun o => Organ.owned_by (Organism.this s) o = true)
                                         (fst st)
                               /\ Forall (fun o => Organ.owned_by (Organism.this c) o = true)
                                         (fst st'))
      (for_each (Organism.simulate_organ dt verbose h s) rs (done, p))
      (for_each (Organism.simulate_organ dt verbose h c) rs' (done', p)).
Proof.
  intros Hind Hsame Hs Hc. pose proof Hsame as (Htime & _).
  pose proof (prototypes_owned h s c Hsame Hs Hc) as Hproto.
  induction rs as [|r rs IH]; intros [|r' rs'] done done' p Hrs Hdone Ho Ho' Hd Hd';
    try discriminate Hrs.
  - done.
  - injection Hrs as Hr Hrs.
    apply Forall_cons in Ho as [Hor Ho]. apply Forall_cons in Ho' as [Hor' Ho'].
    change (for_each ?f (?a :: ?l) ?x) with (f x a ≫= for_each f l).
    eapply outcome_rel_bind.
    + unfold Organism.simulate_organ. cbn [fst snd].
      eapply outcome_rel_bind.
      * rewrite <- Htime.
        apply (Hind dt verbose (Organism.simtime s) (Organism.this s) (Organism.this c)
                 _ _ r r' p); [exact Hproto|exact Hor|exact Hor'|exact Hr].
      * intros [r1 p1] [r1' p1'] (Hown & Hown' & Hr1 & Hp1). cbn in *. subst p1'.
        instantiate (1 := fun st st' =>
          Organ.copy 1%positive <$> fst st = Organ.copy 1%positive <$> fst st'
          /\ snd st = snd st'
          /\ Forall (fun o => Organ.owned_by (Organism.this s) o = true) (fst st)
          /\ Forall (fun o => Organ.owned_by (Organism.this c) o = true) (fst st')).
        cbn. split; [rewrite !fmap_app; cbn; by rewrite Hdone, Hr1|].
        split; [done|]. split; apply Forall_app; split; (done || by constructor).
    + intros [d q] [d' q'] (Hdd & Hq & Hdo & Hdo'). cbn in Hdd, Hq, Hdo, Hdo'.
      subst q'. by apply IH.
Qed.

(** A step keeps two organisms that own what they hold the same up to
    their owner, and owning what they hold. *)
Lemma simulate_same (dt : float) (verbose : bool)
    (h : gmap address OrganTypeParameter.t) (s c : Organism.t) :
  owner_independent ->
  Organism.same_up_to_owner h s c ->
  Organism.well_owned h s -> Organism.well_owned h c ->
  outcome_rel (fun s' c' => Organism.same_up_to_owner h s' c'
                            /\ Organism.well_owned h s' /\ Organism.well_owned h c')
    (Organism.simulate dt verbose h s) (Organism.simulate dt verbose h c).
Proof.
  intros Hind Hsame [Hs Hos] [Hc Hoc].
  pose proof Hsame as (Htime & Hplant & Hbase & Hproto).
  unfold Organism.simulate.
  eapply outcome_rel_bind.
  - rewrite <- Hplant. by apply simulate_loop_same.
  - intros [d q] [d' q'] (Hd & Hq & Hdo & Hdo'). cbn in Hd, Hq, Hdo, Hdo'. subst q'.
    cbn [fst snd]. split; [|split; by split].
    split; [cbn; by rewrite Htime|]. split; [done|]. split; [done|]. exact Hproto.
Qed.

Lemma simulate_all_same (dts : list float) (verbose : bool)
    (h : gmap address OrganTypeParameter.t) (s c : Organism.t) :
  owner_independent ->
  Organism.same_up_to_owner h s c ->
  Organism.well_owned h s -> Organism.well_owned h c ->
  outcome_rel (fun s' c' => Organism.same_up_to_owner h s' c'
                            /\ Organism.well_owned h s' /\ Organism.well_owned h c')
    (Organism.simulate_all dts verbose h s) (Organism.simulate_all dts verbose h c).
Proof.
  intros Hind. revert s c. unfold Organism.simulate_all.
  induction dts as [|dt dts IH]; intros s c Hsame Hs Hc; [done|].
  change (for_each ?f (?a :: ?l) ?x) with (f x a ≫= for_each f l).
  eapply outcome_rel_bind; [by apply simulate_same|].
  intros s1 c1 (Hsame1 & Hs1 & Hc1). by apply IH.
Qed.

End Clones.

Lemma Organ_copy_copy (a b : address) (o : Organ.t) :
  Organ.copy a (Organ.copy b o) = Organ.copy a o.
Proof.
  pattern o. apply Organ_tree_ind. clear o. intros o IH.
  rewrite (Organ_copy_unfold b o), (Organ_copy_unfold a o), Organ_copy_unfold. cbn.
  f_equal. rewrite <- list_fmap_compose. apply list_fmap_ext.
  intros i c Hc. cbn. eapply Forall_forall in IH; [exact IH|].
  by eapply list_elem_of_lookup_2.
Qed.

Lemma entries_of_elem (m : gmap Z address) (st : Z) (p : address) :
  (st, p) ∈ Organism.entries_of m <-> m !! st = Some p.
Proof.
  unfold Organism.entries_of. rewrite merge_sort_Permutation.
  apply elem_of_map_to_list.
Qed.

Lemma entries_of_NoDup (m : gmap Z address) : NoDup (fst <$> Organism.entries_of m).
Proof.
  unfold Organism.entries_of. rewrite merge_sort_Permutation.
  apply NoDup_fst_map_to_list.
Qed.

Lemma kinds_all (i : fin Organism.numberOfOrganTypes) : i ∈ Organism.kinds.
Proof.
  unfold Organism.kinds.
  repeat (inv_fin i; [set_solver|intros i]). inv_fin i.
Qed.

Lemma kinds_NoDup : NoDup Organism.kinds.
Proof.
  unfold Organism.kinds.
  repeat constructor; intros Hin;
    repeat (apply elem_of_cons in Hin as [Hin|Hin]; [discriminate Hin|]);
    by apply elem_of_nil in Hin.
Qed.

(** The clones of the prototypes of one kind. *)
Lemma copy_kind_loop (target : address) (i : fin Organism.numberOfOrganTypes)
    (h0 : gmap address OrganTypeParameter.t) (es : list (Z * address)) :
  NoDup (fst <$> es) ->
  (forall e, e ∈ es -> is_Some (h0 !! snd e)) ->
  forall h v,
    h0 ⊆ h ->
    (forall e, e ∈ es -> (v !!! i) !! fst e = Some (snd e)) ->
    exists h' v',
      for_each (Organism.copy_prototype target i) es (h, v) = Return (h', v')
      /\ h ⊆ h'
      /\ (forall j, j <> i -> v' !!! j = v !!! j)
      /\ (forall st, st ∉ fst <$> es -> (v' !!! i) !! st = (v !!! i) !! st)
      /\ (forall st p, (st, p) ∈ es ->
            exists a proto,
              (v' !!! i) !! st = Some a /\ h0 !! p = Some proto
              /\ h' !! a = Some (OrganTypeParameter.copy target proto)).
Proof.
  induction es as [|[st p] es IH]; intros Hnd Halloc h v Hsub Htodo.
  - exists h, v. split; [done|]. split; [done|]. split; [done|]. split; [done|].
    intros st p Hin. by apply elem_of_nil in Hin.
  - cbn in Hnd. apply NoDup_cons in Hnd as [Hst Hnd].
    destruct (Halloc (st, p)) as [proto Hp]; [by left|]. cbn in Hp.
    change (for_each ?f (?a :: ?l) ?x) with (f x a ≫= for_each f l).
    remember (for_each (Organism.copy_prototype target i) es) as loop eqn:Hloopdef.
    unfold Organism.copy_prototype. cbn [fst snd].
    rewrite (lookup_weaken _ _ _ _ Hp Hsub). cbn [mbind outcome_bind]. subst loop.
    set (a := fresh (dom h)).
    assert (h !! a = None) as Ha by (apply not_elem_of_dom, is_fresh).
    destruct (IH Hnd) with (h := <[a := OrganTypeParameter.copy target proto]> h)
                           (v := vinsert i (<[st := a]> (v !!! i)) v)
      as (h' & v' & Hloop & Hsub' & Hother & Hkeep & Hdone).
    + intros e He. apply Halloc. by right.
    + etrans; [exact Hsub|]. by apply insert_subseteq.
    + intros e He. rewrite vlookup_insert. rewrite lookup_insert_ne.
      * apply Htodo. by right.
      * intros ->. apply Hst. apply list_elem_of_fmap. by exists e.
    + exists h', v'. split; [exact Hloop|]. split.
      { etrans; [|exact Hsub']. by apply insert_subseteq. }
      split.
      { intros j Hj. rewrite Hother by done. by rewrite vlookup_insert_ne. }
      split.
      { intros st' Hst'. cbn in Hst'. apply not_elem_of_cons in Hst' as [Hne Hst'].
        rewrite Hkeep by done. rewrite vlookup_insert. by rewrite lookup_insert_ne. }
      intros st' p' Hin. apply elem_of_cons in Hin as [[= -> ->]|Hin].
      * exists a, proto. split; [|split; [done|]].
        -- rewrite Hkeep by done. rewrite vlookup_insert. apply lookup_insert_eq.
        -- eapply lookup_weaken; [|exact Hsub']. apply lookup_insert_eq.
      * by apply Hdone.
Qed.

(** The clones of all prototypes. *)
Lemma copy_kinds_loop (target : address) (h0 : gmap address OrganTypeParameter.t)
    (v0 : vec (gmap Z address) Organism.numberOfOrganTypes)
    (ks : list (fin Organism.numberOfOrganTypes)) :
  NoDup ks ->
  (forall i st p, (v0 !!! i) !! st = Some p -> is_Some (h0 !! p)) ->
  forall h v,
    h0 ⊆ h ->
    (forall i, i ∈ ks -> v !!! i = v0 !!! i) ->
    exists h' v',
      for_each (fun st i => for_each (Organism.copy_prototype target i)
                              (Organism.entries_of (snd st !!! i)) st)
               ks (h, v) = Return (h', v')
      /\ h ⊆ h'
      /\ (forall j, j ∉ ks -> v' !!! j = v !!! j)
      /\ (forall i st, i ∈ ks ->
            match (v0 !!! i) !! st with
            | None => (v' !!! i) !! st = None
            | Some p =>
                exists a proto,
                  (v' !!! i) !! st = Some a /\ h0 !! p = Some proto
                  /\ h' !! a = Some (OrganTypeParameter.copy target proto)
            end).
Proof.
  intros Hnd Halloc. induction ks as [|i ks IH]; intros h v Hsub Htodo.
  - exists h, v. split; [done|]. split; [done|]. split; [done|].
    intros i st Hi. by apply elem_of_nil in Hi.
  - apply NoDup_cons in Hnd as [Hi Hnd].
    change (for_each ?f (?a :: ?l) ?x) with (f x a ≫= for_each f l).
    cbn [fst snd]. rewrite (Htodo i) by (by left).
    destruct (copy_kind_loop target i h0 (Organism.entries_of (v0 !!! i)))
      with (h := h) (v := v) as (h1 & v1 & -> & Hsub1 & Hother1 & Hkeep1 & Hdone1).
    + apply entries_of_NoDup.
    + intros [st p] He. apply entries_of_elem in He. by eapply Halloc.
    + done.
    + intros [st p] He. apply entries_of_elem in He. cbn.
      rewrite (Htodo i) by (by left). done.
    + cbn [mbind outcome_bind].
      destruct (IH Hnd h1 v1) as (h' & v' & Hloop & Hsub' & Hother' & Hdone').
      * by etrans.
      * intros j Hj. rewrite Hother1; [apply Htodo; by right|]. by intros ->.
      * exists h', v'. split; [exact Hloop|]. split; [by etrans|]. split.
        { intros j Hj. apply not_elem_of_cons in Hj as [Hne Hj].
          rewrite Hother' by done. by apply Hother1. }
        intros j st Hj. apply elem_of_cons in Hj as [->|Hj]; [|by apply Hdone'].
        rewrite Hother' by done.
        destruct ((v0 !!! i) !! st) as [p|] eqn:Hp.
        -- destruct (Hdone1 st p) as (a & proto & Ha & Hproto & Hclone);
             [by apply entries_of_elem|].
           exists a, proto. split; [done|]. split; [done|].
           by eapply lookup_weaken.
        -- rewrite Hkeep1; [by rewrite (Htodo i) by (by left)|].
           intros Hin. apply list_elem_of_fmap in Hin as ([st' p] & -> & Hin).
           apply entries_of_elem in Hin. cbn in Hp. congruence.
Qed.

(** ** More on the prototype registry *)

Lemma subtype_le_total : Total Organism.subtype_le.
Proof. intros a b. unfold Organism.subtype_le. lia. Qed.

Lemma subtype_le_trans : Transitive Organism.subtype_le.
Proof. intros a b c. unfold Organism.subtype_le. lia. Qed.

(** A loop over a [std::map] visits the keys in strictly ascending order. *)
Lemma entries_of_ascending (m : gmap Z address) :
  StronglySorted Z.lt (fst <$> Organism.entries_of m).
Proof.
  pose proof (entries_of_NoDup m) as Hnd.
  assert (StronglySorted Organism.subtype_le (Organism.entries_of m)) as Hs.
  { pose proof subtype_le_total. pose proof subtype_le_trans.
    unfold Organism.entries_of. apply StronglySorted_merge_sort; apply _. }
  induction Hs as [|e es Hes IH Hall]; cbn in *; [constructor|].
  apply NoDup_cons in Hnd as [Hnotin Hnd]. constructor; [by apply IH|].
  apply Forall_fmap. apply Forall_forall. intros e' He'.
  eapply Forall_forall in Hall; [|exact He']. unfold Organism.subtype_le in Hall. cbn.
  assert (fst e <> fst e'); [|lia].
  intros Heq. apply Hnotin. rewrite Heq. apply list_elem_of_fmap. by exists e'.
Qed.

(** Every index of the kind table is the index of a kind number. *)
Lemma kind_index_of_fin (i : fin Organism.numberOfOrganTypes) :
  Organism.kind_index (Z.of_nat (fin_to_nat i)) = Some i.
Proof.
  repeat (inv_fin i; [reflexivity|]; intros i). inv_fin i.
Qed.

Section RegistryMore.
Context `{StdRandom}.

(** X1. [getOrganTypeParameter(ot)] returns the prototypes registered for the
    kind [ot], one for each registered subtype, in the order of ascending
    subtype. *)
Theorem getOrganTypeParameters_ascending (s : Organism.t) (ot : Z) :
  0 <= ot < 5 ->
  exists es : list (Z * address),
    Organism.getOrganTypeParameters ot s = Return (snd <$> es)
    /\ StronglySorted Z.lt (fst <$> es)
    /\ forall subtype p,
         (subtype, p) ∈ es <-> Organism.registered s ot subtype = Some p.
Proof.
  intros Hot. apply kind_index_Some in Hot as [i Hi].
  exists (Organism.entries_of (Organism.organParam s !!! i)).
  unfold Organism.getOrganTypeParameters, Organism.registered. rewrite Hi. cbn.
  split; [done|]. split; [apply entries_of_ascending|].
  intros subtype p. apply entries_of_elem.
Qed.

(** X2. After [setOrganTypeParameter(p)] for a prototype that is not the one
    registered at its key already, the organs that ask for the key
    ([p->organType], [p->subType]) get [p], and [p] is still allocated. *)
Theorem setOrganTypeParameter_then_prototype
    (h : gmap address OrganTypeParameter.t) (s : Organism.t) (p : address)
    (proto : OrganTypeParameter.t) :
  let ot := OrganTypeParameter.organType proto in
  let st := OrganTypeParameter.subType proto in
  h !! p = Some proto ->
  OrganTypeParameter.plant proto = Organism.this s ->
  0 <= ot < 5 ->
  (forall q, Organism.registered s ot st = Some q -> is_Some (h !! q) /\ q <> p) ->
  exists h' s',
    Organism.setOrganTypeParameter p h s = Return (h', s')
    /\ Organism.getOrganTypeParameter ot st s' = Return p
    /\ Organism.prototype h' s' ot st = Return proto.
Proof.
  intros ot st Hp Hplant Hot Hold.
  apply kind_index_Some in Hot as [i Hi].
  unfold Organism.setOrganTypeParameter. rewrite Hp.
  rewrite decide_True by done. fold ot st. rewrite Hi.
  assert (exists h', Organism.delete ((Organism.organParam s !!! i) !! st) h = Return h'
                     /\ h' !! p = Some proto) as (h' & -> & Hp').
  { destruct ((Organism.organParam s !!! i) !! st) as [q|] eqn:Hq; cbn.
    - destruct (Hold q) as [Hall Hne]; [unfold Organism.registered; by rewrite Hi|].
      rewrite decide_True by done. eexists. split; [done|].
      by rewrite lookup_delete_ne.
    - by exists h. }
  cbn. eexists _, _. split; [done|].
  assert (Organism.getOrganTypeParameter ot st
            (Organism.mk (Organism.this s)
               (vinsert i (<[st:=p]> (Organism.organParam s !!! i)) (Organism.organParam s))
               (Organism.baseOrgans s) (Organism.simtime s) (Organism.organId s)
               (Organism.nodeId s) (Organism.oldNumberOfNodes s)
               (Organism.oldNumberOfOrgans s) (Organism.gen s) (Organism.UD s)
               (Organism.ND s)) = Return p) as Hget.
  { unfold Organism.getOrganTypeParameter. rewrite Hi. cbn.
    by rewrite vlookup_insert, lookup_insert_eq. }
  split; [exact Hget|]. unfold Organism.prototype. rewrite Hget. cbn. by rewrite Hp'.
Qed.

(** X3. [setOrganTypeParameter(p)] for the prototype that is registered at its
    key already deletes it and registers it again: the registry then holds
    a dangling pointer, and the lookup the organs use has no defined
    behaviour. *)
Theorem setOrganTypeParameter_again_dangles
    (h : gmap address OrganTypeParameter.t) (s : Organism.t) (p : address)
    (proto : OrganTypeParameter.t) :
  let ot := OrganTypeParameter.organType proto in
  let st := OrganTypeParameter.subType proto in
  h !! p = Some proto ->
  OrganTypeParameter.plant proto = Organism.this s ->
  Organism.registered s ot st = Some p ->
  exists s',
    Organism.setOrganTypeParameter p h s = Return (delete p h, s')
    /\ Organism.getOrganTypeParameter ot st s' = Return p
    /\ Organism.prototype (delete p h) s' ot st = Undefined.
Proof.
  intros ot st Hp Hplant Hreg. unfold Organism.registered in Hreg.
  destruct (Organism.kind_index ot) as [i|] eqn:Hi; [|done]. cbn in Hreg.
  unfold Organism.setOrganTypeParameter. rewrite Hp.
  rewrite decide_True by done. fold ot st. rewrite Hi, Hreg. cbn.
  rewrite decide_True by done. cbn. eexists. split; [done|].
  assert (Organism.getOrganTypeParameter ot st
            (Organism.mk (Organism.this s)
               (vinsert i (<[st:=p]> (Organism.organParam s !!! i)) (Organism.organParam s))
               (Organism.baseOrgans s) (Organism.simtime s) (Organism.organId s)
               (Organism.nodeId s) (Organism.oldNumberOfNodes s)
               (Organism.oldNumberOfOrgans s) (Organism.gen s) (Organism.UD s)
               (Organism.ND s)) = Return p) as Hget.
  { unfold Organism.getOrganTypeParameter. rewrite Hi. cbn.
    by rewrite vlookup_insert, lookup_insert_eq. }
  split; [exact Hget|]. unfold Organism.prototype. rewrite Hget. cbn.
  by rewrite lookup_delete_eq.
Qed.

(** A pointer of a consistent registry is registered at one key only. *)
Lemma registry_consistent_inj (h : gmap address OrganTypeParameter.t) (s : Organism.t)
    (ot ot' st st' : Z) (p : address) :
  Organism.registry_consistent h s ->
  Organism.registered s ot st = Some p -> Organism.registered s ot' st' = Some p ->
  ot = ot' /\ st = st'.
Proof.
  intros Hc H1 H2. apply Hc in H1 as (proto & Hp & _ & <- & <-).
  apply Hc in H2 as (proto' & Hp' & _ & <- & <-).
  rewrite Hp in Hp'. by injection Hp' as <-.
Qed.

(** One [setOrganTypeParameter(p)] on a consistent registry. *)
Lemma setOrganTypeParameter_consistent_step
    (h : gmap address OrganTypeParameter.t) (s : Organism.t) (p : address)
    (proto : OrganTypeParameter.t) :
  Organism.registry_consistent h s ->
  h !! p = Some proto ->
  OrganTypeParameter.plant proto = Organism.this s ->
  0 <= OrganTypeParameter.organType proto < 5 ->
  Organism.registered s (OrganTypeParameter.organType proto)
    (OrganTypeParameter.subType proto) <> Some p ->
  exists h' s',
    Organism.setOrganTypeParameter p h s = Return (h', s')
    /\ Organism.this s' = Organism.this s
    /\ Organism.registry_consistent h' s'
    /\ (forall a, Organism.registered s (OrganTypeParameter.organType proto)
                    (OrganTypeParameter.subType proto) <> Some a ->
          h' !! a = h !! a).
Proof.
  intros Hc Hp Hplant Hot Hnew.
  set (ot := OrganTypeParameter.organType proto) in *.
  set (st := OrganTypeParameter.subType proto) in *.
  apply kind_index_Some in Hot as [i Hi].
  unfold Organism.setOrganTypeParameter. rewrite Hp.
  rewrite decide_True by done. fold ot st. rewrite Hi.
  assert (Organism.registered s ot st = (Organism.organParam s !!! i) !! st) as Hkey
      by (unfold Organism.registered; by rewrite Hi).
  assert (exists h', Organism.delete ((Organism.organParam s !!! i) !! st) h = Return h'
                     /\ forall a, Organism.registered s ot st <> Some a ->
                          h' !! a = h !! a)
    as (h' & -> & Hframe).
  { rewrite Hkey. destruct ((Organism.organParam s !!! i) !! st) as [q|] eqn:Hq; cbn.
    - destruct (Hc ot st q) as (old & Hold & _); [by rewrite Hkey|].
      rewrite decide_True by done. eexists. split; [done|].
      intros a Ha. rewrite lookup_delete_ne; [done|]. congruence.
    - by exists h. }
  cbn. eexists _, _. split; [done|]. split; [done|]. split; [|exact Hframe].
  match goal with |- Organism.registry_consistent _ ?x => set (s' := x) end.
  destruct (registered_insert s s' ot st p i Hi eq_refl) as [Hnow Hother].
  intros ot' st' q Hq.
  destruct (decide ((ot', st') = (ot, st))) as [[= -> ->]|Hne].
  - rewrite Hnow in Hq. injection Hq as <-. exists proto.
    by rewrite (Hframe p Hnew).
  - rewrite Hother in Hq by done.
    destruct (Hc _ _ _ Hq) as (proto' & Hq' & Hrest). exists proto'.
    split; [|exact Hrest]. rewrite Hframe; [done|]. intros Hreg.
    destruct (registry_consistent_inj h s ot ot' st st' q Hc Hreg Hq) as [-> ->].
    by apply Hne.
Qed.

(** X4. [setOrganTypeParameter(p)] keeps the registry consistent: where every
    registered pointer points to an allocated prototype of this organism
    with the kind and subtype of its key, this holds again after a
    prototype that is not yet registered has been set. *)
Theorem setOrganTypeParameter_keeps_consistent
    (h : gmap address OrganTypeParameter.t) (s : Organism.t) (p : address)
    (proto : OrganTypeParameter.t) :
  Organism.registry_consistent h s ->
  h !! p = Some proto ->
  OrganTypeParameter.plant proto = Organism.this s ->
  0 <= OrganTypeParameter.organType proto < 5 ->
  Organism.registered s (OrganTypeParameter.organType proto)
    (OrganTypeParameter.subType proto) <> Some p ->
  exists h' s',
    Organism.setOrganTypeParameter p h s = Return (h', s')
    /\ Organism.this s' = Organism.this s
    /\ Organism.registry_consistent h' s'.
Proof.
  intros Hc Hp Hplant Hot Hnew.
  destruct (setOrganTypeParameter_consistent_step h s p proto Hc Hp Hplant Hot Hnew)
    as (h' & s' & Hset & Hthis & Hc' & _).
  by exists h', s'.
Qed.

End RegistryMore.

(** ** Ownership of the prototypes *)

(** The clones of the prototypes of one kind are new objects, and nothing
    else is allocated. *)
Lemma copy_kind_loop_fresh (target : address) (i : fin Organism.numberOfOrganTypes)
    (es : list (Z * address)) :
  NoDup (fst <$> es) ->
  forall h v h' v',
    for_each (Organism.copy_prototype target i) es (h, v) = Return (h', v') ->
    h ⊆ h'
    /\ (forall st, st ∉ fst <$> es -> (v' !!! i) !! st = (v !!! i) !! st)
    /\ (forall j, j <> i -> v' !!! j = v !!! j)
    /\ (forall st, st ∈ fst <$> es ->
          exists a, (v' !!! i) !! st = Some a /\ h !! a = None /\ is_Some (h' !! a))
    /\ (forall a, is_Some (h' !! a) ->
          is_Some (h !! a) \/ exists st, st ∈ fst <$> es /\ (v' !!! i) !! st = Some a).
Proof.
  induction es as [|[st p] es IH]; intros Hnd h v h' v' Hloop.
  - injection Hloop as <- <-. split; [done|]. split; [done|]. split; [done|].
    split; [intros st Hst; by apply elem_of_nil in Hst|]. intros a Ha. by left.
  - cbn in Hnd. apply NoDup_cons in Hnd as [Hst Hnd].
    change (for_each ?f (?a :: ?l) ?x) with (f x a ≫= for_each f l) in Hloop.
    remember (for_each (Organism.copy_prototype target i) es) as loop eqn:Hloopdef.
    unfold Organism.copy_prototype in Hloop. cbn [fst snd] in Hloop.
    destruct (h !! p) as [proto|] eqn:Hp; [|discriminate Hloop].
    cbn [mbind outcome_bind] in Hloop. subst loop.
    set (a := fresh (dom h)) in *.
    assert (h !! a = None) as Ha by (apply not_elem_of_dom, is_fresh).
    apply (IH Hnd) in Hloop as (Hsub & Hkeep & Hother & Hnew & Hdom).
    assert (h ⊆ h') as Hsub'.
    { etrans; [|exact Hsub]. by apply insert_subseteq. }
    assert ((v' !!! i) !! st = Some a) as Hsta.
    { rewrite Hkeep by done. rewrite vlookup_insert. apply lookup_insert_eq. }
    split; [exact Hsub'|]. split.
    { intros st' Hst'. cbn in Hst'. apply not_elem_of_cons in Hst' as [Hne Hst'].
      rewrite Hkeep by done. rewrite vlookup_insert. by rewrite lookup_insert_ne. }
    split.
    { intros j Hj. rewrite Hother by done. by rewrite vlookup_insert_ne. }
    split.
    { intros st' Hst'. cbn in Hst'. apply elem_of_cons in Hst' as [->|Hst'].
      - exists a. split; [done|]. split; [done|].
        exists (OrganTypeParameter.copy target proto).
        eapply lookup_weaken; [|exact Hsub]. apply lookup_insert_eq.
      - destruct (Hnew st' Hst') as (a' & Ha' & Hfresh & Hall).
        exists a'. split; [done|]. split; [|done].
        eapply lookup_weaken_None; [exact Hfresh|]. by apply insert_subseteq. }
    intros b Hb. apply Hdom in Hb as [Hb|(st' & Hst' & Hb)].
    + destruct (decide (b = a)) as [->|Hne].
      * right. exists st. split; [by left|done].
      * left. by rewrite lookup_insert_ne in Hb.
    + right. exists st'. split; [by right|done].
Qed.

(** The clones of all prototypes are new objects, and nothing else is
    allocated. *)
Lemma copy_kinds_loop_fresh (target : address)
    (ks : list (fin Organism.numberOfOrganTypes)) :
  NoDup ks ->
  forall h v h' v',
    for_each (fun st i => for_each (Organism.copy_prototype target i)
                            (Organism.entries_of (snd st !!! i)) st)
             ks (h, v) = Return (h', v') ->
    h ⊆ h'
    /\ (forall j, j ∉ ks -> v' !!! j = v !!! j)
    /\ (forall i st a, i ∈ ks -> (v' !!! i) !! st = Some a ->
          h !! a = None /\ is_Some (h' !! a))
    /\ (forall a, is_Some (h' !! a) ->
          is_Some (h !! a) \/ exists i st, i ∈ ks /\ (v' !!! i) !! st = Some a).
Proof.
  induction ks as [|i ks IH]; intros Hnd h v h' v' Hloop.
  - injection Hloop as <- <-. split; [done|]. split; [done|].
    split; [intros i st a Hi; by apply elem_of_nil in Hi|]. intros a Ha. by left.
  - apply NoDup_cons in Hnd as [Hi Hnd].
    change (for_each ?f (?a :: ?l) ?x) with (f x a ≫= for_each f l) in Hloop.
    cbn [fst snd] in Hloop.
    destruct (for_each (Organism.copy_prototype target i)
                (Organism.entries_of (v !!! i)) (h, v)) as [[h1 v1]| | |] eqn:Hkind;
      try discriminate Hloop.
    cbn [mbind outcome_bind] in Hloop.
    apply copy_kind_loop_fresh in Hkind as (Hsub1 & Hkeep1 & Hother1 & Hnew1 & Hdom1);
      [|apply entries_of_NoDup].
    apply (IH Hnd) in Hloop as (Hsub & Hother & Hnew & Hdom).
    split; [by etrans|]. split.
    { intros j Hj. apply not_elem_of_cons in Hj as [Hne Hj].
      rewrite Hother by done. by apply Hother1. }
    split.
    { intros j st a Hj Ha. apply elem_of_cons in Hj as [->|Hj].
      - rewrite Hother in Ha by done.
        destruct ((v !!! i) !! st) as [p|] eqn:Hp.
        + destruct (Hnew1 st) as (a' & Ha' & Hfresh & Hall).
          { apply list_elem_of_fmap. exists (st, p). split; [done|].
            by apply entries_of_elem. }
          rewrite Ha in Ha'. injection Ha' as <-. split; [done|].
          destruct Hall as [x Hx]. exists x. by eapply lookup_weaken.
        + rewrite Hkeep1 in Ha; [congruence|].
          intros Hin. apply list_elem_of_fmap in Hin as ([st' p] & -> & Hin).
          apply entries_of_elem in Hin. cbn in Hp. congruence.
      - destruct (Hnew j st a Hj Ha) as [Hfresh Hall]. split; [|done].
        by eapply lookup_weaken_None. }
    intros a Ha. apply Hdom in Ha as [Ha|(j & st & Hj & Ha)].
    + apply Hdom1 in Ha as [Ha|(st & _ & Ha)]; [by left|].
      right. exists i, st. split; [by left|]. by rewrite Hother.
    + right. exists j, st. split; [by right|done].
Qed.

(** Deleting the objects of a list one after the other. *)
Lemma delete_loop (ps : list address) (h : gmap address OrganTypeParameter.t) :
  NoDup ps -> (forall a, a ∈ ps -> is_Some (h !! a)) ->
  exists h',
    for_each (fun h a => Organism.delete (Some a) h) ps h = Return h'
    /\ (forall a, a ∈ ps -> h' !! a = None)
    /\ (forall a, a ∉ ps -> h' !! a = h !! a).
Proof.
  revert h. induction ps as [|p ps IH]; intros h Hnd Hall.
  - exists h. split; [done|]. split; [|done]. intros a Ha. by apply elem_of_nil in Ha.
  - apply NoDup_cons in Hnd as [Hp Hnd].
    change (for_each ?f (?a :: ?l) ?x) with (f x a ≫= for_each f l).
    remember (for_each (fun h a => Organism.delete (Some a) h) ps) as loop eqn:Hloopdef.
    unfold Organism.delete. rewrite decide_True by (apply Hall; by left).
    cbn [mbind outcome_bind]. subst loop.
    destruct (IH (delete p h) Hnd) as (h' & -> & Hgone & Hkept).
    { intros a Ha. rewrite lookup_delete_ne; [apply Hall; by right|]. by intros ->. }
    exists h'. split; [done|]. split.
    + intros a Ha. apply elem_of_cons in Ha as [->|Ha]; [|by apply Hgone].
      rewrite Hkept by done. apply lookup_delete_eq.
    + intros a Ha. apply not_elem_of_cons in Ha as [Hne Ha].
      rewrite Hkept by done. by rewrite lookup_delete_ne.
Qed.

(** Deleting an object that is not allocated has no defined behaviour. *)
Lemma delete_loop_dangling (ps : list address) (h : gmap address OrganTypeParameter.t)
    (a : address) :
  a ∈ ps -> h !! a = None ->
  for_each (fun h a => Organism.delete (Some a) h) ps h = Undefined.
Proof.
  revert h. induction ps as [|p ps IH]; intros h Ha Hnone; [by apply elem_of_nil in Ha|].
  change (for_each ?f (?a :: ?l) ?x) with (f x a ≫= for_each f l).
  remember (for_each (fun h a => Organism.delete (Some a) h) ps) as loop eqn:Hloopdef.
  unfold Organism.delete. destruct (decide (is_Some (h !! p))) as [Hp|Hp]; [|done].
  cbn [mbind outcome_bind]. subst loop.
  apply elem_of_cons in Ha as [->|Ha].
  - rewrite Hnone in Hp. by destruct Hp.
  - apply IH; [done|]. destruct (decide (a = p)) as [->|Hne].
    + apply lookup_delete_eq.
    + by rewrite lookup_delete_ne.
Qed.

Section Ownership.
Context `{StdRandom}.

(** The destructor deletes the registered pointers one after the other. *)
Lemma destroy_pointers (h : gmap address OrganTypeParameter.t) (s : Organism.t) :
  Organism.destroy h s
  = for_each (fun h a => Organism.delete (Some a) h)
      (snd <$> (Organism.kinds ≫= fun i => Organism.entries_of (Organism.organParam s !!! i)))
      h.
Proof.
  unfold Organism.destroy.
  rewrite (for_each_bind (fun h e => Organism.delete (Some (snd e)) h)
             (fun i => Organism.entries_of (Organism.organParam s !!! i))).
  by rewrite for_each_fmap.
Qed.

Lemma registry_pointer_elem (s : Organism.t) (e : Z * address) :
  e ∈ (Organism.kinds ≫= fun i => Organism.entries_of (Organism.organParam s !!! i))
  <-> exists ot, 0 <= ot < 5 /\ Organism.registered s ot (fst e) = Some (snd e).
Proof.
  rewrite list_elem_of_bind. destruct e as [st a]. cbn. split.
  - intros (i & He & _). apply entries_of_elem in He.
    exists (Z.of_nat (fin_to_nat i)). split.
    + pose proof (fin_to_nat_lt i). unfold Organism.numberOfOrganTypes in *. lia.
    + unfold Organism.registered. by rewrite kind_index_of_fin.
  - intros (ot & _ & Hreg). unfold Organism.registered in Hreg.
    destruct (Organism.kind_index ot) as [i|]; [|done]. cbn in Hreg.
    exists i. split; [by apply entries_of_elem|apply kinds_all].
Qed.

Lemma registry_pointers_NoDup (h : gmap address OrganTypeParameter.t) (s : Organism.t) :
  Organism.registry_consistent h s ->
  NoDup (snd <$> (Organism.kinds ≫= fun i =>
                    Organism.entries_of (Organism.organParam s !!! i))).
Proof.
  intros Hc. apply NoDup_fmap_2_strong.
  - intros [st a] [st' a'] He He' Heq. cbn in Heq. subst a'.
    apply registry_pointer_elem in He as (ot & _ & He).
    apply registry_pointer_elem in He' as (ot' & _ & He'). cbn in *.
    destruct (registry_consistent_inj h s ot ot' st st' a Hc He He') as [-> ->]. done.
  - apply NoDup_bind; [| |apply kinds_NoDup].
    + intros i i' [st a] _ _ He He'. apply entries_of_elem in He, He'.
      assert (Organism.registered s (Z.of_nat (fin_to_nat i)) st = Some a) as Hr
          by (unfold Organism.registered; by rewrite kind_index_of_fin).
      assert (Organism.registered s (Z.of_nat (fin_to_nat i')) st = Some a) as Hr'
          by (unfold Organism.registered; by rewrite kind_index_of_fin).
      destruct (registry_consistent_inj h s _ _ st st a Hc Hr Hr') as [Heq _].
      apply Nat2Z.inj in Heq. by apply (inj fin_to_nat).
    + intros i _. eapply NoDup_fmap_1. apply entries_of_NoDup.
Qed.

(** What the copy constructor does to the registry and to the heap. *)
Lemma copy_registry (target : address) (h : gmap address OrganTypeParameter.t)
    (o : Organism.t) :
  (forall ot subtype p, Organism.registered o ot subtype = Some p -> is_Some (h !! p)) ->
  exists h1 c,
    Organism.copy target h o = Return (h1, c)
    /\ h ⊆ h1
    /\ Organism.this c = target
    /\ (Organism.baseOrgans c = Organ.copy target <$> Organism.baseOrgans o
        /\ Organism.nodeId c = Organism.nodeId o)
    /\ (forall ot st,
          match Organism.registered o ot st with
          | None => Organism.registered c ot st = None
          | Some p =>
              exists a proto,
                Organism.registered c ot st = Some a
                /\ h !! p = Some proto
                /\ h !! a = None
                /\ h1 !! a = Some (OrganTypeParameter.copy target proto)
          end)
    /\ (forall a, is_Some (h1 !! a) ->
          is_Some (h !! a) \/ exists ot st, Organism.registered c ot st = Some a).
Proof.
  intros Halloc. unfold Organism.copy.
  destruct (copy_kinds_loop target h (Organism.organParam o) Organism.kinds)
    with (h := h) (v := Organism.organParam o) as (h1 & v1 & Hloop & Hsub & _ & Hdone).
  - apply kinds_NoDup.
  - intros i st p Hp. apply (Halloc (Z.of_nat (fin_to_nat i)) st).
    unfold Organism.registered. by rewrite kind_index_of_fin.
  - done.
  - done.
  - rewrite Hloop. cbn [mbind outcome_bind fst snd].
    apply copy_kinds_loop_fresh in Hloop as (_ & _ & Hnew & Hdom); [|apply kinds_NoDup].
    eexists _, _. split; [reflexivity|]. split; [done|]. split; [done|].
    split; [by split|]. split.
    + intros ot st. unfold Organism.registered. cbn.
      destruct (Organism.kind_index ot) as [i|]; [|done]. cbn.
      specialize (Hdone i st (kinds_all i)).
      destruct ((Organism.organParam o !!! i) !! st) as [p|] eqn:Hp; [|done].
      destruct Hdone as (a & proto & Ha & Hproto & Hclone).
      exists a, proto. split; [done|]. split; [done|]. split; [|done].
      by destruct (Hnew i st a (kinds_all i) Ha).
    + intros a Ha. apply Hdom in Ha as [Ha|(i & st & _ & Ha)]; [by left|].
      right. exists (Z.of_nat (fin_to_nat i)), st.
      unfold Organism.registered. cbn. by rewrite kind_index_of_fin.
Qed.

(** X5. The copy constructor gives the clone a registry with the keys of the
    original; each entry points to a newly allocated copy of the prototype
    of the original, bound to the clone.  The prototypes of the original
    stay as they are, and nothing else is allocated. *)
Theorem copy_clones_registry (target : address) (h : gmap address OrganTypeParameter.t)
    (o : Organism.t) :
  (forall ot subtype p, Organism.registered o ot subtype = Some p -> is_Some (h !! p)) ->
  exists h1 c,
    Organism.copy target h o = Return (h1, c)
    /\ (forall a proto, h !! a = Some proto -> h1 !! a = Some proto)
    /\ (forall ot st, Organism.registered o ot st = None ->
          Organism.registered c ot st = None)
    /\ (forall ot st p, Organism.registered o ot st = Some p ->
          exists a proto,
            Organism.registered c ot st = Some a
            /\ h !! p = Some proto
            /\ h !! a = None
            /\ h1 !! a = Some (OrganTypeParameter.copy target proto))
    /\ (forall a, is_Some (h1 !! a) ->
          is_Some (h !! a) \/ exists ot st, Organism.registered c ot st = Some a).
Proof.
  intros Halloc.
  destruct (copy_registry target h o Halloc) as (h1 & c & Hcopy & Hsub & _ & _ & Hreg & Hdom).
  exists h1, c. split; [exact Hcopy|]. split.
  { intros a proto Ha. by eapply lookup_weaken. }
  split.
  { intros ot st Hnone. specialize (Hreg ot st). by rewrite Hnone in Hreg. }
  split; [|exact Hdom].
  intros ot st p Hp. specialize (Hreg ot st). by rewrite Hp in Hreg.
Qed.

Lemma copy_consistent (target : address) (h h1 : gmap address OrganTypeParameter.t)
    (o c : Organism.t) :
  Organism.registry_consistent h o ->
  h ⊆ h1 ->
  Organism.this c = target ->
  (forall ot st,
      match Organism.registered o ot st with
      | None => Organism.registered c ot st = None
      | Some p =>
          exists a proto,
            Organism.registered c ot st = Some a
            /\ h !! p = Some proto
            /\ h !! a = None
            /\ h1 !! a = Some (OrganTypeParameter.copy target proto)
      end) ->
  Organism.registry_consistent h1 c /\ Organism.registry_consistent h1 o.
Proof.
  intros Hc Hsub Hthis Hreg. split.
  - intros ot st a Ha. specialize (Hreg ot st).
    destruct (Organism.registered o ot st) as [p|] eqn:Hp; [|congruence].
    destruct Hreg as (a' & proto & Ha' & Hproto & _ & Hclone).
    rewrite Ha in Ha'. injection Ha' as <-.
    destruct (Hc ot st p Hp) as (proto' & Hproto' & _ & Hot & Hst).
    rewrite Hproto in Hproto'. injection Hproto' as <-.
    exists (OrganTypeParameter.copy target proto). by rewrite Hthis.
  - intros ot st p Hp. destruct (Hc ot st p Hp) as (proto & Hproto & Hrest).
    exists proto. split; [by eapply lookup_weaken|exact Hrest].
Qed.

(** X6. The copy constructor keeps the registries consistent: the registry of
    the clone points to allocated prototypes of the clone with the kind and
    subtype of their keys, and the registry of the original is as consistent
    as before. *)
Theorem copy_keeps_consistent (target : address) (h : gmap address OrganTypeParameter.t)
    (o : Organism.t) :
  Organism.registry_consistent h o ->
  exists h1 c,
    Organism.copy target h o = Return (h1, c)
    /\ Organism.this c = target
    /\ Organism.registry_consistent h1 c
    /\ Organism.registry_consistent h1 o.
Proof.
  intros Hc.
  destruct (copy_registry target h o) as (h1 & c & Hcopy & Hsub & Hthis & _ & Hreg & _).
  { intros ot st p Hp. destruct (Hc ot st p Hp) as (proto & -> & _). done. }
  exists h1, c. split; [exact Hcopy|]. split; [exact Hthis|].
  by apply (copy_consistent target h).
Qed.

Lemma destroy_consistent (h : gmap address OrganTypeParameter.t) (s : Organism.t) :
  Organism.registry_consistent h s ->
  exists h',
    Organism.destroy h s = Return h'
    /\ forall a,
         h' !! a
         = if decide (a ∈ snd <$> (Organism.kinds ≫= fun i =>
                                    Organism.entries_of (Organism.organParam s !!! i)))
           then None else h !! a.
Proof.
  intros Hc. rewrite destroy_pointers.
  destruct (delete_loop _ h (registry_pointers_NoDup h s Hc)) as (h' & Hloop & Hgone & Hkept).
  { intros a Ha. apply list_elem_of_fmap in Ha as ([st a'] & -> & Ha).
    apply registry_pointer_elem in Ha as (ot & _ & Ha). cbn in *.
    destruct (Hc ot st a' Ha) as (proto & -> & _). done. }
  exists h'. split; [exact Hloop|]. intros a.
  destruct (decide _) as [Ha|Ha]; [by apply Hgone|by apply Hkept].
Qed.

Lemma registered_pointer (s : Organism.t) (ot st : Z) (p : address) :
  Organism.registered s ot st = Some p ->
  p ∈ snd <$> (Organism.kinds ≫= fun i =>
                 Organism.entries_of (Organism.organParam s !!! i)).
Proof.
  intros Hp. apply list_elem_of_fmap. exists (st, p).
  split; [done|]. apply registry_pointer_elem. exists ot. split; [|done].
  unfold Organism.registered in Hp.
  destruct ot as [|[[[]|[]|]|[[]|[]|]|]|]; try discriminate Hp; lia.
Qed.

(** X7. The destructor of an organism with a consistent registry frees the
    registered prototypes, each once, and nothing else. *)
Theorem destroy_frees_registry (h : gmap address OrganTypeParameter.t) (s : Organism.t) :
  Organism.registry_consistent h s ->
  exists h',
    Organism.destroy h s = Return h'
    /\ (forall ot st p, Organism.registered s ot st = Some p -> h' !! p = None)
    /\ (forall a, (forall ot st, Organism.registered s ot st <> Some a) ->
          h' !! a = h !! a).
Proof.
  intros Hc. destruct (destroy_consistent h s Hc) as (h' & Hdestroy & Hh').
  exists h'. split; [exact Hdestroy|]. split.
  - intros ot st p Hp. rewrite Hh'. by rewrite decide_True by (by eapply registered_pointer).
  - intros a Ha. rewrite Hh'. rewrite decide_False; [done|]. intros Hin.
    apply list_elem_of_fmap in Hin as ([st a'] & -> & Hin).
    apply registry_pointer_elem in Hin as (ot & _ & Hin). by apply (Ha ot st).
Qed.

(** X8. The destructor of an organism whose registry holds a dangling pointer
    deletes an object that is not allocated: it has no defined behaviour. *)
Theorem destroy_dangling_undefined (h : gmap address OrganTypeParameter.t)
    (s : Organism.t) (ot st : Z) (p : address) :
  Organism.registered s ot st = Some p ->
  h !! p = None ->
  Organism.destroy h s = Undefined.
Proof.
  intros Hp Hnone. rewrite destroy_pointers. apply (delete_loop_dangling _ h p); [|done].
  by eapply registered_pointer.
Qed.

(** X9. Copying an organism and destroying the clone leaves the heap of
    prototypes as it was: the destructor of the clone frees the copies and
    none of the prototypes of the original. *)
Theorem copy_then_destroy_restores (target : address)
    (h : gmap address OrganTypeParameter.t) (o : Organism.t) :
  Organism.registry_consistent h o ->
  exists h1 c,
    Organism.copy target h o = Return (h1, c)
    /\ Organism.destroy h1 c = Return h.
Proof.
  intros Hc.
  destruct (copy_registry target h o) as (h1 & c & Hcopy & Hsub & Hthis & _ & Hreg & Hdom).
  { intros ot st p Hp. destruct (Hc ot st p Hp) as (proto & -> & _). done. }
  exists h1, c. split; [exact Hcopy|].
  destruct (copy_consistent target h h1 o c Hc Hsub Hthis Hreg) as [Hcc _].
  destruct (destroy_consistent h1 c Hcc) as (h' & -> & Hh').
  assert (forall ot st p, Organism.registered c ot st = Some p -> h' !! p = None) as Hgone.
  { intros ot st p Hp. rewrite Hh'.
    by rewrite decide_True by (by eapply registered_pointer). }
  assert (forall a, (forall ot st, Organism.registered c ot st <> Some a) ->
            h' !! a = h1 !! a) as Hkept.
  { intros a Ha. rewrite Hh'. rewrite decide_False; [done|]. intros Hin.
    apply list_elem_of_fmap in Hin as ([st a'] & -> & Hin).
    apply registry_pointer_elem in Hin as (ot & _ & Hin). by apply (Ha ot st). }
  clear Hh'. f_equal. apply map_eq. intros a.
  assert (forall ot st, Organism.registered c ot st = Some a -> h !! a = None) as Hfresh.
  { intros ot st Ha. specialize (Hreg ot st).
    destruct (Organism.registered o ot st) as [p|]; [|congruence].
    destruct Hreg as (a' & proto & Ha' & _ & Hnone & _). congruence. }
  destruct (h1 !! a) as [proto|] eqn:Ha.
  - destruct (Hdom a) as [[proto' Hh]|(ot & st & Hr)]; [done| |].
    + rewrite Hkept.
      * rewrite Ha. symmetry. rewrite Hh. f_equal.
        pose proof (lookup_weaken _ _ _ _ Hh Hsub). congruence.
      * intros ot st Hr. apply Hfresh in Hr. congruence.
    + rewrite (Hgone ot st a Hr). symmetry. by eapply Hfresh.
  - assert (h !! a = None) as -> by (by eapply lookup_weaken_None).
    destruct (h' !! a) as [x|] eqn:Hx; [|done].
    rewrite Hkept in Hx; [congruence|].
    intros ot st Hr. specialize (Hgone ot st a Hr). congruence.
Qed.

(** X10. The clone shares no prototype with the original: registering a
    prototype with the clone, which replaces the copy that the clone holds
    at that key, leaves every lookup of the original as it was before the
    copy. *)
Theorem clone_registry_is_independent (target : address)
    (h : gmap address OrganTypeParameter.t) (o : Organism.t) (p : address)
    (proto : OrganTypeParameter.t) :
  Organism.registry_consistent h o ->
  h !! p = Some proto ->
  OrganTypeParameter.plant proto = target ->
  0 <= OrganTypeParameter.organType proto < 5 ->
  exists h1 c h2 c',
    Organism.copy target h o = Return (h1, c)
    /\ Organism.setOrganTypeParameter p h1 c = Return (h2, c')
    /\ forall ot st, Organism.prototype h2 o ot st = Organism.prototype h o ot st.
Proof.
  intros Hc Hp Hplant Hot.
  destruct (copy_registry target h o) as (h1 & c & Hcopy & Hsub & Hthis & _ & Hreg & _).
  { intros ot st q Hq. destruct (Hc ot st q Hq) as (proto' & -> & _). done. }
  destruct (copy_consistent target h h1 o c Hc Hsub Hthis Hreg) as [Hcc _].
  assert (forall ot st a, Organism.registered c ot st = Some a -> h !! a = None) as Hfresh.
  { intros ot st a Ha. specialize (Hreg ot st).
    destruct (Organism.registered o ot st) as [p0|]; [|congruence].
    destruct Hreg as (a' & proto0 & Ha' & _ & Hnone & _). congruence. }
  rewrite <- Hthis in Hplant.
  destruct (setOrganTypeParameter_consistent_step h1 c p proto Hcc)
    as (h2 & c' & Hset & _ & _ & Hframe); [by eapply lookup_weaken|done|done| |].
  { intros Hold. apply Hfresh in Hold. congruence. }
  exists h1, c, h2, c'. split; [exact Hcopy|]. split; [exact Hset|].
  intros ot st. unfold Organism.prototype, Organism.getOrganTypeParameter.
  destruct (Organism.kind_index ot) as [i|] eqn:Hi; [|done].
  destruct ((Organism.organParam o !!! i) !! st) as [q|] eqn:Hq; [|done].
  cbn [mbind outcome_bind].
  assert (Organism.registered o ot st = Some q) as Hregq
      by (unfold Organism.registered; by rewrite Hi).
  destruct (Hc ot st q Hregq) as (protoq & Hhq & _).
  rewrite Hframe.
  - by rewrite (lookup_weaken _ _ _ _ Hhq Hsub), Hhq.
  - intros Hold. apply Hfresh in Hold. congruence.
Qed.

End Ownership.

(** ** The clone and the simulation *)

Section CopyConstructor.
Context `{OrganPolicy}.

(** The copy constructor returns for an organism whose registered
    prototypes are allocated, and the clone is the same as the original up
    to its owner. *)
Lemma copy_same_up_to_owner (target : address)
    (h : gmap address OrganTypeParameter.t) (o : Organism.t) :
  (forall ot subtype p, Organism.registered o ot subtype = Some p -> is_Some (h !! p)) ->
  exists h1 c,
    Organism.copy target h o = Return (h1, c)
    /\ h ⊆ h1
    /\ Organism.this c = target
    /\ Organism.same_up_to_owner h1 o c.
Proof.
  intros Halloc. unfold Organism.copy.
  destruct (copy_kinds_loop target h (Organism.organParam o) Organism.kinds)
    with (h := h) (v := Organism.organParam o) as (h1 & v1 & -> & Hsub & _ & Hdone).
  - apply kinds_NoDup.
  - intros i st p Hp. assert (exists ot, Organism.kind_index ot = Some i) as [ot Hot].
    { clear Halloc Hp.
      inv_fin i; [by exists 0|intros i]. inv_fin i; [by exists 1|intros i].
      inv_fin i; [by exists 2|intros i]. inv_fin i; [by exists 3|intros i].
      inv_fin i; [by exists 4|intros i]. inv_fin i. }
    apply (Halloc ot st). unfold Organism.registered. by rewrite Hot.
  - done.
  - done.
  - cbn [mbind outcome_bind fst snd]. eexists _, _. split; [reflexivity|].
    split; [done|]. split; [done|]. split; [done|]. split; [done|]. split.
    + cbn. rewrite <- list_fmap_compose. apply list_fmap_ext.
      intros i b _. cbn. by rewrite Organ_copy_copy.
    + intros ot st. unfold Organism.prototype, Organism.getOrganTypeParameter. cbn.
      destruct (Organism.kind_index ot) as [i|]; [|done].
      specialize (Hdone i st (kinds_all i)).
      destruct ((Organism.organParam o !!! i) !! st) as [p|] eqn:Hp.
      * destruct Hdone as (a & proto & -> & Hproto & Hclone). cbn.
        rewrite (lookup_weaken _ _ _ _ Hproto Hsub), Hclone. cbn.
        by destruct proto.
      * by rewrite Hdone.
Qed.

(** C9. Deep-copying an organism whose generator was seeded with
    [setSeed] before [initialize()], and then running the same sequence of
    [simulate(dt)] calls on the original and on the clone, ends the same way
    for both, and where it returns the node arrays and the segment arrays of
    the two organisms are equal, bit for bit.  The copy is deep: the clone
    holds the state of the generator that the seed gave and the counters of
    the original, its organs are clones bound to it, and its registry holds,
    at the keys of the original, new prototypes bound to it, at addresses
    that were free before, while the prototypes of the original stay as
    they are.  The original owns what it holds (its organs and its
    prototypes are bound to it), and the growth of an organ depends on the
    organism it is bound to only through what that organism holds. *)
Theorem clone_simulates_identically (seed : Z) (s0 : Organism.t) (target : address)
    (h : gmap address OrganTypeParameter.t) (dts : list float) (verbose : bool) :
  let o := Organism.initialize (Organism.setSeed seed s0) in
  owner_independent ->
  Organism.well_owned h o ->
  exists h1 c,
    Organism.copy target h o = Return (h1, c)
    /\ h ⊆ h1
    /\ Organism.this c = target
    /\ Organism.gen o = mt19937_seed seed
    /\ Organism.gen c = mt19937_seed seed
    /\ Organism.plant c = Organism.plant o
    /\ Organism.baseOrgans c = Organ.copy target <$> Organism.baseOrgans s0
    /\ Organism.well_owned h1 c
    /\ (forall ot subtype p,
          Organism.registered c ot subtype = Some p -> h !! p = None)
    /\ outcome_rel (fun o' c' =>
                      Organism.getNodes o' = Organism.getNodes c'
                      /\ forall ot, Organism.getSegments ot o' = Organism.getSegments ot c')
         (Organism.simulate_all dts verbose h1 o)
         (Organism.simulate_all dts verbose h1 c).
Proof.
  intros o Hind [Hcons Howned].
  assert (forall ot subtype p,
             Organism.registered o ot subtype = Some p -> is_Some (h !! p)) as Halloc.
  { intros ot st p Hp. destruct (Hcons ot st p Hp) as (proto & -> & _). eauto. }
  destruct (copy_same_up_to_owner target h o Halloc)
    as (h1 & c & Hcopy & _ & _ & Hsame).
  destruct (copy_registry target h o Halloc)
    as (h1' & c' & Hcopy' & Hsub & Hthis & [Hbase _] & Hreg & _).
  rewrite Hcopy in Hcopy'. injection Hcopy' as <- <-.
  destruct (copy_consistent target h h1 o c Hcons Hsub Hthis Hreg) as [Hc Ho].
  assert (Organism.well_owned h1 c) as Hwc.
  { split; [exact Hc|]. rewrite Hbase, Hthis. apply Forall_fmap, Forall_forall.
    intros b _. apply Organ_owned_by_copy. }
  assert (Organism.gen c = mt19937_seed seed) as Hgen.
  { destruct Hsame as (_ & Hplant & _). by injection Hplant as _ _ <- _ _. }
  exists h1, c. split; [exact Hcopy|]. split; [exact Hsub|]. split; [exact Hthis|].
  split; [done|]. split; [exact Hgen|]. split; [symmetry; apply Hsame|].
  split; [exact Hbase|]. split; [exact Hwc|]. split.
  - intros ot st p Hp. specialize (Hreg ot st).
    destruct (Organism.registered o ot st) as [p0|]; [|congruence].
    destruct Hreg as (a & proto & Ha & _ & Hfresh & _). congruence.
  - pose proof (simulate_all_same dts verbose h1 o c Hind Hsame (conj Ho Howned) Hwc)
      as Hrun.
    destruct (Organism.simulate_all dts verbose h1 o),
      (Organism.simulate_all dts verbose h1 c); cbn in *; try done.
    destruct Hrun as (Hrun & _). by eapply same_up_to_owner_arrays.
Qed.

End CopyConstructor.

(** ** Polylines and segment origins *)

(** The loop [for i < m: n.at(i) = src.at(i)], from the index [k] on. *)
Lemma at_set_loop {A : Type} (src : list A) (z : A) (m k : nat) :
  (k + m <= length src)%nat ->
  for_each (fun n i => p ← vector_at src i; vector_set n i p)
           (seqZ (Z.of_nat k) (Z.of_nat m)) (take k src ++ replicate m z)
  = Return (take (k + m) src).
Proof.
  revert k. induction m as [|m IH]; intros k Hk.
  - cbn. by rewrite Nat.add_0_r, app_nil_r.
  - rewrite Nat2Z.inj_succ, seqZ_cons by lia.
    change (for_each ?f (?a :: ?l) ?x) with (f x a ≫= for_each f l). cbv beta.
    destruct (lookup_lt_is_Some_2 src k) as [a Ha]; [lia|].
    rewrite (vector_at_lookup _ _ _ Ha). cbn [mbind outcome_bind].
    rewrite vector_set_in_bounds.
    2:{ unfold in_bounds. rewrite length_app, length_take, length_replicate. lia. }
    cbn [mbind outcome_bind]. rewrite Nat2Z.id.
    replace (<[k:=a]> (take k src ++ replicate (S m) z))
      with (take (S k) src ++ replicate m z).
    + rewrite Z.pred_succ. replace (Z.succ (Z.of_nat k)) with (Z.of_nat (S k)) by lia.
      rewrite IH by lia. f_equal. f_equal. lia.
    + rewrite insert_app_r_alt by (rewrite length_take; lia).
      rewrite length_take. replace (k - k `min` length src)%nat with 0%nat by lia. cbn.
      rewrite (take_S_r _ _ _ Ha). by rewrite <- app_assoc.
Qed.

Lemma at_set_loop_full {A : Type} (src : list A) (z : A) (m : nat) :
  (m <= length src)%nat ->
  for_each (fun n i => p ← vector_at src i; vector_set n i p)
           (seqZ 0 (Z.of_nat m)) (replicate m z)
  = Return (take m src).
Proof. intros Hm. by apply (at_set_loop src z m 0). Qed.

(** The same loop throws once the source is exhausted. *)
Lemma at_set_loop_short {A : Type} (src : list A) (z : A) (n : nat) :
  (length src < n)%nat ->
  for_each (fun n i => p ← vector_at src i; vector_set n i p)
           (seqZ 0 (Z.of_nat n)) (replicate n z)
  = Throw out_of_range.
Proof.
  intros Hn.
  replace (Z.of_nat n) with (Z.of_nat (length src) + Z.of_nat (n - length src)) by lia.
  rewrite seqZ_app by lia. rewrite for_each_app.
  replace (replicate n z)
    with (take 0 src ++ replicate (length src) z ++ replicate (n - length src) z).
  2:{ rewrite take_0, app_nil_l, <- replicate_add. f_equal. lia. }
  assert (forall (l : list Z) (v w : list A) v',
             (forall i, i ∈ l -> 0 <= i < Z.of_nat (length v)) ->
             for_each (fun n i => p ← vector_at src i; vector_set n i p) l v = Return v' ->
             for_each (fun n i => p ← vector_at src i; vector_set n i p) l (v ++ w)
             = Return (v' ++ w)) as Hframe.
  { clear. induction l as [|i l IH]; intros v w v' Hl Hv.
    - injection Hv as <-. done.
    - change (for_each ?f (?a :: ?l) ?x) with (f x a ≫= for_each f l) in *. cbv beta in *.
      destruct (vector_at src i) as [p| | |]; try discriminate Hv.
      cbn [mbind outcome_bind] in *.
      assert (0 <= i < Z.of_nat (length v)) as Hi by (apply Hl; by left).
      rewrite vector_set_in_bounds in Hv by done.
      rewrite vector_set_in_bounds by (unfold in_bounds; rewrite length_app; lia).
      cbn [mbind outcome_bind] in *.
      rewrite insert_app_l by lia. apply IH; [|done].
      intros j Hj. rewrite length_insert. apply Hl. by right. }
  rewrite app_assoc.
  rewrite (Hframe _ _ _ (take (length src) src)).
  - cbn [mbind outcome_bind]. rewrite Z.add_0_l.
    destruct (n - length src)%nat as [|m] eqn:Hm; [lia|].
    rewrite Nat2Z.inj_succ, seqZ_cons by lia.
    change (for_each ?f (?a :: ?l) ?x) with (f x a ≫= for_each f l). cbv beta.
    assert (vector_at src (Z.of_nat (length src)) = Throw out_of_range) as ->; [|done].
    unfold vector_at. rewrite (proj2 (Z.ltb_ge _ _)) by lia. by rewrite andb_false_r.
  - intros i Hi. apply elem_of_seqZ in Hi.
    rewrite length_app, length_take, length_replicate. lia.
  - apply at_set_loop_full. lia.
Qed.

Lemma vector_get_elem {A : Type} (v : list A) (i : Z) (a : A) :
  vector_get v i = Return a -> a ∈ v.
Proof.
  unfold vector_get. destruct (0 <=? i); [|done].
  destruct (v !! Z.to_nat i) eqn:Hi; [|done]. intros [= ->].
  by eapply list_elem_of_lookup_2.
Qed.

(** The loop [for j < l.size(): r[j] = inner(l[j])] where every inner
    computation returns. *)
Lemma map_loop {A B : Type} (inner : A -> outcome B) (f : A -> B) (l : list A) (z : B) :
  (forall a, a ∈ l -> inner a = Return (f a)) ->
  for_each (fun r j => o ← vector_get l j; b ← inner o; vector_put r j b)
           (seqZ 0 (Z.of_nat (length l))) (replicate (length l) z)
  = Return (f <$> l).
Proof.
  intros Hinner.
  rewrite <- (getParameter_loop f l z (length l) 0) by done.
  apply for_each_ext. intros r j _.
  destruct (vector_get l j) as [o| | |] eqn:Ho; cbn; [|done..].
  by rewrite (Hinner o (vector_get_elem _ _ _ Ho)).
Qed.

(** The same loop where some inner computation fails, and the others
    return: the loop ends at the first failure. *)
Lemma map_loop_fails {A B : Type} (inner : A -> outcome B) (bad : outcome B)
    (bad' : outcome (list B)) (l : list A) (z : B) :
  (forall f : B -> outcome (list B), bad ≫= f = bad') ->
  (forall g : list B -> outcome (list B), bad' ≫= g = bad') ->
  Forall (fun a => inner a = bad \/ exists b, inner a = Return b) l ->
  Exists (fun a => inner a = bad) l ->
  for_each (fun r j => o ← vector_get l j; b ← inner o; vector_put r j b)
           (seqZ 0 (Z.of_nat (length l))) (replicate (length l) z)
  = bad'.
Proof.
  intros Hbad Hbad' Hall Hex.
  assert (forall (m k : nat) (pre : list B),
             length pre = k -> (k + m)%nat = length l ->
             Exists (fun a => inner a = bad) (drop k l) ->
             for_each (fun r j => o ← vector_get l j; b ← inner o; vector_put r j b)
                      (seqZ (Z.of_nat k) (Z.of_nat m)) (pre ++ replicate m z)
             = bad') as Hloop.
  { induction m as [|m IH]; intros k pre Hpre Hk Hexk.
    - rewrite drop_ge in Hexk by lia. by apply Exists_nil in Hexk.
    - destruct (lookup_lt_is_Some_2 l k) as [a Ha]; [lia|].
      rewrite Nat2Z.inj_succ, seqZ_cons by lia.
      change (for_each ?f (?a :: ?l) ?x) with (f x a ≫= for_each f l). cbv beta.
      rewrite (vector_get_lookup _ _ _ Ha). cbn [mbind outcome_bind].
      rewrite (drop_S _ _ _ Ha) in Hexk. apply Exists_cons in Hexk as [Hthrow|Hexk].
      + by rewrite Hthrow, Hbad, Hbad'.
      + eapply Forall_forall in Hall; [|by eapply list_elem_of_lookup_2].
        destruct Hall as [->|[b ->]]; [by rewrite Hbad, Hbad'|]. cbn [mbind outcome_bind].
        rewrite vector_put_in_bounds by (rewrite length_app, length_replicate; lia).
        cbn [mbind outcome_bind].
        rewrite insert_app_r_alt by lia.
        replace (k - length pre)%nat with 0%nat by lia. cbn.
        rewrite Z.pred_succ. replace (Z.succ (Z.of_nat k)) with (Z.of_nat (S k)) by lia.
        replace (pre ++ b :: replicate m z) with ((pre ++ [b]) ++ replicate m z)
          by (by rewrite <- app_assoc).
        apply IH; [|lia|done].
        rewrite length_app. cbn. lia. }
  apply (Hloop (length l) 0%nat []); done.
Qed.

Lemma fold_left_app_bind {A B : Type} (f : A -> list B) (l : list A) (acc : list B) :
  fold_left (fun acc a => acc ++ f a) l acc = acc ++ (l ≫= f).
Proof.
  revert acc. induction l as [|a l IH]; intros acc; cbn; [by rewrite app_nil_r|].
  by rewrite IH, app_assoc.
Qed.

Lemma push_back_loop {A : Type} (a : A) (l : list Z) (acc : list A) :
  fold_left (fun segs (_ : Z) => segs ++ [a]) l acc = acc ++ replicate (length l) a.
Proof.
  revert acc. induction l as [|i l IH]; intros acc; cbn; [by rewrite app_nil_r|].
  by rewrite IH, <- app_assoc.
Qed.

Section Polylines.
Context `{StdRandom}.

Lemma polyline_loop (o : Organ.t) :
  for_each (fun n i => p ← Organ.getNode o i; vector_set n i p)
           (size_t_range 0 (Organ.getNumberOfNodes o))
           (replicate (Z.to_nat (Organ.getNumberOfNodes o)) Vector3d.zero)
  = Return (Organ.nodes o).
Proof.
  unfold Organ.getNumberOfNodes, Organ.getNode.
  rewrite size_t_range_nonneg by lia. rewrite Z.sub_0_r, Nat2Z.id.
  rewrite at_set_loop_full by lia. by rewrite firstn_all.
Qed.

(** X11. [getPolylines(ot)] returns, for each organ of [getOrgans(ot)] in the
    order of the traversal, the nodes of the organ; no access of it is out
    of bounds, whatever the organs hold.  It returns where the organ counter
    is not negative, and throws [length_error], as [getOrgans(ot)] does,
    where it is. *)
Theorem getPolylines_nodes_of_traversal (ot : Z) (s : Organism.t) :
  Organism.getPolylines ot s
  = (Organism.getOrgans ot s ≫= fun organs : list Organ.t =>
       Return (Organ.nodes <$> organs))
  /\ (0 <= Organism.getNumberOfOrgans s ->
        Organism.getPolylines ot s = Return (Organ.nodes <$> Organism.traversal ot s))
  /\ (Organism.getNumberOfOrgans s < 0 ->
        Organism.getPolylines ot s = Throw length_error).
Proof.
  assert (Organism.getPolylines ot s
          = (Organism.getOrgans ot s ≫= fun organs : list Organ.t =>
               Return (Organ.nodes <$> organs))) as Heq.
  { unfold Organism.getPolylines. over_traversal.
    rewrite size_t_range_nonneg by lia. rewrite Z.sub_0_r.
    apply map_loop. intros o _. apply polyline_loop. }
  split; [exact Heq|]. rewrite Heq. split; intros HO.
  - by rewrite getOrgans_traversal.
  - by rewrite getOrgans_negative.
Qed.

Lemma polyline_ct_loop (o : Organ.t) :
  for_each (fun nct i => ct ← Organ.getNodeCT o i; vector_set nct i ct)
           (size_t_range 0 (Organ.getNumberOfNodes o))
           (replicate (Z.to_nat (Organ.getNumberOfNodes o)) 0%float)
  = if decide (length (Organ.nodes o) <= length (Organ.nodeCTs o))%nat
    then Return (take (length (Organ.nodes o)) (Organ.nodeCTs o))
    else Throw out_of_range.
Proof.
  unfold Organ.getNumberOfNodes, Organ.getNodeCT.
  rewrite size_t_range_nonneg by lia. rewrite Z.sub_0_r, Nat2Z.id.
  destruct (decide _) as [Hle|Hgt].
  - by rewrite at_set_loop_full by lia.
  - apply at_set_loop_short. lia.
Qed.

(** X12. [getPolylinesCTs(ot)] returns, for each organ of [getOrgans(ot)], the
    creation times of its nodes, one for each node, where every organ has
    as many creation times as nodes or more; it throws [out_of_range] where
    some organ has fewer creation times than nodes.  This is so where the
    organ counter is not negative; where it is, the call throws
    [length_error], as [getOrgans(ot)] does. *)
Theorem getPolylinesCTs_times_of_traversal (ot : Z) (s : Organism.t) :
  (0 <= Organism.getNumberOfOrgans s ->
   Forall (fun o => (length (Organ.nodes o) <= length (Organ.nodeCTs o))%nat)
     (Organism.traversal ot s) ->
   Organism.getPolylinesCTs ot s
   = Return ((fun o => take (length (Organ.nodes o)) (Organ.nodeCTs o))
               <$> Organism.traversal ot s))
  /\ (0 <= Organism.getNumberOfOrgans s ->
      Exists (fun o => (length (Organ.nodeCTs o) < length (Organ.nodes o))%nat)
        (Organism.traversal ot s) ->
      Organism.getPolylinesCTs ot s = Throw out_of_range)
  /\ (Organism.getNumberOfOrgans s < 0 ->
      Organism.getPolylinesCTs ot s = Throw length_error).
Proof.
  unfold Organism.getPolylinesCTs. split; [|split].
  - intros HO Hall. rewrite getOrgans_traversal by done. cbn [mbind outcome_bind].
    rewrite size_t_range_nonneg by lia. rewrite Z.sub_0_r.
    apply map_loop. intros o Ho. rewrite polyline_ct_loop.
    eapply Forall_forall in Hall; [|exact Ho]. cbv beta in Hall. by rewrite decide_True.
  - intros HO Hex. rewrite getOrgans_traversal by done. cbn [mbind outcome_bind].
    rewrite size_t_range_nonneg by lia. rewrite Z.sub_0_r.
    apply (map_loop_fails _ (Throw out_of_range)); [done|done| |].
    + apply Forall_forall. intros o _. rewrite polyline_ct_loop.
      destruct (decide _); [right; by eexists|by left].
    + eapply Exists_impl; [exact Hex|]. intros o Ho. cbv beta in Ho.
      rewrite polyline_ct_loop. rewrite decide_False by lia. done.
  - intros HO. by rewrite getOrgans_negative.
Qed.

Lemma getSegments_bind (ot : Z) (s : Organism.t) :
  Organism.getSegments ot s
  = (Organism.getOrgans ot s ≫= fun organs : list Organ.t =>
       Return (organs ≫= Organ.getSegments)).
Proof.
  unfold Organism.getSegments. over_traversal. by rewrite fold_left_app_bind.
Qed.

Lemma getSegmentOrigins_bind (ot : Z) (s : Organism.t) :
  Organism.getSegmentOrigins ot s
  = (Organism.getOrgans ot s ≫= fun organs : list Organ.t =>
       Return (organs ≫= fun o => replicate (length (Organ.getSegments o)) o)).
Proof.
  unfold Organism.getSegmentOrigins. over_traversal. f_equal.
  assert (forall (l : list Organ.t) (acc : list Organ.t),
             fold_left (fun segs o =>
                          fold_left (fun segs (_ : Z) => segs ++ [o])
                            (size_t_range 0 (Z.of_nat (length (Organ.getSegments o)))) segs)
                       l acc
             = acc ++ (l ≫= fun o => replicate (length (Organ.getSegments o)) o)) as Hgen.
  { induction l as [|o l IH]; intros acc; [by rewrite app_nil_r|].
    change (fold_left ?f (?a :: ?l) ?x) with (fold_left f l (f x a)). cbv beta.
    rewrite push_back_loop. rewrite size_t_range_nonneg by lia.
    rewrite Z.sub_0_r, length_seqZ, Nat2Z.id. rewrite IH. by rewrite <- app_assoc. }
  exact (Hgen _ []).
Qed.

Lemma origins_match_segments (organs : list Organ.t) :
  length (organs ≫= fun o => replicate (length (Organ.getSegments o)) o)
  = length (organs ≫= Organ.getSegments)
  /\ zip (organs ≫= fun o => replicate (length (Organ.getSegments o)) o)
         (organs ≫= Organ.getSegments)
     = organs ≫= fun o => (fun seg => (o, seg)) <$> Organ.getSegments o.
Proof.
  induction organs as [|o l [IHlen IHzip]]; [done|].
  cbn. split.
  - rewrite !length_app, length_replicate. lia.
  - rewrite zip_with_app by (by rewrite length_replicate). rewrite IHzip. f_equal.
    clear. induction (Organ.getSegments o) as [|seg segs IH]; [done|].
    cbn. by rewrite IH.
Qed.

(** X13. [getSegmentOrigins(ot)] corresponds to [getSegments(ot)] entry by
    entry: the two calls end the same way, and where they return both
    results have the same length, and the origin at an index is the organ
    of the traversal whose segment list holds the segment at that index.
    They return where the organ counter is not negative: the segments of
    the organs of [getOrgans(ot)] in the order of the traversal, and the
    organ of each; they throw [length_error] where it is negative. *)
Theorem getSegmentOrigins_match_segments (ot : Z) (s : Organism.t) :
  outcome_rel (fun origins segs =>
                 length origins = length segs
                 /\ zip origins segs
                    = Organism.traversal ot s ≫= fun o =>
                        (fun seg => (o, seg)) <$> Organ.getSegments o)
    (Organism.getSegmentOrigins ot s) (Organism.getSegments ot s)
  /\ (0 <= Organism.getNumberOfOrgans s ->
        Organism.getSegments ot s
        = Return (Organism.traversal ot s ≫= Organ.getSegments)
        /\ Organism.getSegmentOrigins ot s
           = Return (Organism.traversal ot s ≫= fun o =>
                       replicate (length (Organ.getSegments o)) o))
  /\ (Organism.getNumberOfOrgans s < 0 ->
        Organism.getSegments ot s = Throw length_error
        /\ Organism.getSegmentOrigins ot s = Throw length_error).
Proof.
  rewrite getSegments_bind, getSegmentOrigins_bind. split; [|split].
  - destruct (Organism.getOrgans ot s) as [organs| | |] eqn:Horgans; cbn; [|done..].
    apply getOrgans_Return in Horgans as [_ ->]. apply origins_match_segments.
  - intros HO. by rewrite getOrgans_traversal.
  - intros HO. by rewrite getOrgans_negative.
Qed.

End Polylines.

(** ** Creation times *)

Lemma organ_ct_entry_lookup (o : Organ.t) (i : nat) (k : Z) (ct : float) :
  zip (Organ.nodeIds o) (Organ.nodeCTs o) !! i = Some (k, ct) ->
  Organ.getNodeId o (Z.of_nat i) = Return k /\ Organ.getNodeCT o (Z.of_nat i) = Return ct.
Proof.
  intros Hi. apply lookup_zip_with_Some in Hi as (k' & n' & [= <- <-] & Hk & Hn).
  split; by apply vector_at_lookup.
Qed.

Lemma organ_ct_entries_length (o : Organ.t) :
  Organ.aligned o ->
  length (zip (Organ.nodeIds o) (Organ.nodeCTs o)) = length (Organ.nodes o).
Proof. intros [Hids Hcts]. rewrite length_zip_with. lia. Qed.

(** The inner loop of [getNodeCTs]: the creation times of the organ are
    written at the ids of its nodes. *)
Lemma organ_ct_loop (o : Organ.t) (cts : list float) :
  Organ.aligned o ->
  for_each (fun cts i => ct ← Organ.getNodeCT o i;
                         k ← Organ.getNodeId o i;
                         vector_set cts k ct)
           (size_t_range 0 (Organ.getNumberOfNodes o)) cts
  = apply_writes (zip (Organ.nodeIds o) (Organ.nodeCTs o)) cts.
Proof.
  intros Hal. unfold Organ.getNumberOfNodes, apply_writes.
  rewrite size_t_range_nonneg by lia. rewrite Z.sub_0_r.
  rewrite <- organ_ct_entries_length by done.
  apply (for_each_indices_from _ _ _ 0). intros s i [k n] Hi. rewrite Z.add_0_l.
  apply organ_ct_entry_lookup in Hi as [-> ->]. reflexivity.
Qed.

Lemma base_ct_loop (bs : list Organ.t) (cts : list float) :
  Forall (fun b => Organ.nodes b <> [] /\ Organ.aligned b) bs ->
  for_each (fun cts o => ct ← Organ.getNodeCT o 0;
                         k ← Organ.getNodeId o 0;
                         vector_set cts k ct) bs cts
  = apply_writes
      (omap (fun o => head (zip (Organ.nodeIds o) (Organ.nodeCTs o))) bs) cts.
Proof.
  revert cts. induction bs as [|b bs IH]; intros cts Hbs; [done|].
  apply Forall_cons in Hbs as [[Hne Hal] Hbs].
  change (for_each ?f (?a :: ?l) ?x) with (f x a ≫= for_each f l). cbv beta.
  change (omap ?f (b :: bs))
    with (match f b with Some y => y :: omap f bs | None => omap f bs end).
  cbv beta.
  destruct (zip (Organ.nodeIds b) (Organ.nodeCTs b)) as [|[k n] es] eqn:Hes.
  { apply organ_ct_entries_length in Hal. rewrite Hes in Hal.
    destruct (Organ.nodes b); [done|discriminate Hal]. }
  destruct (organ_ct_entry_lookup b 0 k n) as [Hk Hn]; [by rewrite Hes|].
  change (Z.of_nat 0) with 0 in Hk, Hn. rewrite Hk, Hn.
  cbn [mbind outcome_bind head].
  unfold apply_writes.
  change (for_each ?f (?a :: ?l) ?x) with (f x a ≫= for_each f l). cbv beta.
  cbn [fst snd].
  destruct (vector_set cts k n); cbn [mbind outcome_bind]; [|done..]. by apply IH.
Qed.

(** The outcome of a sequence of checked writes depends on the indices
    only. *)
Lemma apply_writes_same_indices {A B : Type} (ws : list (Z * A)) (ws' : list (Z * B))
    (v : list A) (v' : list B) :
  fst <$> ws = fst <$> ws' -> length v = length v' ->
  outcome_rel (fun r r' => length r = length r') (apply_writes ws v) (apply_writes ws' v').
Proof.
  revert ws' v v'. induction ws as [|[k a] ws IH]; intros [|[k' b] ws'] v v' Hfst Hlen;
    try discriminate Hfst; [done|].
  injection Hfst as <- Hfst. unfold apply_writes.
  change (for_each ?f (?a :: ?l) ?x) with (f x a ≫= for_each f l). cbv beta.
  cbn [fst snd]. unfold vector_set. rewrite <- Hlen.
  destruct ((0 <=? k) && (k <? Z.of_nat (length v))); [|done].
  cbn [mbind outcome_bind]. apply IH; [done|]. by rewrite !length_insert.
Qed.

(** Checked writes throw as soon as one index is out of bounds. *)
Lemma apply_writes_out_of_bounds {A : Type} (ws : list (Z * A)) (v : list A) :
  Exists (fun w => ~ in_bounds v (fst w)) ws ->
  apply_writes ws v = Throw out_of_range.
Proof.
  revert v. induction ws as [|[k a] ws IH]; intros v Hex; [by apply Exists_nil in Hex|].
  unfold apply_writes.
  change (for_each ?f (?a :: ?l) ?x) with (f x a ≫= for_each f l). cbv beta.
  cbn [fst snd]. unfold vector_set.
  destruct ((0 <=? k) && (k <? Z.of_nat (length v))) eqn:E; [|done].
  cbn [mbind outcome_bind]. apply IH.
  apply Exists_cons in Hex as [Hk|Hex].
  - exfalso. apply Hk. unfold in_bounds. cbn. apply andb_true_iff in E. lia.
  - eapply Exists_impl; [exact Hex|]. intros w Hw. unfold in_bounds in *.
    by rewrite length_insert.
Qed.

Lemma omap_fst_ext {A B C : Type} (f : A -> option (Z * B)) (g : A -> option (Z * C))
    (l : list A) :
  Forall (fun a => fst <$> f a = fst <$> g a) l ->
  fst <$> omap f l = fst <$> omap g l.
Proof.
  induction 1 as [|a l Ha _ IH]; [done|].
  change (omap ?f (a :: l))
    with (match f a with Some y => y :: omap f l | None => omap f l end).
  destruct (f a) as [[k b]|], (g a) as [[k' c]|]; try discriminate Ha; [|done].
  injection Ha as <-. cbn [fmap list_fmap fst]. f_equal. exact IH.
Qed.

Lemma bind_fst_ext {A B C : Type} (f : A -> list (Z * B)) (g : A -> list (Z * C))
    (l : list A) :
  Forall (fun a => fst <$> f a = fst <$> g a) l ->
  fst <$> (l ≫= f) = fst <$> (l ≫= g).
Proof.
  induction 1 as [|a l Ha _ IH]; [done|].
  rewrite !bind_cons, !fmap_app. by rewrite Ha, IH.
Qed.

Section CreationTimes.
Context `{StdRandom}.

Lemma getNodeCTs_writes (s : Organism.t) :
  Forall (fun b => Organ.nodes b <> [] /\ Organ.aligned b) (Organism.baseOrgans s) ->
  Forall Organ.aligned (Organism.traversal (-1) s) ->
  Organism.getNodeCTs s
  = (_ ← Organism.getOrgans (-1) s;
     vector_new (Organism.getNumberOfNodes s) 0%float
       ≫= apply_writes (Organism.ct_writes s)).
Proof.
  intros Hbase Hal. unfold Organism.getNodeCTs, Organism.ct_writes. over_traversal.
  destruct (vector_new _ _) as [nv| | |]; cbn [mbind outcome_bind]; [|done..].
  rewrite base_ct_loop by done. rewrite apply_writes_app.
  destruct (apply_writes _ nv) as [nv'| | |]; cbn [mbind outcome_bind]; [|done..].
  unfold apply_writes at 1.
  rewrite <- for_each_bind. apply for_each_ext. intros nv'' o Ho.
  rewrite organ_ct_loop by (by eapply Forall_forall in Hal). done.
Qed.

Lemma writes_same_indices (s : Organism.t) :
  Forall (fun b => Organ.nodes b <> [] /\ Organ.aligned b) (Organism.baseOrgans s) ->
  Forall Organ.aligned (Organism.traversal (-1) s) ->
  fst <$> Organism.node_writes s = fst <$> Organism.ct_writes s.
Proof.
  intros Hbase Hal. unfold Organism.node_writes, Organism.ct_writes.
  rewrite !fmap_app. f_equal.
  - apply omap_fst_ext. eapply Forall_impl; [exact Hbase|].
    intros b [Hne [Hids Hcts]]. unfold Organ.node_entries.
    destruct (Organ.nodes b) as [|n ns]; [done|].
    destruct (Organ.nodeIds b) as [|k ks]; [discriminate Hids|].
    destruct (Organ.nodeCTs b) as [|c cs]; [discriminate Hcts|]. done.
  - apply bind_fst_ext. eapply Forall_impl; [exact Hal|].
    intros o [Hids Hcts]. unfold Organ.node_entries. rewrite !fst_zip by lia. done.
Qed.

(** X14. [getNodeCTs()] returns a dense array whose size is the node-id counter;
    for every organ of the traversal and every local index [i] the slot at
    the global id [getNodeId(i)] holds the creation time [getNodeCT(i)], and
    so does the slot of the attachment node of every base organ.  The
    counters and the node ids are those of a well-formed organism: the
    counters not negative, the ids within the node counter and naming one
    node each. *)
Theorem getNodeCTs_dense_by_global_id (s : Organism.t) :
  0 <= Organism.getNumberOfOrgans s ->
  0 <= Organism.getNumberOfNodes s ->
  Forall (fun b => Organ.nodes b <> [] /\ Organ.aligned b) (Organism.baseOrgans s) ->
  Forall Organ.aligned (Organism.traversal (-1) s) ->
  (forall k ct, (k, ct) ∈ Organism.ct_writes s -> 0 <= k < Organism.getNumberOfNodes s) ->
  (forall k ct ct', (k, ct) ∈ Organism.ct_writes s -> (k, ct') ∈ Organism.ct_writes s ->
     ct = ct') ->
  exists cts,
    Organism.getNodeCTs s = Return cts
    /\ Z.of_nat (length cts) = Organism.getNumberOfNodes s
    /\ (forall o i k ct, o ∈ Organism.traversal (-1) s ->
          Organ.getNodeId o i = Return k -> Organ.getNodeCT o i = Return ct ->
          cts !! Z.to_nat k = Some ct)
    /\ (forall b k ct, b ∈ Organism.baseOrgans s ->
          Organ.getNodeId b 0 = Return k -> Organ.getNodeCT b 0 = Return ct ->
          cts !! Z.to_nat k = Some ct).
Proof.
  intros HO HN Hbase Hal Hrange Hfun. rewrite getNodeCTs_writes by done.
  rewrite getOrgans_traversal by done. cbn [mbind outcome_bind].
  unfold vector_new. destruct (Organism.getNumberOfNodes s <? 0) eqn:E; [lia|].
  cbn [mbind outcome_bind].
  destruct (apply_writes_Return (Organism.ct_writes s)
              (replicate (Z.to_nat (Organism.getNumberOfNodes s)) 0%float))
    as (cts & Hcts & Hlen & _ & Hlast).
  { apply Forall_forall. intros [k p] Hin. unfold in_bounds. cbn.
    rewrite length_replicate. apply Hrange in Hin. lia. }
  exists cts. split; [exact Hcts|]. split; [rewrite Hlen, length_replicate; lia|].
  specialize (Hlast Hfun). split.
  - intros o i k ct Ho Hk Hct. apply Hlast. unfold Organism.ct_writes.
    apply elem_of_app. right. apply list_elem_of_bind. exists o. split; [|done].
    apply vector_at_Return in Hk as [Hi Hk]. apply vector_at_Return in Hct as [_ Hct].
    apply (list_elem_of_lookup_2 _ (Z.to_nat i)). apply lookup_zip_with_Some. eauto.
  - intros b k ct Hb Hk Hct. apply Hlast. unfold Organism.ct_writes.
    apply elem_of_app. left. apply list_elem_of_omap. exists b. split; [done|].
    apply vector_at_Return in Hk as [_ Hk]. apply vector_at_Return in Hct as [_ Hct].
    change (Z.to_nat 0) with 0%nat in Hk, Hct.
    destruct (Organ.nodeIds b) as [|k0 ks]; [done|].
    destruct (Organ.nodeCTs b) as [|c0 cs]; [done|].
    cbn in *. congruence.
Qed.

(** X15. [getNodeCTs()] corresponds to [getNodes()]: for an organism whose
    organs hold index-aligned node sequences, the two calls end the same
    way, with arrays of the same length where they return and with the same
    exception where they throw. *)
Theorem getNodeCTs_parallel_to_getNodes (s : Organism.t) :
  Forall (fun b => Organ.nodes b <> [] /\ Organ.aligned b) (Organism.baseOrgans s) ->
  Forall Organ.aligned (Organism.traversal (-1) s) ->
  outcome_rel (fun nv cts => length nv = length cts)
    (Organism.getNodes s) (Organism.getNodeCTs s).
Proof.
  intros Hbase Hal. rewrite getNodes_writes, getNodeCTs_writes by done.
  destruct (Organism.getOrgans (-1) s); cbn [mbind outcome_bind]; [|done..].
  unfold vector_new. destruct (Organism.getNumberOfNodes s <? 0); [done|].
  cbn [mbind outcome_bind]. apply apply_writes_same_indices.
  - by apply writes_same_indices.
  - by rewrite !length_replicate.
Qed.

(** [getNodeCTs()] returns only where the organ counter is not negative. *)
Lemma getNodeCTs_Return_counter (s : Organism.t) (nodeCT : list float) :
  Organism.getNodeCTs s = Return nodeCT -> 0 <= Organism.getNumberOfOrgans s.
Proof.
  unfold Organism.getNodeCTs.
  destruct (Organism.getOrgans (-1) s) as [organs| | |] eqn:Horgans; [|done..].
  intros _. by apply getOrgans_Return in Horgans as [? _].
Qed.

(** X16. [getSegmentCTs(ot)] returns, for each segment of [getSegments(ot)], the
    entry of [getNodeCTs()] at the id of the second node of the segment,
    where these ids are indices of that array; where one of them is not,
    the unchecked subscript [nodeCT[segs[i].y]] has no defined behaviour.
    (Where [getNodeCTs()] returns, [getSegments(ot)] does.) *)
Theorem getSegmentCTs_second_node_times (ot : Z) (s : Organism.t) (nodeCT : list float) :
  Organism.getNodeCTs s = Return nodeCT ->
  exists segs,
    Organism.getSegments ot s = Return segs
    /\ (Forall (fun seg => in_bounds nodeCT (Vector2i.y seg)) segs ->
        exists cts,
          Organism.getSegmentCTs ot s = Return cts
          /\ length cts = length segs
          /\ forall i seg, segs !! i = Some seg ->
               cts !! i = nodeCT !! Z.to_nat (Vector2i.y seg))
    /\ (Exists (fun seg => ~ in_bounds nodeCT (Vector2i.y seg)) segs ->
        Organism.getSegmentCTs ot s = Undefined).
Proof.
  intros Hct. pose proof (getNodeCTs_Return_counter s nodeCT Hct) as HO.
  pose proof (getSegments_bind ot s) as Hsegs.
  rewrite getOrgans_traversal in Hsegs by done. cbn [mbind outcome_bind] in Hsegs.
  eexists. split; [exact Hsegs|].
  unfold Organism.getSegmentCTs. rewrite Hct, Hsegs. cbn [mbind outcome_bind].
  generalize (Organism.traversal ot s ≫= Organ.getSegments). intros segs.
  rewrite length_replicate. rewrite size_t_range_nonneg by lia. rewrite Z.sub_0_r.
  assert (forall seg, in_bounds nodeCT (Vector2i.y seg) ->
            exists ct, nodeCT !! Z.to_nat (Vector2i.y seg) = Some ct
                       /\ vector_get nodeCT (Vector2i.y seg) = Return ct) as Hin.
  { intros seg [H0 H1]. destruct (Z_of_to_nat_lookup nodeCT (Vector2i.y seg)) as [ct Hl];
      [lia|]. exists ct. split; [done|]. unfold vector_get.
    rewrite (proj2 (Z.leb_le _ _)) by lia. by rewrite Hl. }
  assert (forall seg, ~ in_bounds nodeCT (Vector2i.y seg) ->
            vector_get nodeCT (Vector2i.y seg) = Undefined) as Hout.
  { intros seg Hseg. unfold vector_get. destruct (0 <=? Vector2i.y seg) eqn:E; [|done].
    destruct (nodeCT !! Z.to_nat (Vector2i.y seg)) eqn:Hl; [|done].
    exfalso. apply Hseg. apply lookup_lt_Some in Hl. unfold in_bounds. lia. }
  split.
  - intros Hall.
    rewrite (map_loop (fun seg => vector_get nodeCT (Vector2i.y seg))
               (fun seg => default 0%float (nodeCT !! Z.to_nat (Vector2i.y seg)))).
    + eexists. split; [done|]. split; [by rewrite length_fmap|].
      intros i seg Hi. rewrite list_lookup_fmap, Hi. cbn.
      eapply Forall_forall in Hall; [|by eapply list_elem_of_lookup_2].
      destruct (Hin seg Hall) as (ct & -> & _). done.
    + intros seg Hseg. eapply Forall_forall in Hall; [|exact Hseg].
      destruct (Hin seg Hall) as (ct & -> & ->). done.
  - intros Hex. apply (map_loop_fails _ Undefined); [done|done| |].
    + apply Forall_forall. intros seg _.
      destruct (decide (0 <= Vector2i.y seg < Z.of_nat (length nodeCT))) as [Hy|Hy].
      * right. destruct (Hin seg Hy) as (ct & _ & ->). by eexists.
      * left. by apply Hout.
    + eapply Exists_impl; [exact Hex|]. intros seg Hseg. by apply Hout.
Qed.

End CreationTimes.

(** ** Failures and consistency of the node queries *)

(** A loop whose body returns or throws [e] throws [e] where the body
    throws for one of the elements. *)
Lemma checked_loop_throws {A St : Type} (body : St -> A -> outcome St) (e : exception)
    (l : list A) :
  Forall (fun a => forall s, body s a = Throw e \/ exists s', body s a = Return s') l ->
  Exists (fun a => forall s, body s a = Throw e) l ->
  forall s, for_each body l s = Throw e.
Proof.
  intros Hall Hex. induction Hall as [|a l Ha _ IH]; intros s;
    [by apply Exists_nil in Hex|].
  change (for_each ?f (?a :: ?l) ?x) with (f x a ≫= for_each f l).
  apply Exists_cons in Hex as [Hthrow|Hex]; [by rewrite Hthrow|].
  destruct (Ha s) as [->|[s' ->]]; [done|]. cbn [mbind outcome_bind]. by apply IH.
Qed.

Lemma vector_at_checked {A : Type} (v : list A) (i : Z) :
  vector_at v i = Throw out_of_range \/ exists a, vector_at v i = Return a.
Proof.
  unfold vector_at. destruct ((0 <=? i) && (i <? Z.of_nat (length v))); [|by left].
  destruct (v !! Z.to_nat i); [right; by eexists|by left].
Qed.

Lemma vector_set_checked {A : Type} (v : list A) (i : Z) (a : A) :
  vector_set v i a = Throw out_of_range \/ exists v', vector_set v i a = Return v'.
Proof.
  unfold vector_set. destruct ((0 <=? i) && (i <? Z.of_nat (length v)));
    [right; by eexists|by left].
Qed.

(** Writes that return were all within the bounds. *)
Lemma apply_writes_Return_inv {A : Type} (ws : list (Z * A)) (v v' : list A) :
  apply_writes ws v = Return v' -> Forall (fun w => in_bounds v (fst w)) ws.
Proof.
  revert v. induction ws as [|[k a] ws IH]; intros v Hv; [constructor|].
  unfold apply_writes in Hv.
  change (for_each ?f (?a :: ?l) ?x) with (f x a ≫= for_each f l) in Hv.
  cbv beta in Hv. cbn [fst snd] in Hv. unfold vector_set in Hv.
  destruct ((0 <=? k) && (k <? Z.of_nat (length v))) eqn:E; [|discriminate Hv].
  cbn [mbind outcome_bind] in Hv. apply IH in Hv.
  constructor.
  - unfold in_bounds. cbn. apply andb_true_iff in E. lia.
  - eapply Forall_impl; [exact Hv|]. intros w Hw. unfold in_bounds in *.
    by rewrite length_insert in Hw.
Qed.

(** More entries than slots: the write past the end throws. *)
Lemma apply_writes_indexed_overflow {A : Type} (l : list A) (n : nat) (a : A) :
  (n < length l)%nat ->
  apply_writes (Organism.indexed l) (replicate n a) = Throw out_of_range.
Proof.
  intros Hn. apply apply_writes_out_of_bounds. apply Exists_exists.
  destruct (lookup_lt_is_Some_2 l n Hn) as [x Hx].
  exists (Z.of_nat n, x). split.
  - apply indexed_lookup. split; [lia|]. by rewrite Nat2Z.id.
  - unfold in_bounds. cbn. rewrite length_replicate. lia.
Qed.

Section Consistency.
Context `{StdRandom}.

(** X17. [getNodes()] fails by exception only: with [length_error] where the
    organ counter or the node counter is negative, and, where they are not,
    with [out_of_range] where a base organ has no node or no node id, or
    where a node id of a well-formed organ tree lies outside the node
    counter. *)
Theorem getNodes_throws (s : Organism.t) :
  (Organism.getNumberOfOrgans s < 0 \/ Organism.getNumberOfNodes s < 0 ->
   Organism.getNodes s = Throw length_error)
  /\ (0 <= Organism.getNumberOfOrgans s -> 0 <= Organism.getNumberOfNodes s ->
      Exists (fun b => Organ.nodes b = [] \/ Organ.nodeIds b = []) (Organism.baseOrgans s) ->
      Organism.getNodes s = Throw out_of_range)
  /\ (0 <= Organism.getNumberOfOrgans s -> 0 <= Organism.getNumberOfNodes s ->
      Forall (fun b => Organ.nodes b <> [] /\ Organ.aligned b) (Organism.baseOrgans s) ->
      Forall Organ.aligned (Organism.traversal (-1) s) ->
      Exists (fun w => ~ 0 <= fst w < Organism.getNumberOfNodes s) (Organism.node_writes s) ->
      Organism.getNodes s = Throw out_of_range).
Proof.
  split; [|split].
  - intros HN. unfold Organism.getNodes. over_traversal. unfold vector_new.
    by rewrite (proj2 (Z.ltb_lt _ _)) by lia.
  - intros HO HN Hex. unfold Organism.getNodes. rewrite getOrgans_traversal by done.
    cbn [mbind outcome_bind]. unfold vector_new.
    rewrite (proj2 (Z.ltb_ge _ _)) by lia. cbn [mbind outcome_bind].
    rewrite checked_loop_throws with (e := out_of_range); [done| |].
    + apply Forall_forall. intros b _ nv.
      destruct (vector_at_checked (Organ.nodes b) 0) as [Hn|[n Hn]];
        unfold Organ.getNode; rewrite Hn; [by left|]. cbn [mbind outcome_bind].
      destruct (vector_at_checked (Organ.nodeIds b) 0) as [Hk|[k Hk]];
        unfold Organ.getNodeId; rewrite Hk; [by left|]. cbn [mbind outcome_bind].
      destruct (vector_set_checked nv k n) as [->|[nv' ->]]; [by left|right; by eexists].
    + eapply Exists_impl; [exact Hex|]. intros b Hb nv.
      unfold Organ.getNode, Organ.getNodeId.
      destruct Hb as [Hb|Hb]; rewrite Hb; [done|].
      destruct (vector_at_checked (Organ.nodes b) 0) as [Hn|[n Hn]]; rewrite Hn; done.
  - intros HO HN Hbase Hal Hex. rewrite getNodes_writes by done.
    rewrite getOrgans_traversal by done. cbn [mbind outcome_bind]. unfold vector_new.
    rewrite (proj2 (Z.ltb_ge _ _)) by lia. cbn [mbind outcome_bind].
    apply apply_writes_out_of_bounds. eapply Exists_impl; [exact Hex|].
    intros w Hw. cbv beta in *. unfold in_bounds. rewrite length_replicate. lia.
Qed.

(** What [getNodes()] returns holds every write of its loops, where the
    writes agree on the node at an id. *)
Lemma getNodes_Return_lookup (s : Organism.t) (nv : list Vector3d.t) :
  Forall (fun b => Organ.nodes b <> [] /\ Organ.aligned b) (Organism.baseOrgans s) ->
  Forall Organ.aligned (Organism.traversal (-1) s) ->
  (forall k p q, (k, p) ∈ Organism.node_writes s -> (k, q) ∈ Organism.node_writes s -> p = q) ->
  Organism.getNodes s = Return nv ->
  forall k p, (k, p) ∈ Organism.node_writes s -> 0 <= k /\ nv !! Z.to_nat k = Some p.
Proof.
  intros Hbase Hal Hfun Hnv k p Hin. rewrite getNodes_writes in Hnv by done.
  destruct (Organism.getOrgans (-1) s) as [organs| | |]; try discriminate Hnv.
  cbn [mbind outcome_bind] in Hnv.
  destruct (vector_new _ _) as [v0| | |] eqn:Hv0; try discriminate Hnv.
  cbn [mbind outcome_bind] in Hnv.
  pose proof (apply_writes_Return_inv _ _ _ Hnv) as Hb.
  destruct (apply_writes_Return _ _ Hb) as (nv' & Hnv' & _ & _ & Hlast).
  rewrite Hnv in Hnv'. injection Hnv' as <-.
  split; [|by apply Hlast].
  eapply Forall_forall in Hb; [|exact Hin]. by destruct Hb.
Qed.

Lemma traversal_node_write (s : Organism.t) (o : Organ.t) (i k : Z) (p : Vector3d.t) :
  o ∈ Organism.traversal (-1) s ->
  Organ.getNodeId o i = Return k -> Organ.getNode o i = Return p ->
  (k, p) ∈ Organism.node_writes s.
Proof.
  intros Ho Hk Hp. unfold Organism.node_writes. apply elem_of_app. right.
  apply list_elem_of_bind. exists o. split; [|done].
  destruct (organ_entry_elem o i k p Hk Hp) as [_ Hi].
  by eapply list_elem_of_lookup_2.
Qed.

(** The two loops over the moved organs, side by side. *)
Lemma updated_loops_related (R : Z -> Vector3d.t -> Prop) (organs : list Organ.t) :
  (forall o i k p, o ∈ organs -> Organ.getNodeId o i = Return k ->
                   Organ.getNode o i = Return p -> R k p) ->
  forall ni0 nv0 ni nv,
    Forall2 R ni0 nv0 ->
    for_each (fun ni o =>
                if 0 <? Organ.hasMoved o then
                  k ← Organ.getNodeId o (Organ.getOldNumberOfNodes o - 1);
                  Return (ni ++ [k])
                else Return ni) organs ni0 = Return ni ->
    for_each (fun nv o =>
                if 0 <? Organ.hasMoved o then
                  n ← Organ.getNode o (Organ.getOldNumberOfNodes o - 1);
                  Return (nv ++ [n])
                else Return nv) organs nv0 = Return nv ->
    Forall2 R ni nv.
Proof.
  induction organs as [|o os IH]; intros HR ni0 nv0 ni nv H0 Hni Hnv.
  - injection Hni as <-. injection Hnv as <-. done.
  - change (for_each ?f (?a :: ?l) ?x) with (f x a ≫= for_each f l) in Hni, Hnv.
    cbv beta in Hni, Hnv.
    destruct (0 <? Organ.hasMoved o).
    + destruct (Organ.getNodeId o _) as [k| | |] eqn:Hk; try discriminate Hni.
      destruct (Organ.getNode o _) as [p| | |] eqn:Hp; try discriminate Hnv.
      cbn [mbind outcome_bind] in Hni, Hnv.
      eapply (IH (fun o' i' k' p' Ho' => HR o' i' k' p' (list_elem_of_further _ _ _ Ho')));
        [|exact Hni|exact Hnv].
      apply Forall2_app; [done|]. constructor; [|done].
      eapply HR; [by left|exact Hk|exact Hp].
    + cbn [mbind outcome_bind] in Hni, Hnv.
      eapply (IH (fun o' i' k' p' Ho' => HR o' i' k' p' (list_elem_of_further _ _ _ Ho')));
        [exact H0|exact Hni|exact Hnv].
Qed.

(** X18. The moved nodes are nodes of [getNodes()]: the two queries on moved nodes
    return as many ids as positions, and the position at an index is the
    entry of the node array at the id at that index.  The organs hold
    index-aligned node sequences and no id names two different positions. *)
Theorem getUpdatedNodes_in_getNodes (s : Organism.t)
    (nv : list Vector3d.t) (ni : list Z) (un : list Vector3d.t) :
  Forall (fun b => Organ.nodes b <> [] /\ Organ.aligned b) (Organism.baseOrgans s) ->
  Forall Organ.aligned (Organism.traversal (-1) s) ->
  (forall k p q, (k, p) ∈ Organism.node_writes s -> (k, q) ∈ Organism.node_writes s -> p = q) ->
  Organism.getNodes s = Return nv ->
  Organism.getUpdatedNodeIndices s = Return ni ->
  Organism.getUpdatedNodes s = Return un ->
  Forall2 (fun k p => 0 <= k /\ nv !! Z.to_nat k = Some p) ni un.
Proof.
  intros Hbase Hal Hfun Hnv Hni Hun.
  unfold Organism.getUpdatedNodeIndices in Hni. unfold Organism.getUpdatedNodes in Hun.
  destruct (Organism.getOrgans (-1) s) as [organs| | |] eqn:Horgans; try discriminate Hni.
  apply getOrgans_Return in Horgans as [_ ->]. cbn [mbind outcome_bind] in Hni, Hun.
  eapply (updated_loops_related _ (Organism.traversal (-1) s)); [|constructor|exact Hni|exact Hun].
  intros o i k p Ho Hk Hp.
  apply (getNodes_Return_lookup s nv Hbase Hal Hfun Hnv).
  by eapply traversal_node_write.
Qed.

(** X19. The new nodes are nodes of [getNodes()]: a node that an organ of the
    traversal holds at a local index from its old node count on is, in
    [getNewNodes()], at its id less the old node counter of the organism,
    and in [getNodes()] at its id. *)
Theorem getNewNodes_in_getNodes (s : Organism.t)
    (nv nn : list Vector3d.t) (o : Organ.t) (i k : Z) (p : Vector3d.t) :
  Forall (fun b => Organ.nodes b <> [] /\ Organ.aligned b) (Organism.baseOrgans s) ->
  Forall (fun o => Organ.aligned o /\ 0 <= Organ.getOldNumberOfNodes o)
    (Organism.traversal (-1) s) ->
  (forall k p q, (k, p) ∈ Organism.node_writes s -> (k, q) ∈ Organism.node_writes s -> p = q) ->
  Organism.getNodes s = Return nv ->
  Organism.getNewNodes s = Return nn ->
  o ∈ Organism.traversal (-1) s ->
  Organ.getOldNumberOfNodes o <= i ->
  Organ.getNodeId o i = Return k ->
  Organ.getNode o i = Return p ->
  Organism.oldNumberOfNodes s <= k
  /\ nn !! Z.to_nat (k - Organism.oldNumberOfNodes s) = Some p
  /\ nv !! Z.to_nat k = Some p.
Proof.
  intros Hbase Hal Hfun Hnv Hnn Ho Hi Hk Hp.
  assert (Forall Organ.aligned (Organism.traversal (-1) s)) as Hal'.
  { eapply Forall_impl; [exact Hal|]. by intros o' [? _]. }
  pose proof (traversal_node_write s o i k p Ho Hk Hp) as Hw.
  destruct (getNodes_Return_lookup s nv Hbase Hal' Hfun Hnv k p Hw) as [_ Hnvk].
  rewrite getNewNodes_writes in Hnn by done.
  destruct (Organism.getOrgans (-1) s) as [organs| | |]; try discriminate Hnn.
  cbn [mbind outcome_bind] in Hnn.
  destruct (vector_new _ _) as [v0| | |] eqn:Hv0; try discriminate Hnn.
  cbn [mbind outcome_bind] in Hnn.
  pose proof (apply_writes_Return_inv _ _ _ Hnn) as Hb.
  destruct (apply_writes_Return _ _ Hb) as (nn' & Hnn' & _ & _ & Hlast).
  rewrite Hnn in Hnn'. injection Hnn' as <-.
  assert ((k - Organism.oldNumberOfNodes s, p) ∈ Organism.new_node_writes s) as Hnew.
  { unfold Organism.new_node_writes. apply list_elem_of_bind. exists o. split; [|done].
    apply list_elem_of_fmap. exists (k, p). split; [done|].
    destruct (organ_entry_elem o i k p Hk Hp) as [Hi0 Hentry].
    eapply Forall_forall in Hal; [|exact Ho]. destruct Hal as [_ Hold].
    apply (list_elem_of_lookup_2 _ (Z.to_nat i - Z.to_nat (Organ.getOldNumberOfNodes o))).
    rewrite lookup_drop. rewrite <- Hentry. f_equal. lia. }
  split; [|split; [|exact Hnvk]].
  - eapply Forall_forall in Hb; [|exact Hnew]. destruct Hb as [Hb _]. cbn in Hb. lia.
  - apply Hlast; [|exact Hnew].
    intros j a b Ha Hb'. unfold Organism.new_node_writes in Ha, Hb'.
    apply list_elem_of_bind in Ha as (oa & Ha & Hoa).
    apply list_elem_of_bind in Hb' as (ob & Hb' & Hob).
    apply list_elem_of_fmap in Ha as ([ka pa] & [= -> ->] & Ha).
    apply list_elem_of_fmap in Hb' as ([kb pb] & [= Hkb ->] & Hb'). cbn in Hkb.
    assert (ka = kb) as -> by lia.
    apply list_elem_of_lookup in Ha as [ia Ha]. rewrite lookup_drop in Ha.
    apply list_elem_of_lookup in Hb' as [ib Hb']. rewrite lookup_drop in Hb'.
    apply (Hfun kb); unfold Organism.node_writes; apply elem_of_app; right;
      apply list_elem_of_bind; [exists oa|exists ob]; (split; [|done]);
      by eapply list_elem_of_lookup_2.
Qed.

(** X20. An organ whose stored old number of nodes is negative adds nothing to
    [getNewNodes()]: the count, an [int], starts a loop over [size_t], and
    converts to an index above every node. *)
Theorem getNewNodes_skips_negative_count (s : Organism.t) (o : Organ.t)
    (nv : list Vector3d.t) :
  - 2 ^ 31 <= Organ.getOldNumberOfNodes o < 0 ->
  Organ.getNumberOfNodes o < 2 ^ 63 ->
  Organism.getNewNodes_of s nv o = Return nv.
Proof.
  intros Hold Hn. unfold Organism.getNewNodes_of, size_t_range, to_size_t, size_t_modulus.
  rewrite (proj2 (Z.ltb_lt _ _)) by lia.
  assert (0 <= Organ.getNumberOfNodes o) by (unfold Organ.getNumberOfNodes; lia).
  rewrite (proj2 (Z.ltb_ge _ _)) by lia.
  rewrite seqZ_nil by lia. done.
Qed.

Lemma segment_origins_length (organs : list Organ.t) :
  Forall (fun o => Organ.aligned o /\ 1 <= Organ.getNumberOfNodes o) organs ->
  length (Organism.segment_origins_over Organism.new_range organs)
  = length (Organism.segments_over Organism.new_range organs).
Proof.
  intros Hal. unfold Organism.segment_origins_over, Organism.segments_over.
  induction Hal as [|o os [Ho Hn] Hos IH]; [done|].
  rewrite !bind_cons, !length_app, IH. f_equal.
  rewrite length_fmap. destruct (new_range_bounds o Hn) as [Hfirst Hstop].
  unfold Organ.segments_in. symmetry. apply omap_total_length.
  apply Forall_forall. intros i Hi. apply elem_of_seqZ in Hi.
  destruct Ho as [Hids _]. unfold Organ.getNumberOfNodes in Hstop.
  destruct (Z_of_to_nat_lookup (Organ.nodeIds o) i) as [a ->]; [lia|].
  destruct (Z_of_to_nat_lookup (Organ.nodeIds o) (i + 1)) as [b ->]; [lia|].
  done.
Qed.

(** X21. [getNewSegments(ot)] and [getNewSegmentOrigins(ot)] throw
    [length_error] where the organ counter or the number of new nodes is
    negative, and, where they are not, [out_of_range] where the organs of
    the traversal, with index-aligned node sequences, hold more new
    segments than the organism has new nodes. *)
Theorem getNewSegments_overflow_throws (ot : Z) (s : Organism.t) :
  (Organism.getNumberOfOrgans s < 0 \/ Organism.getNumberOfNewNodes s < 0 ->
   Organism.getNewSegments ot s = Throw length_error
   /\ Organism.getNewSegmentOrigins ot s = Throw length_error)
  /\ (0 <= Organism.getNumberOfOrgans s ->
      Forall Organ.aligned (Organism.traversal ot s) ->
      0 <= Organism.getNumberOfNewNodes s
      < Z.of_nat (length (Organism.segments_over Organism.new_range
                            (Organism.traversal ot s))) ->
      Organism.getNewSegments ot s = Throw out_of_range
      /\ Organism.getNewSegmentOrigins ot s = Throw out_of_range).
Proof.
  split.
  - intros Hneg. unfold Organism.getNewSegments, Organism.getNewSegmentOrigins.
    split; over_traversal; unfold vector_new; by rewrite (proj2 (Z.ltb_lt _ _)) by lia.
  - intros HO Hal Hn. rewrite getNewSegments_writes, getNewSegmentOrigins_writes by done.
    rewrite getOrgans_traversal by done. cbn [mbind outcome_bind].
    unfold vector_new. rewrite (proj2 (Z.ltb_ge _ _)) by lia. cbn [mbind outcome_bind].
    split; apply apply_writes_indexed_overflow; [lia|].
    rewrite segment_origins_length; [lia|].
    pose proof (getOrgans_spec ot s) as Hmany.
    apply Forall_forall. intros o Ho.
    eapply Forall_forall in Hal; [|exact Ho].
    eapply Forall_forall in Hmany as [Hmany _]; [|exact Ho]. split; [done|lia].
Qed.

End Consistency.

Section Steps.
Context `{OrganPolicy}.

(** X23. [getParameter(name, ot, organs)] with a list of organs that is not empty
    reads the parameter of these organs, one value for each in the order of
    the list, whatever the kind [ot] and the organs of the organism. *)
Theorem getParameter_of_given_organs (name : string) (ot : Z) (organs : list Organ.t)
    (s : Organism.t) :
  organs <> [] ->
  Organism.getParameter name ot organs s
  = Return ((fun o => Organ_getParameter o name) <$> organs).
Proof.
  intros Hne. unfold Organism.getParameter.
  destruct organs as [|o os]; [done|]. cbn [mbind outcome_bind].
  rewrite size_t_range_nonneg by lia. rewrite Z.sub_0_r.
  by apply (getParameter_loop (fun o => Organ_getParameter o name) (o :: os) 0%float
              (length (o :: os)) 0).
Qed.

End Steps.

(** ** Kinds of organs *)

Lemma second_node_times (nodeCT : list float) (ws : list (Z * float)) :
  (forall k ct, (k, ct) ∈ ws -> nodeCT !! Z.to_nat k = Some ct) ->
  forall (ids : list Z) (cts : list float),
    length ids = length cts ->
    (forall e, e ∈ zip ids cts -> e ∈ ws) ->
    Forall2 (fun seg ct => nodeCT !! Z.to_nat (Vector2i.y seg) = Some ct)
            (Organ.consecutive_pairs ids) (tail cts).
Proof.
  intros Hws. induction ids as [|a ids IH]; intros cts Hlen Hin;
    [destruct cts; [constructor|discriminate Hlen]|].
  destruct cts as [|ca cts]; [discriminate Hlen|].
  destruct ids as [|b ids]; [destruct cts; [constructor|discriminate Hlen]|].
  destruct cts as [|cb cts]; [discriminate Hlen|].
  change (Organ.consecutive_pairs (a :: b :: ids))
    with (Vector2i.mk a b :: Organ.consecutive_pairs (b :: ids)).
  cbn [tail]. constructor.
  - cbn. apply Hws. apply Hin. cbn. right. by left.
  - apply (IH (cb :: cts)); [cbn in *; lia|].
    intros e He. apply Hin. cbn. by right.
Qed.

Section Kinds.
Context `{StdRandom}.

(** X24. [getOrgans(ot)] for a kind [ot] lists the organs of [getOrgans(-1)]
    that are of the kind [ot], in the order in which they are there; the
    two calls end the same way: they return where the organ counter is not
    negative, and throw [length_error] where it is. *)
Theorem getOrgans_kind_is_filter (ot : Z) (s : Organism.t) :
  Organism.getOrgans ot s
  = (Organism.getOrgans (-1) s ≫= fun organs : list Organ.t =>
       Return (filter (fun o => ot = -1 \/ ot = Organ.organType o) organs))
  /\ (0 <= Organism.getNumberOfOrgans s ->
        exists organs,
          Organism.getOrgans (-1) s = Return organs
          /\ Organism.getOrgans ot s
             = Return (filter (fun o => ot = -1 \/ ot = Organ.organType o) organs))
  /\ (Organism.getNumberOfOrgans s < 0 ->
        Organism.getOrgans (-1) s = Throw length_error
        /\ Organism.getOrgans ot s = Throw length_error).
Proof.
  assert (Organism.traversal ot s
          = filter (fun o => ot = -1 \/ ot = Organ.organType o)
              (Organism.traversal (-1) s)) as Hfilter.
  { unfold Organism.traversal. rewrite !getOrgans_fold, !app_nil_l.
    by rewrite (filter_all (fun o' => -1 = -1 \/ -1 = Organ.organType o'))
      by (by left). }
  split; [|split].
  - unfold Organism.getOrgans.
    destruct (vector_reserve _) as [[]| | |]; cbn [mbind outcome_bind]; [|done..].
    by rewrite Hfilter.
  - intros HO. exists (Organism.traversal (-1) s).
    rewrite !getOrgans_traversal by done. by rewrite Hfilter.
  - intros HO. by rewrite !getOrgans_negative.
Qed.

(** X25. In a well-formed organism the creation time of a segment is the creation
    time of its second node: [getSegmentCTs(ot)] returns, organ by organ in
    the order of [getOrgans(ot)], the creation times of the nodes of the
    organ but the first.  The counters are not negative, the organs hold
    index-aligned node sequences and the node ids are within the node
    counter and name one node each. *)
Theorem getSegmentCTs_of_well_formed (ot : Z) (s : Organism.t) :
  0 <= Organism.getNumberOfOrgans s ->
  0 <= Organism.getNumberOfNodes s ->
  Forall (fun b => Organ.nodes b <> [] /\ Organ.aligned b) (Organism.baseOrgans s) ->
  Forall Organ.aligned (Organism.traversal (-1) s) ->
  (forall k ct, (k, ct) ∈ Organism.ct_writes s -> 0 <= k < Organism.getNumberOfNodes s) ->
  (forall k ct ct', (k, ct) ∈ Organism.ct_writes s -> (k, ct') ∈ Organism.ct_writes s ->
     ct = ct') ->
  Organism.getSegmentCTs ot s
  = Return (Organism.traversal ot s ≫= fun o => tail (Organ.nodeCTs o)).
Proof.
  intros HO HN Hbase Hal Hrange Hfun.
  assert (exists nodeCT,
             Organism.getNodeCTs s = Return nodeCT
             /\ Z.of_nat (length nodeCT) = Organism.getNumberOfNodes s
             /\ forall k ct, (k, ct) ∈ Organism.ct_writes s ->
                  nodeCT !! Z.to_nat k = Some ct) as (nodeCT & Hct & Hlen & Hlook).
  { rewrite getNodeCTs_writes by done.
    rewrite getOrgans_traversal by done. cbn [mbind outcome_bind].
    unfold vector_new. rewrite (proj2 (Z.ltb_ge _ _)) by lia. cbn [mbind outcome_bind].
    destruct (apply_writes_Return (Organism.ct_writes s)
                (replicate (Z.to_nat (Organism.getNumberOfNodes s)) 0%float))
      as (cts & Hcts & Hlen & _ & Hlast).
    { apply Forall_forall. intros [k p] Hin. unfold in_bounds. cbn.
      rewrite length_replicate. apply Hrange in Hin. lia. }
    exists cts. split; [done|]. split; [rewrite Hlen, length_replicate; lia|].
    by apply Hlast. }
  assert (Forall2 (fun seg ct => nodeCT !! Z.to_nat (Vector2i.y seg) = Some ct)
            (Organism.traversal ot s ≫= Organ.getSegments)
            (Organism.traversal ot s ≫= fun o => tail (Organ.nodeCTs o))) as Hsegs.
  { assert (Forall (fun o => o ∈ Organism.traversal (-1) s) (Organism.traversal ot s))
      as Hsub.
    { apply Forall_forall. intros o. apply getOrgans_kind_elem. }
    induction Hsub as [|o os Ho _ IH]; [constructor|].
    rewrite !bind_cons. apply Forall2_app; [|exact IH].
    unfold Organ.getSegments. apply (second_node_times nodeCT (Organism.ct_writes s) Hlook).
    - eapply Forall_forall in Hal; [|exact Ho]. destruct Hal as [Hids Hcts]. lia.
    - intros e He. unfold Organism.ct_writes. apply elem_of_app. right.
      apply list_elem_of_bind. by exists o. }
  pose proof (getSegments_bind ot s) as Hbind.
  rewrite getOrgans_traversal in Hbind by done. cbn [mbind outcome_bind] in Hbind.
  unfold Organism.getSegmentCTs. rewrite Hct, Hbind. cbn [mbind outcome_bind].
  rewrite length_replicate. rewrite size_t_range_nonneg by lia. rewrite Z.sub_0_r.
  rewrite (map_loop (fun seg => vector_get nodeCT (Vector2i.y seg))
             (fun seg => default 0%float (nodeCT !! Z.to_nat (Vector2i.y seg)))).
  - f_equal. apply list_eq. intros j. rewrite list_lookup_fmap.
    destruct ((Organism.traversal ot s ≫= Organ.getSegments) !! j) as [seg|] eqn:Hseg; cbn.
    + destruct (Forall2_lookup_l _ _ _ _ _ Hsegs Hseg) as (ct & -> & ->). done.
    + symmetry. apply lookup_ge_None_2. apply lookup_ge_None_1 in Hseg.
      apply Forall2_length in Hsegs. lia.
  - intros seg Hseg. apply list_elem_of_lookup in Hseg as [j Hseg].
    destruct (Forall2_lookup_l _ _ _ _ _ Hsegs Hseg) as (ct & _ & Hl).
    unfold vector_get. rewrite Hl. cbn.
    destruct (0 <=? Vector2i.y seg) eqn:E; [done|].
    exfalso. clear Hsegs.
    assert (Z.to_nat (Vector2i.y seg) = 0%nat) as Hz by lia.
    (* a negative id would not have been written *)
    apply list_elem_of_lookup_2 in Hseg. apply list_elem_of_bind in Hseg as (o & Hseg & Ho).
    apply getOrgans_kind_elem in Ho.
    unfold Organ.getSegments in Hseg.
    assert (forall ids, seg ∈ Organ.consecutive_pairs ids -> Vector2i.y seg ∈ ids) as Hy.
    { clear. induction ids as [|a ids IH]; [by intros ?%elem_of_nil|].
      destruct ids as [|b ids]; [by intros ?%elem_of_nil|].
      change (Organ.consecutive_pairs (a :: b :: ids))
        with (Vector2i.mk a b :: Organ.consecutive_pairs (b :: ids)).
      intros [->|Hin]%elem_of_cons; [right; by left|]. right. by apply IH. }
    apply Hy in Hseg. apply list_elem_of_lookup in Hseg as [i Hi].
    eapply Forall_forall in Hal; [|exact Ho]. destruct Hal as [Hids Hcts].
    destruct (lookup_lt_is_Some_2 (Organ.nodeCTs o) i) as [c Hc].
    { apply lookup_lt_Some in Hi. lia. }
    assert ((Vector2i.y seg, c) ∈ Organism.ct_writes s) as Hw.
    { unfold Organism.ct_writes. apply elem_of_app. right.
      apply list_elem_of_bind. exists o. split; [|done].
      apply (list_elem_of_lookup_2 _ i). apply lookup_zip_with_Some. eauto. }
    apply Hrange in Hw. lia.
Qed.

(** X26. The queries on moved nodes throw [out_of_range] where an organ of the
    traversal that moved a node stores an old number of nodes that is not
    the local index of one of its nodes plus one; the organ counter is not
    negative, as [getOrgans()] needs it. *)
Theorem getUpdatedNodes_throw (s : Organism.t) (o : Organ.t) :
  0 <= Organism.getNumberOfOrgans s ->
  o ∈ Organism.traversal (-1) s ->
  0 < Organ.hasMoved o ->
  (~ 1 <= Organ.getOldNumberOfNodes o <= Z.of_nat (length (Organ.nodeIds o)) ->
   Organism.getUpdatedNodeIndices s = Throw out_of_range)
  /\ (~ 1 <= Organ.getOldNumberOfNodes o <= Z.of_nat (length (Organ.nodes o)) ->
      Organism.getUpdatedNodes s = Throw out_of_range).
Proof.
  intros HO Ho Hmoved.
  assert (forall (A : Type) (v : list A) (i : Z),
             ~ 1 <= i <= Z.of_nat (length v) -> vector_at v (i - 1) = Throw out_of_range)
    as Hat.
  { intros A v i Hi. unfold vector_at.
    destruct (0 <=? i - 1) eqn:E0; [|done].
    destruct (i - 1 <? Z.of_nat (length v)) eqn:E1; [|done]. lia. }
  split; intros Hold.
  - unfold Organism.getUpdatedNodeIndices. rewrite getOrgans_traversal by done.
    cbn [mbind outcome_bind]. apply checked_loop_throws.
    + apply Forall_forall. intros o' _ ni. destruct (0 <? Organ.hasMoved o').
      * unfold Organ.getNodeId.
        destruct (vector_at_checked (Organ.nodeIds o') (Organ.getOldNumberOfNodes o' - 1))
          as [->|[k ->]]; [by left|right; by eexists].
      * right. by eexists.
    + apply Exists_exists. exists o. split; [done|]. intros ni.
      rewrite (proj2 (Z.ltb_lt _ _)) by lia. unfold Organ.getNodeId.
      by rewrite Hat.
  - unfold Organism.getUpdatedNodes. rewrite getOrgans_traversal by done.
    cbn [mbind outcome_bind]. apply checked_loop_throws.
    + apply Forall_forall. intros o' _ ni. destruct (0 <? Organ.hasMoved o').
      * unfold Organ.getNode.
        destruct (vector_at_checked (Organ.nodes o') (Organ.getOldNumberOfNodes o' - 1))
          as [->|[k ->]]; [by left|right; by eexists].
      * right. by eexists.
    + apply Exists_exists. exists o. split; [done|]. intros ni.
      rewrite (proj2 (Z.ltb_lt _ _)) by lia. unfold Organ.getNode.
      by rewrite Hat.
Qed.

End Kinds.

(** ** Queries on a clone *)

Section CloneQueries.
Context `{StdRandom}.





End CloneQueries.

(** ** The synthetic policy *)

#[local] Existing Instance Synthetic.random.
#[local] Existing Instance Synthetic.policy.

Lemma Synthetic_simulate_unfold (dt simtime : float) (o : Organ.t) (p : Plant.t) :
  Synthetic.simulate dt simtime o p
  = let own := Synthetic.grow dt simtime o [] p in
    let rest := Synthetic.thread (Synthetic.simulate dt simtime) (Organ.children o)
                  (snd own) in
    (fst (Synthetic.grow dt simtime o (fst rest) p), snd rest).
Proof. by destruct o. Qed.

Lemma Synthetic_grow_copy (a : address) (dt simtime : float) (o : Organ.t)
    (cs cs' : list Organ.t) (p : Plant.t) :
  Synthetic.grow dt simtime (Organ.copy a o) (Organ.copy a <$> cs) p
  = (Organ.copy a (fst (Synthetic.grow dt simtime o cs p)),
     snd (Synthetic.grow dt simtime o cs' p)).
Proof.
  rewrite (Organ_copy_unfold a o). unfold Synthetic.grow, Synthetic.tip,
    Organ.getNumberOfNodes. cbn.
  destruct (negb (Organ.alive o)); [by rewrite Organ_copy_unfold|].
  destruct (_ && _); by rewrite Organ_copy_unfold.
Qed.

(** The synthetic growth does not look at the owner of an organ. *)
Lemma Synthetic_simulate_copy (a : address) (dt simtime : float) (o : Organ.t) :
  forall p, Synthetic.simulate dt simtime (Organ.copy a o) p
            = (Organ.copy a (fst (Synthetic.simulate dt simtime o p)),
               snd (Synthetic.simulate dt simtime o p)).
Proof.
  pattern o. apply Organ_tree_ind. clear o. intros o IH p.
  rewrite !Synthetic_simulate_unfold. cbn zeta.
  rewrite (Synthetic_grow_copy a dt simtime o [] []). cbn [fst snd].
  replace (Organ.children (Organ.copy a o)) with (Organ.copy a <$> Organ.children o)
    by (by rewrite Organ_copy_unfold).
  assert (forall q,
            Synthetic.thread (Synthetic.simulate dt simtime)
              (Organ.copy a <$> Organ.children o) q
            = (Organ.copy a <$> fst (Synthetic.thread (Synthetic.simulate dt simtime)
                                       (Organ.children o) q),
               snd (Synthetic.thread (Synthetic.simulate dt simtime)
                      (Organ.children o) q))) as ->.
  { induction IH as [|c cs Hc _ IHcs]; intros q; [done|]. cbn.
    rewrite Hc. cbn. by rewrite IHcs. }
  cbn [fst snd]. f_equal.
  by rewrite (Synthetic_grow_copy a dt simtime o _
               (fst (Synthetic.thread (Synthetic.simulate dt simtime)
                       (Organ.children o) (snd (Synthetic.grow dt simtime o [] p))))).
Qed.

(** The synthetic growth keeps the organs bound to their organism. *)
Lemma Synthetic_simulate_owned (a : address) (dt simtime : float) (o : Organ.t)
    (p : Plant.t) :
  Organ.owned_by a o = true ->
  Organ.owned_by a (fst (Synthetic.simulate dt simtime o p)) = true.
Proof.
  intros Ho. apply Organ_owned_by_fixed in Ho.
  pose proof (Synthetic_simulate_copy a dt simtime o p) as Hsim.
  rewrite Ho in Hsim. rewrite Hsim at 1. cbn [fst]. apply Organ_owned_by_copy.
Qed.

Lemma Synthetic_owner_independent : owner_independent.
Proof.
  intros dt verbose simtime a a' look look' o o' p _ Ho Ho' Hsame. cbn.
  split; [by apply Synthetic_simulate_owned|].
  split; [by apply Synthetic_simulate_owned|].
  unfold Organ.same_up_to_plant in *.
  pose proof (Synthetic_simulate_copy 1%positive dt simtime o p) as Hsim.
  pose proof (Synthetic_simulate_copy 1%positive dt simtime o' p) as Hsim'.
  rewrite Hsame in Hsim. rewrite Hsim in Hsim'. by injection Hsim'.
Qed.

(** The registry of the rooted sapling holds one prototype. *)
Lemma rooted_registered (ot subtype : Z) (p : address) :
  Organism.registered Synthetic.rooted ot subtype = Some p ->
  ot = 2 /\ subtype = 1 /\ p = 7%positive.
Proof.
  intros Hp. unfold Organism.registered in Hp.
  destruct ot as [|[[[]|[]|]|[[]|[]|]|]|]; try discriminate Hp; cbn in Hp;
    try (by rewrite lookup_empty in Hp).
  destruct (decide (subtype = 1)) as [->|Hne].
  - rewrite lookup_singleton_eq in Hp. by injection Hp as <-.
  - by rewrite lookup_singleton_ne in Hp.
Qed.

Lemma rooted_allocated (ot subtype : Z) (p : address) :
  Organism.registered Synthetic.rooted ot subtype = Some p ->
  is_Some (Synthetic.nursery !! p).
Proof. intros (_ & _ & ->)%rooted_registered. by exists Synthetic.taproot. Qed.

Lemma rooted_consistent : Organism.registry_consistent Synthetic.nursery Synthetic.rooted.
Proof.
  intros ot st p (-> & -> & ->)%rooted_registered. by exists Synthetic.taproot.
Qed.

Lemma rooted_well_owned :
  Organism.well_owned Synthetic.nursery
    (Organism.initialize (Organism.setSeed 7 Synthetic.rooted)).
Proof.
  split; [exact rooted_consistent|]. repeat constructor.
Qed.

Lemma clone_simulates_identically_witness :
  exists h1 c,
    Organism.copy 2%positive Synthetic.nursery
      (Organism.initialize (Organism.setSeed 7 Synthetic.rooted))
    = Return (h1, c)
    /\ Synthetic.nursery ⊆ h1
    /\ Organism.this c = 2%positive
    /\ Organism.gen (Organism.initialize (Organism.setSeed 7 Synthetic.rooted))
       = mt19937_seed 7
    /\ Organism.gen c = mt19937_seed 7
    /\ Organism.plant c
       = Organism.plant (Organism.initialize (Organism.setSeed 7 Synthetic.rooted))
    /\ Organism.baseOrgans c
       = Organ.copy 2%positive <$> Organism.baseOrgans Synthetic.rooted
    /\ Organism.well_owned h1 c
    /\ (forall ot subtype p,
          Organism.registered c ot subtype = Some p -> Synthetic.nursery !! p = None)
    /\ outcome_rel (fun o' c' =>
                      Organism.getNodes o' = Organism.getNodes c'
                      /\ forall ot, Organism.getSegments ot o' = Organism.getSegments ot c')
         (Organism.simulate_all [1%float; 0.5%float; 2%float] false h1
            (Organism.initialize (Organism.setSeed 7 Synthetic.rooted)))
         (Organism.simulate_all [1%float; 0.5%float; 2%float] false h1 c).
Proof.
  apply (clone_simulates_identically 7 Synthetic.rooted 2%positive Synthetic.nursery
           [1%float; 0.5%float; 2%float] false).
  - exact Synthetic_owner_independent.
  - exact rooted_well_owned.
Defined.

(** ** The statements on the example organisms *)

(** Membership in a list that computes to a literal. *)
Ltac elem_cases H :=
  repeat (apply elem_of_cons in H as [H|H]); [..|by apply elem_of_nil in H].

Ltac evaluate_in t H :=
  let v := eval vm_compute in t in change t with v in H.

Ltac evaluate t :=
  let v := eval vm_compute in t in change t with v.

Lemma getOrganTypeParameter_registered_or_throws_witness :
  Organism.getOrganTypeParameter 2 5 Synthetic.rooted = Throw out_of_range
  /\ Organism.getOrganTypeParameter 2 1 Synthetic.rooted = Return 7%positive.
Proof.
  destruct (getOrganTypeParameter_registered_or_throws Synthetic.rooted 2 5) as [Hnone _];
    [lia|].
  destruct (getOrganTypeParameter_registered_or_throws Synthetic.rooted 2 1) as [_ Hsome];
    [lia|].
  split; [apply Hnone; reflexivity|apply Hsome; reflexivity].
Defined.

Lemma setOrganTypeParameter_replaces_witness :
  exists h' s',
    Organism.setOrganTypeParameter 8%positive Synthetic.nursery Synthetic.rooted
    = Return (h', s')
    /\ Organism.registered s' 2 1 = Some 8%positive
    /\ (forall q, Organism.registered Synthetic.rooted 2 1 = Some q ->
          h' = delete q Synthetic.nursery /\ h' !! q = None)
    /\ (Organism.registered Synthetic.rooted 2 1 = None -> h' = Synthetic.nursery)
    /\ (forall ot' st', (ot', st') <> (2, 1) ->
          Organism.registered s' ot' st' = Organism.registered Synthetic.rooted ot' st')
    /\ Organism.baseOrgans s' = Organism.baseOrgans Synthetic.rooted.
Proof.
  apply (setOrganTypeParameter_replaces Synthetic.nursery Synthetic.rooted 8%positive
           Synthetic.fibrous).
  - reflexivity.
  - reflexivity.
  - simpl. lia.
  - intros q Hq. vm_compute in Hq. injection Hq as <-. exists Synthetic.taproot.
    reflexivity.
Defined.

Lemma getNodes_dense_by_global_id_witness :
  exists nv organs,
    Organism.getOrgans (-1) Synthetic.grown = Return organs
    /\ Organism.getNodes Synthetic.grown = Return nv
    /\ Z.of_nat (length nv) = Organism.getNumberOfNodes Synthetic.grown
    /\ (forall o i k p, o ∈ organs ->
          Organ.getNodeId o i = Return k -> Organ.getNode o i = Return p ->
          nv !! Z.to_nat k = Some p)
    /\ (forall b k p, b ∈ Organism.baseOrgans Synthetic.grown ->
          Organ.getNodeId b 0 = Return k -> Organ.getNode b 0 = Return p ->
          nv !! Z.to_nat k = Some p).
Proof.
  apply (getNodes_dense_by_global_id Synthetic.grown).
  - vm_compute. discriminate.
  - vm_compute. discriminate.
  - repeat constructor; discriminate.
  - evaluate (Organism.traversal (-1) Synthetic.grown). repeat constructor.
  - intros k p Hin. evaluate_in (Organism.node_writes Synthetic.grown) Hin.
    evaluate (Organism.getNumberOfNodes Synthetic.grown).
    elem_cases Hin; apply pair_equal_spec in Hin as [-> _]; lia.
  - intros k p q Hp Hq. evaluate_in (Organism.node_writes Synthetic.grown) Hp.
    evaluate_in (Organism.node_writes Synthetic.grown) Hq.
    elem_cases Hp; apply pair_equal_spec in Hp as [-> ->]; elem_cases Hq;
      apply pair_equal_spec in Hq as [Hk ->]; first [reflexivity | discriminate Hk].
Defined.




(** C2, as it is stated, fails for a base organ that has only its
    attachment node: the step repositioned that node and appended nothing,
    and neither query reports the organ. *)
Lemma lone_tip_is_not_reported :
  Organ.only_moved Synthetic.lone_tip
  /\ Organism.baseOrgans Synthetic.lone = [Synthetic.lone_tip]
  /\ Organism.getUpdatedNodeIndices Synthetic.lone = Return []
  /\ Organism.getUpdatedNodes Synthetic.lone = Return [].
Proof.
  split; [split; [reflexivity|reflexivity]|].
  split; [reflexivity|]. split; reflexivity.
Qed.

Lemma moved_organ_reported_once_witness :
  exists ni nv k p,
    Organism.getUpdatedNodeIndices Synthetic.stretched = Return ni
    /\ Organism.getUpdatedNodes Synthetic.stretched = Return nv
    /\ length ni = Organism.moved_before Synthetic.stretched 3
    /\ length nv = Organism.moved_before Synthetic.stretched 3
    /\ last (Organ.nodeIds Synthetic.stretched_lateral) = Some k
    /\ last (Organ.nodes Synthetic.stretched_lateral) = Some p
    /\ ni !! Organism.moved_before Synthetic.stretched 1 = Some k
    /\ nv !! Organism.moved_before Synthetic.stretched 1 = Some p
    /\ forall v,
         Organism.getNewNodes_of Synthetic.stretched v Synthetic.stretched_lateral
         = Return v.
Proof.
  apply (moved_organ_reported_once Synthetic.stretched Synthetic.stretched_lateral 1%nat).
  - vm_compute. discriminate.
  - vm_compute. reflexivity.
  - split; reflexivity.
  - evaluate (Organism.traversal (-1) Synthetic.stretched).
    repeat constructor; vm_compute; discriminate.
Defined.



Lemma getSummed_is_sum_of_getParameter_witness :
  exists v,
    Organism.getParameter "length" 2 [] Synthetic.grown = Return v
    /\ v = (fun o => Organ_getParameter o "length") <$> Organism.traversal 2 Synthetic.grown
    /\ Organism.getSummed "length" 2 Synthetic.grown
       = Return (fold_left PrimFloat.add v 0%float).
Proof.
  destruct (@getSummed_is_sum_of_getParameter _ Synthetic.policy "length" 2
              Synthetic.grown) as (_ & _ & _ & Hreturns & _).
  apply Hreturns. vm_compute. discriminate.
Defined.

Lemma simulate_snapshot_order_time_witness :
  Organism.simulate 1%float false ∅ Synthetic.sapling = Return Synthetic.grown
  /\ Organism.oldNumberOfNodes Synthetic.grown = Organism.getNumberOfNodes Synthetic.sapling
  /\ Organism.simtime Synthetic.grown = (Organism.simtime Synthetic.sapling + 1)%float.
Proof.
  split; [|split; reflexivity].
  apply (proj2 (@simulate_snapshot_order_time _ Synthetic.policy 1%float false ∅
                  Synthetic.sapling Synthetic.grown)).
  exists (Organism.baseOrgans Synthetic.grown), (Organism.plant Synthetic.grown).
  split; [|reflexivity].
  unfold Synthetic.sapling, Organism.baseOrgans at 1.
  eapply Organism.in_order_cons; [reflexivity|].
  eapply Organism.in_order_cons; [reflexivity|].
  apply Organism.in_order_nil.
Defined.

(** ** Further statements on the example organisms *)

Lemma getOrganTypeParameters_ascending_witness :
  exists es : list (Z * address),
    Organism.getOrganTypeParameters 2 Synthetic.rooted = Return (snd <$> es)
    /\ StronglySorted Z.lt (fst <$> es)
    /\ forall subtype p,
         (subtype, p) ∈ es <-> Organism.registered Synthetic.rooted 2 subtype = Some p.
Proof. apply (getOrganTypeParameters_ascending Synthetic.rooted 2). lia. Defined.

Lemma setOrganTypeParameter_then_prototype_witness :
  exists h' s',
    Organism.setOrganTypeParameter 8%positive Synthetic.nursery Synthetic.rooted
    = Return (h', s')
    /\ Organism.getOrganTypeParameter 2 1 s' = Return 8%positive
    /\ Organism.prototype h' s' 2 1 = Return Synthetic.fibrous.
Proof.
  apply (setOrganTypeParameter_then_prototype Synthetic.nursery Synthetic.rooted 8%positive
           Synthetic.fibrous).
  - reflexivity.
  - reflexivity.
  - simpl. lia.
  - intros q Hq. vm_compute in Hq. injection Hq as <-.
    split; [by exists Synthetic.taproot|discriminate].
Defined.

Lemma setOrganTypeParameter_again_dangles_witness :
  exists s',
    Organism.setOrganTypeParameter 7%positive Synthetic.nursery Synthetic.rooted
    = Return (delete 7%positive Synthetic.nursery, s')
    /\ Organism.getOrganTypeParameter 2 1 s' = Return 7%positive
    /\ Organism.prototype (delete 7%positive Synthetic.nursery) s' 2 1 = Undefined.
Proof.
  apply (setOrganTypeParameter_again_dangles Synthetic.nursery Synthetic.rooted 7%positive
           Synthetic.taproot); reflexivity.
Defined.

Lemma setOrganTypeParameter_keeps_consistent_witness :
  exists h' s',
    Organism.setOrganTypeParameter 8%positive Synthetic.nursery Synthetic.rooted
    = Return (h', s')
    /\ Organism.this s' = Organism.this Synthetic.rooted
    /\ Organism.registry_consistent h' s'.
Proof.
  apply (setOrganTypeParameter_keeps_consistent Synthetic.nursery Synthetic.rooted
           8%positive Synthetic.fibrous).
  - exact rooted_consistent.
  - reflexivity.
  - reflexivity.
  - simpl. lia.
  - vm_compute. discriminate.
Defined.

Lemma copy_clones_registry_witness :
  exists h1 c,
    Organism.copy 2%positive Synthetic.nursery Synthetic.rooted = Return (h1, c)
    /\ (forall a proto, Synthetic.nursery !! a = Some proto -> h1 !! a = Some proto)
    /\ (forall ot st, Organism.registered Synthetic.rooted ot st = None ->
          Organism.registered c ot st = None)
    /\ (forall ot st p, Organism.registered Synthetic.rooted ot st = Some p ->
          exists a proto,
            Organism.registered c ot st = Some a
            /\ Synthetic.nursery !! p = Some proto
            /\ Synthetic.nursery !! a = None
            /\ h1 !! a = Some (OrganTypeParameter.copy 2%positive proto))
    /\ (forall a, is_Some (h1 !! a) ->
          is_Some (Synthetic.nursery !! a)
          \/ exists ot st, Organism.registered c ot st = Some a).
Proof.
  apply (copy_clones_registry 2%positive Synthetic.nursery Synthetic.rooted).
  exact rooted_allocated.
Defined.

Lemma copy_keeps_consistent_witness :
  exists h1 c,
    Organism.copy 2%positive Synthetic.nursery Synthetic.rooted = Return (h1, c)
    /\ Organism.this c = 2%positive
    /\ Organism.registry_consistent h1 c
    /\ Organism.registry_consistent h1 Synthetic.rooted.
Proof.
  apply (copy_keeps_consistent 2%positive Synthetic.nursery Synthetic.rooted).
  exact rooted_consistent.
Defined.

Lemma destroy_frees_registry_witness :
  exists h',
    Organism.destroy Synthetic.nursery Synthetic.rooted = Return h'
    /\ (forall ot st p, Organism.registered Synthetic.rooted ot st = Some p ->
          h' !! p = None)
    /\ (forall a, (forall ot st, Organism.registered Synthetic.rooted ot st <> Some a) ->
          h' !! a = Synthetic.nursery !! a).
Proof.
  apply (destroy_frees_registry Synthetic.nursery Synthetic.rooted).
  exact rooted_consistent.
Defined.

Lemma destroy_dangling_undefined_witness :
  Organism.destroy (delete 7%positive Synthetic.nursery) Synthetic.rooted = Undefined.
Proof.
  apply (destroy_dangling_undefined (delete 7%positive Synthetic.nursery) Synthetic.rooted
           2 1 7%positive); reflexivity.
Defined.

Lemma copy_then_destroy_restores_witness :
  exists h1 c,
    Organism.copy 2%positive Synthetic.nursery Synthetic.rooted = Return (h1, c)
    /\ Organism.destroy h1 c = Return Synthetic.nursery.
Proof.
  apply (copy_then_destroy_restores 2%positive Synthetic.nursery Synthetic.rooted).
  exact rooted_consistent.
Defined.

Lemma greenhouse_consistent :
  Organism.registry_consistent Synthetic.greenhouse Synthetic.rooted.
Proof.
  intros ot st p (-> & -> & ->)%rooted_registered. by exists Synthetic.taproot.
Qed.

Lemma clone_registry_is_independent_witness :
  exists h1 c h2 c',
    Organism.copy 2%positive Synthetic.greenhouse Synthetic.rooted = Return (h1, c)
    /\ Organism.setOrganTypeParameter 9%positive h1 c = Return (h2, c')
    /\ forall ot st,
         Organism.prototype h2 Synthetic.rooted ot st
         = Organism.prototype Synthetic.greenhouse Synthetic.rooted ot st.
Proof.
  apply (clone_registry_is_independent 2%positive Synthetic.greenhouse Synthetic.rooted
           9%positive Synthetic.graft).
  - exact greenhouse_consistent.
  - reflexivity.
  - reflexivity.
  - simpl. lia.
Defined.

Lemma getPolylines_nodes_of_traversal_witness :
  Organism.getPolylines 2 Synthetic.grown
  = Return (Organ.nodes <$> Organism.traversal 2 Synthetic.grown)
  /\ Organism.getPolylines 2 Synthetic.uncounted = Throw length_error.
Proof.
  split.
  - apply (proj1 (proj2 (getPolylines_nodes_of_traversal 2 Synthetic.grown))).
    vm_compute. discriminate.
  - apply (proj2 (proj2 (getPolylines_nodes_of_traversal 2 Synthetic.uncounted))).
    reflexivity.
Defined.

Lemma getPolylinesCTs_times_of_traversal_witness :
  Organism.getPolylinesCTs 2 Synthetic.grown
  = Return ((fun o => take (length (Organ.nodes o)) (Organ.nodeCTs o))
              <$> Organism.traversal 2 Synthetic.grown)
  /\ Organism.getPolylinesCTs (-1) Synthetic.ragged = Throw out_of_range
  /\ Organism.getPolylinesCTs (-1) Synthetic.uncounted = Throw length_error.
Proof.
  split; [|split].
  - apply (proj1 (getPolylinesCTs_times_of_traversal 2 Synthetic.grown)).
    + vm_compute. discriminate.
    + evaluate (Organism.traversal 2 Synthetic.grown). repeat constructor.
  - apply (proj1 (proj2 (getPolylinesCTs_times_of_traversal (-1) Synthetic.ragged))).
    + vm_compute. discriminate.
    + evaluate (Organism.traversal (-1) Synthetic.ragged). apply Exists_cons_hd.
      cbn. lia.
  - apply (proj2 (proj2 (getPolylinesCTs_times_of_traversal (-1) Synthetic.uncounted))).
    reflexivity.
Defined.

Lemma getSegmentOrigins_match_segments_witness :
  (Organism.getSegments 2 Synthetic.grown
   = Return (Organism.traversal 2 Synthetic.grown ≫= Organ.getSegments)
   /\ Organism.getSegmentOrigins 2 Synthetic.grown
      = Return (Organism.traversal 2 Synthetic.grown ≫= fun o =>
                  replicate (length (Organ.getSegments o)) o))
  /\ (Organism.getSegments 2 Synthetic.uncounted = Throw length_error
      /\ Organism.getSegmentOrigins 2 Synthetic.uncounted = Throw length_error).
Proof.
  split.
  - apply (proj1 (proj2 (getSegmentOrigins_match_segments 2 Synthetic.grown))).
    vm_compute. discriminate.
  - apply (proj2 (proj2 (getSegmentOrigins_match_segments 2 Synthetic.uncounted))).
    reflexivity.
Defined.

Lemma getNodeCTs_dense_by_global_id_witness :
  exists cts,
    Organism.getNodeCTs Synthetic.grown = Return cts
    /\ Z.of_nat (length cts) = Organism.getNumberOfNodes Synthetic.grown
    /\ (forall o i k ct, o ∈ Organism.traversal (-1) Synthetic.grown ->
          Organ.getNodeId o i = Return k -> Organ.getNodeCT o i = Return ct ->
          cts !! Z.to_nat k = Some ct)
    /\ (forall b k ct, b ∈ Organism.baseOrgans Synthetic.grown ->
          Organ.getNodeId b 0 = Return k -> Organ.getNodeCT b 0 = Return ct ->
          cts !! Z.to_nat k = Some ct).
Proof.
  apply (getNodeCTs_dense_by_global_id Synthetic.grown).
  - vm_compute. discriminate.
  - vm_compute. discriminate.
  - repeat constructor; discriminate.
  - evaluate (Organism.traversal (-1) Synthetic.grown). repeat constructor.
  - intros k p Hin. evaluate_in (Organism.ct_writes Synthetic.grown) Hin.
    evaluate (Organism.getNumberOfNodes Synthetic.grown).
    elem_cases Hin; apply pair_equal_spec in Hin as [-> _]; lia.
  - intros k p q Hp Hq. evaluate_in (Organism.ct_writes Synthetic.grown) Hp.
    evaluate_in (Organism.ct_writes Synthetic.grown) Hq.
    elem_cases Hp; apply pair_equal_spec in Hp as [-> ->]; elem_cases Hq;
      apply pair_equal_spec in Hq as [Hk ->]; first [reflexivity | discriminate Hk].
Defined.

Lemma getNodeCTs_parallel_to_getNodes_witness :
  outcome_rel (fun nv cts => length nv = length cts)
    (Organism.getNodes Synthetic.grown) (Organism.getNodeCTs Synthetic.grown).
Proof.
  apply (getNodeCTs_parallel_to_getNodes Synthetic.grown).
  - repeat constructor; discriminate.
  - evaluate (Organism.traversal (-1) Synthetic.grown). repeat constructor.
Defined.

Lemma getSegmentCTs_second_node_times_witness :
  (exists segs cts,
     Organism.getSegments 2 Synthetic.grown = Return segs
     /\ Organism.getSegmentCTs 2 Synthetic.grown = Return cts
     /\ length cts = length segs
     /\ forall i seg, segs !! i = Some seg ->
          cts !! i
          = [0%float; 0%float; 0%float; 1%float; 1%float; 1%float]
              !! Z.to_nat (Vector2i.y seg))
  /\ Organism.getSegmentCTs (-1) Synthetic.overlong = Undefined.
Proof.
  split.
  - destruct (getSegmentCTs_second_node_times 2 Synthetic.grown
                [0%float; 0%float; 0%float; 1%float; 1%float; 1%float] eq_refl)
      as (segs & Hsegs & Hin & _).
    exists segs. destruct Hin as (cts & Hcts).
    + vm_compute in Hsegs. injection Hsegs as <-. repeat constructor; cbn; lia.
    + by exists cts.
  - destruct (getSegmentCTs_second_node_times (-1) Synthetic.overlong
                [0%float; 1%float] eq_refl)
      as (segs & Hsegs & _ & Hout).
    apply Hout. vm_compute in Hsegs. injection Hsegs as <-.
    apply Exists_cons_tl, Exists_cons_hd. unfold in_bounds. cbn. lia.
Defined.

Lemma getNodes_throws_witness :
  Organism.getNodes Synthetic.overdrawn = Throw length_error
  /\ Organism.getNodes Synthetic.uncounted = Throw length_error
  /\ Organism.getNodes Synthetic.bare = Throw out_of_range
  /\ Organism.getNodes Synthetic.miscounted = Throw out_of_range.
Proof.
  split; [|split; [|split]].
  - apply (proj1 (getNodes_throws Synthetic.overdrawn)). right. reflexivity.
  - apply (proj1 (getNodes_throws Synthetic.uncounted)). left. reflexivity.
  - apply (proj1 (proj2 (getNodes_throws Synthetic.bare))).
    + vm_compute. discriminate.
    + vm_compute. discriminate.
    + apply Exists_cons_hd. by left.
  - apply (proj2 (proj2 (getNodes_throws Synthetic.miscounted))).
    + vm_compute. discriminate.
    + vm_compute. discriminate.
    + repeat constructor; discriminate.
    + evaluate (Organism.traversal (-1) Synthetic.miscounted). repeat constructor.
    + evaluate (Organism.node_writes Synthetic.miscounted).
      evaluate (Organism.getNumberOfNodes Synthetic.miscounted).
      do 3 apply Exists_cons_tl. apply Exists_cons_hd. cbn. lia.
Defined.

Lemma getUpdatedNodes_in_getNodes_witness :
  exists nv ni un,
    Organism.getNodes Synthetic.stretched = Return nv
    /\ Organism.getUpdatedNodeIndices Synthetic.stretched = Return ni
    /\ Organism.getUpdatedNodes Synthetic.stretched = Return un
    /\ Forall2 (fun k p => 0 <= k /\ nv !! Z.to_nat k = Some p) ni un.
Proof.
  eexists _, _, _. split; [reflexivity|]. split; [reflexivity|]. split; [reflexivity|].
  apply (getUpdatedNodes_in_getNodes Synthetic.stretched).
  - repeat constructor; discriminate.
  - evaluate (Organism.traversal (-1) Synthetic.stretched). repeat constructor.
  - intros k p q Hp Hq. evaluate_in (Organism.node_writes Synthetic.stretched) Hp.
    evaluate_in (Organism.node_writes Synthetic.stretched) Hq.
    elem_cases Hp; apply pair_equal_spec in Hp as [-> ->]; elem_cases Hq;
      apply pair_equal_spec in Hq as [Hk ->]; first [reflexivity | discriminate Hk].
  - reflexivity.
  - reflexivity.
  - reflexivity.
Defined.

Lemma getNewNodes_in_getNodes_witness :
  exists nv nn o p,
    Organism.getNodes Synthetic.grown = Return nv
    /\ Organism.getNewNodes Synthetic.grown = Return nn
    /\ Organism.traversal (-1) Synthetic.grown !! 0%nat = Some o
    /\ Organism.oldNumberOfNodes Synthetic.grown <= 3
    /\ nn !! Z.to_nat (3 - Organism.oldNumberOfNodes Synthetic.grown) = Some p
    /\ nv !! Z.to_nat 3 = Some p.
Proof.
  eexists _, _, _, _. split; [reflexivity|]. split; [reflexivity|]. split; [reflexivity|].
  eapply (getNewNodes_in_getNodes Synthetic.grown _ _ _ 1 3).
  - repeat constructor; discriminate.
  - evaluate (Organism.traversal (-1) Synthetic.grown).
    repeat constructor; vm_compute; discriminate.
  - intros k p q Hp Hq. evaluate_in (Organism.node_writes Synthetic.grown) Hp.
    evaluate_in (Organism.node_writes Synthetic.grown) Hq.
    elem_cases Hp; apply pair_equal_spec in Hp as [-> ->]; elem_cases Hq;
      apply pair_equal_spec in Hq as [Hk ->]; first [reflexivity | discriminate Hk].
  - reflexivity.
  - reflexivity.
  - evaluate (Organism.traversal (-1) Synthetic.grown). by left.
  - vm_compute. discriminate.
  - reflexivity.
  - reflexivity.
Defined.

Lemma getNewNodes_skips_negative_count_witness :
  Organism.getNewNodes_of Synthetic.signed [] Synthetic.signed_root = Return [].
Proof.
  apply (getNewNodes_skips_negative_count Synthetic.signed Synthetic.signed_root []).
  - cbn. lia.
  - reflexivity.
Defined.

Lemma getNewSegments_overflow_throws_witness :
  (Organism.getNewSegments (-1) Synthetic.overdrawn = Throw length_error
   /\ Organism.getNewSegmentOrigins (-1) Synthetic.overdrawn = Throw length_error)
  /\ (Organism.getNewSegments (-1) Synthetic.uncounted = Throw length_error
      /\ Organism.getNewSegmentOrigins (-1) Synthetic.uncounted = Throw length_error)
  /\ (Organism.getNewSegments (-1) Synthetic.miscounted = Throw out_of_range
      /\ Organism.getNewSegmentOrigins (-1) Synthetic.miscounted = Throw out_of_range).
Proof.
  split; [|split].
  - apply (proj1 (getNewSegments_overflow_throws (-1) Synthetic.overdrawn)).
    right. reflexivity.
  - apply (proj1 (getNewSegments_overflow_throws (-1) Synthetic.uncounted)).
    left. reflexivity.
  - apply (proj2 (getNewSegments_overflow_throws (-1) Synthetic.miscounted)).
    + vm_compute. discriminate.
    + evaluate (Organism.traversal (-1) Synthetic.miscounted). repeat constructor.
    + vm_compute. split; [discriminate|reflexivity].
Defined.

Lemma getParameter_of_given_organs_witness :
  Organism.getParameter "length" 3 [Synthetic.lone_tip] Synthetic.sapling
  = Return ((fun o => Organ_getParameter o "length") <$> [Synthetic.lone_tip]).
Proof.
  apply (@getParameter_of_given_organs _ Synthetic.policy "length" 3 [Synthetic.lone_tip]
           Synthetic.sapling).
  discriminate.
Defined.

Lemma getOrgans_kind_is_filter_witness :
  (exists organs,
     Organism.getOrgans (-1) Synthetic.grown = Return organs
     /\ Organism.getOrgans 2 Synthetic.grown
        = Return (filter (fun o => 2 = -1 \/ 2 = Organ.organType o) organs))
  /\ (Organism.getOrgans (-1) Synthetic.uncounted = Throw length_error
      /\ Organism.getOrgans 2 Synthetic.uncounted = Throw length_error).
Proof.
  split.
  - apply (proj1 (proj2 (getOrgans_kind_is_filter 2 Synthetic.grown))).
    vm_compute. discriminate.
  - apply (proj2 (proj2 (getOrgans_kind_is_filter 2 Synthetic.uncounted))).
    reflexivity.
Defined.

Lemma getSegmentCTs_of_well_formed_witness :
  Organism.getSegmentCTs 2 Synthetic.grown
  = Return (Organism.traversal 2 Synthetic.grown ≫= fun o => tail (Organ.nodeCTs o)).
Proof.
  apply (getSegmentCTs_of_well_formed 2 Synthetic.grown).
  - vm_compute. discriminate.
  - vm_compute. discriminate.
  - repeat constructor; discriminate.
  - evaluate (Organism.traversal (-1) Synthetic.grown). repeat constructor.
  - intros k p Hin. evaluate_in (Organism.ct_writes Synthetic.grown) Hin.
    evaluate (Organism.getNumberOfNodes Synthetic.grown).
    elem_cases Hin; apply pair_equal_spec in Hin as [-> _]; lia.
  - intros k p q Hp Hq. evaluate_in (Organism.ct_writes Synthetic.grown) Hp.
    evaluate_in (Organism.ct_writes Synthetic.grown) Hq.
    elem_cases Hp; apply pair_equal_spec in Hp as [-> ->]; elem_cases Hq;
      apply pair_equal_spec in Hq as [Hk ->]; first [reflexivity | discriminate Hk].
Defined.

Lemma getUpdatedNodes_throw_witness :
  Organism.getUpdatedNodeIndices Synthetic.restless = Throw out_of_range
  /\ Organism.getUpdatedNodes Synthetic.restless = Throw out_of_range.
Proof.
  destruct (getUpdatedNodes_throw Synthetic.restless Synthetic.restless_root)
    as [Hids Hnodes].
  - vm_compute. discriminate.
  - evaluate (Organism.traversal (-1) Synthetic.restless). by left.
  - reflexivity.
  - split; [apply Hids|apply Hnodes]; cbn; lia.
Defined.

